(** * DIPlib convolution: a shallow embedding of src/linear/convolution.cpp

    The development follows the C++ source function by function:
    [InternOneDimensionalFilter], [SeparableConvolutionLineFilter::Filter],
    [IsMeaninglessFilter], [SeparableConvolution], [ConvolveFT],
    [GeneralConvolution] and [Convolution], and [Add] of
    src/math/arithmetic.cpp.  It goes on with the tensor multiplication line
    filters and [Polygon::Area] of the same file, with the options of the
    deconvolution functions and with the properties of the slice viewer
    bindings.  Sample arithmetic is exact: a sample type is a
    commutative ring, so every equation proved here holds before any
    floating-point rounding takes place.  The frameworks and the image class
    that the source builds on are not part of it; they are modelled from the
    specification and marked as such. *)

From Stdlib Require Import ZArith List String Bool Lia Ring Floats Uint63 Ascii.
Import ListNotations.
Local Open Scope Z_scope.
#[local] Set Warnings "-inexact-float".

(** ** Results of calls that may throw *)

Inductive result (A : Type) : Type :=
| Ok (a : A)
| Throw (msg : string).
Arguments Ok {A} a.
Arguments Throw {A} msg.

Definition bind {A B : Type} (r : result A) (k : A -> result B) : result B :=
  match r with
  | Ok a => k a
  | Throw m => Throw m
  end.

Notation "x <- r ;; k" := (bind r (fun x => k))
  (at level 61, r at next level, right associativity).

(** [DIP_THROW_IF( cond, msg )] followed by the rest of the function. *)
Definition throw_if {A : Type} (cond : bool) (msg : string) (k : result A) : result A :=
  if cond then Throw msg else k.

Fixpoint mapM {A B : Type} (f : A -> result B) (l : list A) : result (list B) :=
  match l with
  | [] => Ok []
  | a :: l' => b <- f a ;; bs <- mapM f l' ;; Ok (b :: bs)
  end.

(** ** [dip::uint]: 64-bit unsigned arithmetic with wrap-around *)

Definition uint_modulus : Z := 2 ^ 64.
Definition uint (z : Z) : Z := z mod uint_modulus.

(** [std::vector< dfloat >::max_size()]: no tap list is longer than this. *)
Definition vector_max_size : Z := 2 ^ 60 - 1.

(** ** Sample types

    [TPI] and [TPF] of the line filter range over sfloat, dfloat, scomplex
    and dcomplex.  The embedding abstracts them as one commutative ring [T]
    (the real filter types embed in the complex image types), with complex
    conjugation, the comparison [==] and the reading of two consecutive reals
    as one complex number ([reinterpret_cast< dcomplex const* >]). *)

Class Sample (T : Type) : Type := {
  s0 : T;
  s1 : T;
  sadd : T -> T -> T;
  smul : T -> T -> T;
  ssub : T -> T -> T;
  sopp : T -> T;
  conjugate : T -> T;
  seqb : T -> T -> bool;
  cplx : T -> T -> T;
  sample_ring : ring_theory s0 s1 sadd smul ssub sopp (@eq T);
  seqb_eq : forall x y, seqb x y = true <-> x = y;
  cplx_real : forall x, cplx x s0 = x;
}.

Declare Scope sample_scope.
Delimit Scope sample_scope with S.
Infix "+" := sadd : sample_scope.
Infix "*" := smul : sample_scope.
Infix "-" := ssub : sample_scope.
Notation "- x" := (sopp x) : sample_scope.

(** Integer samples: a real sample type (conjugation is the identity and the
    imaginary part of a pair is dropped, as for [static_cast< dfloat >]).
    With a complex filter the source computes in a complex sample type, which
    this instance does not represent: it serves for real filters only. *)
#[export] Instance Z_Sample : Sample Z := {|
  s0 := 0; s1 := 1;
  sadd := Z.add; smul := Z.mul; ssub := Z.sub; sopp := Z.opp;
  conjugate := fun x => x;
  seqb := Z.eqb;
  cplx := fun re _ => re;
  sample_ring := Zth;
  seqb_eq := Z.eqb_eq;
  cplx_real := fun x => eq_refl;
|}.

(** ** One-dimensional filters *)

Inductive FilterSymmetry : Type :=
| GENERAL | EVEN | ODD | CONJ | D_EVEN | D_ODD | D_CONJ.

(** Modelled from the spec: the string constants of namespace [S] are
    declared in a header that is not under src/; the values are the tags of
    section 6 of the spec and of the doctests. *)
Module S.
Definition EVEN : string := "even".
Definition ODD : string := "odd".
Definition CONJ : string := "conj".
Definition SPATIAL : string := "spatial".
Definition FREQUENCY : string := "frequency".
Definition DIRECT : string := "direct".
Definition FOURIER : string := "Fourier".
Definition SEPARABLE : string := "separable".
Definition BEST : string := "best".
Definition CENTER : string := "center".
Definition INVERSE : string := "inverse".
Definition REAL : string := "real".
End S.

(** Modelled from the spec: the error messages of namespace [E] are declared
    in a header that is not under src/; only which error is raised matters. *)
Module E.
Definition IMAGE_NOT_FORGED : string := "Image is not forged".
Definition DIMENSIONALITY_NOT_SUPPORTED : string := "Dimensionality not supported".
Definition DIMENSIONALITIES_DONT_MATCH : string := "Dimensionalities don't match".
Definition ARRAY_PARAMETER_WRONG_LENGTH : string := "Array parameter has the wrong number of elements".
Definition SIZES_DONT_MATCH : string := "Sizes don't match".
Definition INVALID_FLAG : string := "Invalid flag".
End E.

Section Filters.
Context {T : Type} {ST : Sample T}.
Local Open Scope sample_scope.

(** [dip::OneDimensionalFilter]: the caller's description of a filter.
    [filter] holds the stored values; with [isComplex] they are read in
    pairs (real part, imaginary part). *)
Record OneDimensionalFilter : Type := {
  filter : list T;
  origin : Z;
  symmetry : string;
  isComplex : bool;
}.

Record InternOneDimensionalFilter : Type := {
  i_filter : list T;
  i_size : Z;
  i_dataSize : Z;
  i_origin : Z;
  i_isDouble : bool;
  i_isComplex : bool;
  i_symmetry : FilterSymmetry;
}.

(** Reading a [dfloat] array as an array of [dcomplex]. *)
Fixpoint as_complex (l : list T) : list T :=
  match l with
  | re :: im :: l' => cplx re im :: as_complex l'
  | _ => []
  end.

(** [CopyReverseData( src, dest, n )]: [dest[k] = src[n - 1 - k]]. *)
Definition CopyReverseData (src : list T) (n : Z) : list T :=
  rev (firstn (Z.to_nat n) src).

(** Lines 81-103: the symmetry tag and the logical size it implies. *)
Definition parse_symmetry (sym : string) (isComplex : bool) (size : Z)
  : result (FilterSymmetry * Z) :=
  if (sym =? EmptyString)%string || (sym =? "general")%string then Ok (GENERAL, size)
  else if (sym =? S.EVEN)%string then Ok (EVEN, uint (size + uint (size - 1)))
  else if (sym =? S.ODD)%string then Ok (ODD, uint (size + uint (size - 1)))
  else if (sym =? S.CONJ)%string then
    Ok (if isComplex then CONJ else EVEN, uint (size + uint (size - 1)))
  else if (sym =? "d-even")%string then Ok (D_EVEN, uint (size + size))
  else if (sym =? "d-odd")%string then Ok (D_ODD, uint (size + size))
  else if (sym =? "d-conj")%string then
    Ok (if isComplex then D_CONJ else D_EVEN, uint (size + size))
  else Throw ("Symmetry string not recognized: " ++ sym)%string.

(** Lines 104-109: a negative origin selects the central index, any other
    origin must lie inside the filter. *)
Definition resolve_origin (in_origin size : Z) : result Z :=
  if in_origin <? 0 then Ok (size / 2)
  else throw_if (size <=? in_origin) "Origin outside of filter" (Ok in_origin).

(** Lines 69-76: the number of stored samples; a complex filter holds two
    values per sample. *)
Definition stored_size (f : OneDimensionalFilter) (useComplex : bool) : result Z :=
  let n := Z.of_nat (List.length (filter f)) in
  if isComplex f then
    throw_if (Z.odd n) "Complex filter must have an even number of values."
      (throw_if (negb useComplex) "Found a complex filter where none was expected."
         (Ok (n / 2)))
  else Ok n.

(** The constructor of [InternOneDimensionalFilter] (lines 67-148). *)
Definition mkInternOneDimensionalFilter
    (f : OneDimensionalFilter) (useDouble useComplex : bool)
  : result InternOneDimensionalFilter :=
  dataSize <- stored_size f useComplex ;;
  if dataSize =? 0 then
    Ok {| i_filter := []; i_size := dataSize; i_dataSize := dataSize; i_origin := 0;
          i_isDouble := useDouble; i_isComplex := useComplex;
          i_symmetry := GENERAL |}
  else
    ss <- parse_symmetry (symmetry f) useComplex dataSize ;;
    let '(sym, size) := ss in
    o <- resolve_origin (origin f) size ;;
    let src := if isComplex f then as_complex (filter f) else filter f in
    Ok {| i_filter := CopyReverseData src dataSize;
          i_size := size; i_dataSize := dataSize;
          i_origin := uint (uint (size - o) - 1);
          i_isDouble := useDouble; i_isComplex := useComplex;
          i_symmetry := sym |}.

(** *** The line filter (lines 175-290)

    [inp k] is the sample [k] places after [params.inBuffer.buffer]; the
    border samples sit at negative [k] and at [k >= length].  Pointers into
    the buffer are the integers [k]. *)

(** The inner loop of GENERAL: [for( f = filter; f != filterEnd; ++f, ++in_t )]. *)
Fixpoint mac_general (f : list T) (inp : Z -> T) (in_t : Z) (sum : T) : T :=
  match f with
  | [] => sum
  | w :: f' => mac_general f' inp (in_t + 1)%Z (sum + w * inp in_t)
  end.

(** The inner loop of the folded cases:
    [for( ...; f != filterEnd; ++f, --in_l, ++in_r )], with [term] the
    summand of the case. *)
Fixpoint mac_folded (term : T -> T -> T -> T) (f : list T) (inp : Z -> T)
    (in_r in_l : Z) (sum : T) : T :=
  match f with
  | [] => sum
  | w :: f' =>
      mac_folded term f' inp (in_r + 1)%Z (in_l - 1)%Z
        (sum + term w (inp in_r) (inp in_l))
  end.

Definition term_even (w r l : T) : T := w * (r + l).
Definition term_odd (w r l : T) : T := w * (r - l).
Definition term_conj (w r l : T) : T := w * r + conjugate w * l.

(** One output sample, with [in_] the current value of the pointer [in]. *)
Definition line_sample (sym : FilterSymmetry) (f : list T) (inp : Z -> T) (in_ : Z) : T :=
  match sym with
  | GENERAL => mac_general f inp in_ s0
  | EVEN => mac_folded term_even (tl f) inp (in_ + 1)%Z (in_ - 1)%Z (hd s0 f * inp in_)
  | ODD => mac_folded term_odd (tl f) inp (in_ + 1)%Z (in_ - 1)%Z (hd s0 f * inp in_)
  | CONJ => mac_folded term_conj (tl f) inp (in_ + 1)%Z (in_ - 1)%Z (hd s0 f * inp in_)
  | D_EVEN => mac_folded term_even f inp in_ (in_ - 1)%Z s0
  | D_ODD => mac_folded term_odd f inp in_ (in_ - 1)%Z s0
  | D_CONJ => mac_folded term_conj f inp in_ (in_ - 1)%Z s0
  end.

(** The outer loop [for( ii = 0; ii < length; ++ii ) { ...; ++in; out += outStride; }]. *)
Fixpoint line_loop (sym : FilterSymmetry) (f : list T) (inp : Z -> T)
    (in_ : Z) (length : nat) : list T :=
  match length with
  | O => []
  | S n => line_sample sym f inp in_ :: line_loop sym f inp (in_ + 1)%Z n
  end.

(** [SeparableConvolutionLineFilter::Filter] for one line: [in -= origin],
    and for every symmetry but GENERAL [in += dataSize - 1]. *)
Definition Filter (fd : InternOneDimensionalFilter) (inp : Z -> T) (length : nat)
  : list T :=
  let in_ := (0 - i_origin fd)%Z in
  let in_ := match i_symmetry fd with
             | GENERAL => in_
             | _ => (in_ + (i_dataSize fd - 1))%Z
             end in
  line_loop (i_symmetry fd) (i_filter fd) inp in_ length.

(** [IsMeaninglessFilter] (lines 295-305). *)
Definition IsMeaninglessFilter (fd : InternOneDimensionalFilter) : bool :=
  (i_size fd =? 0) || ((i_size fd =? 1) && seqb (hd s0 (i_filter fd)) s1).

End Filters.

Arguments OneDimensionalFilter T : clear implicits.
Arguments InternOneDimensionalFilter T : clear implicits.


(** ** What the symmetry tags stand for *)

Section SymmetricTaps.
Context {T : Type} {ST : Sample T}.
Local Open Scope sample_scope.

(** The full tap list that the stored half [h] describes under each tag, as
    the doctest "testing the separable convolution" pairs them: even
    [{a,b,c} -> {a,b,c,b,a}], odd [{a,b,c} -> {a,b,c,-b,-a}], d-even
    [{a,b,c} -> {a,b,c,c,b,a}] and d-odd [{a,b,c} -> {a,b,c,-c,-b,-a}]. *)
Definition full_even (h : list T) : list T := h ++ tl (rev h).
Definition full_odd (h : list T) : list T := h ++ map sopp (tl (rev h)).
Definition full_d_even (h : list T) : list T := h ++ rev h.
Definition full_d_odd (h : list T) : list T := h ++ map sopp (rev h).

(** A real filter given by its taps, a symmetry tag and an origin. *)
Definition real_filter (values : list T) (sym : string) (org : Z)
  : OneDimensionalFilter T :=
  {| filter := values; origin := org; symmetry := sym; isComplex := false |}.

(** The plain sum of taps times samples at increasing positions. *)
Fixpoint dot (f : list T) (inp : Z -> T) (q : Z) : T :=
  match f with
  | [] => s0
  | w :: f' => w * inp q + dot f' inp (q + 1)%Z
  end.

(** The same sum with the samples taken at decreasing positions. *)
Fixpoint rdot (f : list T) (inp : Z -> T) (q : Z) : T :=
  match f with
  | [] => s0
  | w :: f' => w * inp q + rdot f' inp (q - 1)%Z
  end.

(** Two outcomes agree: the same error, or results related by [R]. *)
Definition same_result {A : Type} (R : A -> A -> Prop) (r1 r2 : result A) : Prop :=
  match r1, r2 with
  | Ok a, Ok b => R a b
  | Throw m1, Throw m2 => m1 = m2
  | _, _ => False
  end.

(** Two internal filters that no caller of the line filter can tell apart. *)
Definition same_filter (f1 f2 : InternOneDimensionalFilter T) : Prop :=
  i_size f1 = i_size f2 /\ i_origin f1 = i_origin f2
  /\ IsMeaninglessFilter f1 = IsMeaninglessFilter f2
  /\ forall (inp : Z -> T) (n : nat), Filter f1 inp n = Filter f2 inp n.

(** The tags under which the logical size is [2 * n - 1] or [n], so that one
    stored tap is one logical tap. *)
Definition single_length_tag (sym : string) : bool :=
  (sym =? EmptyString)%string || (sym =? "general")%string || (sym =? "even")%string
  || (sym =? "odd")%string || (sym =? "conj")%string.

(** A filter without taps, or with the single tap 1 (stored as one real
    value, or as one complex value with imaginary part 0). *)
Definition is_trivial_filter (f : OneDimensionalFilter T) : Prop :=
  filter f = []
  \/ (single_length_tag (symmetry f) = true
      /\ ((isComplex f = false /\ filter f = [s1])
          \/ (isComplex f = true /\ filter f = [s1; s0]))).

(** The logical size that goes with a symmetry and a number of stored
    samples. *)
Definition size_of_symmetry (sym : FilterSymmetry) (dataSize : Z) : Z :=
  match sym with
  | GENERAL => dataSize
  | EVEN | ODD | CONJ => 2 * dataSize - 1
  | D_EVEN | D_ODD | D_CONJ => 2 * dataSize
  end%Z.

(** What the constructor guarantees about a filter with taps. *)
Definition well_formed (fd : InternOneDimensionalFilter T) : Prop :=
  (1 <= i_dataSize fd)%Z
  /\ Z.of_nat (List.length (i_filter fd)) = i_dataSize fd
  /\ i_size fd = size_of_symmetry (i_symmetry fd) (i_dataSize fd)
  /\ (0 <= i_origin fd < i_size fd)%Z
  /\ (i_size fd < uint_modulus)%Z.

(** The symmetries that fold the taps around one centre sample. *)
Definition is_doubled (sym : FilterSymmetry) : bool :=
  match sym with
  | D_EVEN | D_ODD | D_CONJ => true
  | _ => false
  end.

(** [fd] computes the line of [fg] read one sample earlier. *)
Definition shifted_filter (fg fd : InternOneDimensionalFilter T) : Prop :=
  i_size fg = i_size fd /\ i_origin fg = i_origin fd
  /\ forall (inp : Z -> T) (n : nat),
       Filter fd inp n = Filter fg (fun k => inp (k + -1)%Z) n.

End SymmetricTaps.

(** ** Images *)

(** Modelled from the spec: [dip::DataType] is declared in a header that is
    not under src/; section 3 of the spec gives the fixed set of sample types
    (real or complex, 8 to 64 bit, signed, unsigned or float). *)
Inductive DataType : Type :=
| DT_BIN | DT_UINT8 | DT_SINT8 | DT_UINT16 | DT_SINT16 | DT_UINT32 | DT_SINT32
| DT_UINT64 | DT_SINT64 | DT_SFLOAT | DT_DFLOAT | DT_SCOMPLEX | DT_DCOMPLEX.

Module DataTypes.
(** Modelled from the spec: [DataType::IsBinary] is not under src/. *)
Definition IsBinary (dt : DataType) : bool :=
  match dt with DT_BIN => true | _ => false end.

(** Modelled from the spec: [DataType::IsComplex] is not under src/. *)
Definition IsComplex (dt : DataType) : bool :=
  match dt with DT_SCOMPLEX | DT_DCOMPLEX => true | _ => false end.

(** Modelled from the spec: [DataType::IsReal] is not under src/. *)
Definition IsReal (dt : DataType) : bool := negb (IsComplex dt).

(** Modelled from the spec: the test
    [dtype.IsA( DataType::Class_DComplex + DataType::Class_DFloat )] of line
    334; [DataType::IsA] is not under src/. *)
Definition IsDouble (dt : DataType) : bool :=
  match dt with DT_DFLOAT | DT_DCOMPLEX => true | _ => false end.
End DataTypes.

(** Modelled from the spec: [dip::BoundaryCondition] is declared in a header
    that is not under src/; section 3 of the spec names the conditions. *)
Inductive BoundaryCondition : Type :=
| SYMMETRIC_MIRROR | ASYMMETRIC_MIRROR | PERIODIC | ADD_ZEROS
| ZERO_ORDER_EXTRAPOLATE | ALREADY_EXPANDED.

(** Modelled from the spec: [dip::Image] is not under src/.  Section 3: an
    image has sizes, a number of tensor elements, a sample type and a sample
    buffer.  Here the strides are the normal ones: sample [t] of the pixel at
    coordinates [c] is stored at index
    [t + tensorElements * (c0 + sizes0 * (c1 + sizes1 * ...))] of [data]. *)
Record Image (T : Type) : Type := {
  forged : bool;
  dataType : DataType;
  sizes : list Z;
  tensorElements : Z;
  data : list T;
}.
Arguments forged {T} _.
Arguments dataType {T} _.
Arguments sizes {T} _.
Arguments tensorElements {T} _.
Arguments data {T} _.

(** [DimensionArray::product] and [DimensionArray::sum]. *)
Definition product (l : list Z) : Z := fold_right Z.mul 1 l.
Definition sum (l : list Z) : Z := fold_right Z.add 0 l.

(** Modelled from the spec: [Image::Size( dim )] is not under src/. *)
Definition Size {T} (img : Image T) (ii : nat) : Z := nth ii (sizes img) 1.

(** Modelled from the spec: [Image::NumberOfPixels] is not under src/. *)
Definition NumberOfPixels {T} (img : Image T) : Z := product (sizes img).

(** The library functions the source calls and that are not under src/. *)
Class Collaborators (T : Type) : Type := {
  (** the boundary condition named by each string; throws on an unknown name *)
  StringArrayToBoundaryConditionArray : list string -> result (list BoundaryCondition);
  (** a scan line with [border] synthesized samples on either side *)
  ExtendLine : BoundaryCondition -> Z -> list T -> list T;
  (** an FFT-friendly size; throws when the size is too large *)
  OptimalFourierTransformSize : Z -> result Z;
  (** the rank-1 decomposition of a kernel, empty when there is none *)
  SeparateFilter : Image T -> list (OneDimensionalFilter T);
  (** the floating-point type, and the complex type, that holds a sample type *)
  SuggestFlex : DataType -> DataType;
  SuggestComplex : DataType -> DataType;
}.

(** The indices [0 .. n - 1]. *)
Definition zseq (n : Z) : list Z := map Z.of_nat (seq 0 (Z.to_nat n)).

Section SeparableFramework.
Context {T : Type} {ST : Sample T} {LIB : Collaborators T}.

(** Modelled from the spec: [Framework::Separable] is not under src/.  The
    distance in [data] between neighbours along dimension [d]. *)
Definition line_stride (img : Image T) (d : nat) : Z :=
  tensorElements img * product (firstn d (sizes img)).

(** Modelled from the spec: [Framework::Separable] is not under src/.
    Section 3: one boundary condition per dimension or one shared; none
    selects the default. *)
Definition boundary_of (bc : list BoundaryCondition) (d : nat) : BoundaryCondition :=
  match bc with
  | [] => SYMMETRIC_MIRROR
  | [b] => b
  | _ => nth d bc SYMMETRIC_MIRROR
  end.

(** Modelled from the spec: [Framework::Separable] is not under src/.
    Section 4.2: along the axis being processed every scan line is extended
    by the border of the axis under the boundary condition and handed to the
    line filter; [inp k] reads the extended line [k] places after its first
    real sample. *)
Definition filter_dimension (d : nat) (border : list Z) (bc : list BoundaryCondition)
    (lineFilter : nat -> (Z -> T) -> nat -> list T) (img : Image T) : Image T :=
  let n := Size img d in
  let st := line_stride img d in
  let b := nth d border 0 in
  let out_sample (idx : Z) : T :=
    let c := (idx / st) mod n in
    let base := idx - c * st in
    let line := map (fun j => nth (Z.to_nat (base + j * st)) (data img) s0) (zseq n) in
    let buffer := ExtendLine (boundary_of bc d) b line in
    let inp (k : Z) := nth (Z.to_nat (k + b)) buffer s0 in
    nth (Z.to_nat c) (lineFilter d inp (Z.to_nat n)) s0 in
  {| forged := true; dataType := dataType img; sizes := sizes img;
     tensorElements := tensorElements img;
     data := map out_sample (zseq (Z.of_nat (List.length (data img)))) |}.

(** Modelled from the spec: [Framework::Separable] is not under src/.
    Section 4.2: the selected filters are applied in dimension order, the
    output of one axis being the input of the next. *)
Fixpoint separable_pass (dims : list nat) (process : list bool) (border : list Z)
    (bc : list BoundaryCondition) (lineFilter : nat -> (Z -> T) -> nat -> list T)
    (img : Image T) : Image T :=
  match dims with
  | [] => img
  | d :: dims' =>
      separable_pass dims' process border bc lineFilter
        (if nth d process false then filter_dimension d border bc lineFilter img
         else img)
  end.

(** Modelled from the spec: [Framework::Separable] is not under src/.  The
    output has the requested sample type; the boundary condition array has
    no element, one, or one per dimension. *)
Definition Framework_Separable (in_ : Image T) (outImageType : DataType)
    (process : list bool) (border : list Z) (bc : list BoundaryCondition)
    (lineFilter : nat -> (Z -> T) -> nat -> list T) : result (Image T) :=
  let nDims := List.length (sizes in_) in
  throw_if (negb ((List.length bc <=? 1)%nat || (List.length bc =? nDims)%nat))
    E.ARRAY_PARAMETER_WRONG_LENGTH
    (let out := separable_pass (seq 0 nDims) process border bc lineFilter in_ in
     Ok {| forged := true; dataType := outImageType; sizes := sizes out;
           tensorElements := tensorElements out; data := data out |}).

(** *** [SeparableConvolution] (lines 310-412) *)

(** Lines 348-350: [b = std::max( b, sz - b - 1 )] in [dip::uint]. *)
Definition border_of (fd : InternOneDimensionalFilter T) : Z :=
  let sz := i_size fd in
  let b := i_origin fd in
  Z.max b (uint (uint (sz - b) - 1)).

(** What the function has computed when it reaches [Framework::Separable]. *)
Record SeparableSetup : Type := {
  su_dtype : DataType;
  su_filterData : list (InternOneDimensionalFilter T);
  su_border : list Z;
  su_process : list bool;
}.

(** The default-constructed value, returned by list accesses out of range;
    the checks of lines 317-320 keep every access of the source in range. *)
Definition dummy_filter : InternOneDimensionalFilter T :=
  {| i_filter := []; i_size := 0; i_dataSize := 0; i_origin := 0;
     i_isDouble := true; i_isComplex := false; i_symmetry := GENERAL |}.

(** Lines 367-378: which dimensions are left to process. *)
Definition update_process (in_ : Image T)
    (filterData : list (InternOneDimensionalFilter T)) (process : list bool)
  : list bool :=
  if (List.length filterData =? 1)%nat then
    if IsMeaninglessFilter (hd dummy_filter filterData)
    then map (fun _ => false) process
    else process
  else
    map (fun ii =>
           if (Size in_ ii <=? 1) || IsMeaninglessFilter (nth ii filterData dummy_filter)
           then false
           else nth ii process false)
        (seq 0 (List.length (sizes in_))).

(** Lines 362-366: an empty [process] selects every dimension. *)
Definition initial_process (nDims : nat) (process : list bool) : result (list bool) :=
  if (List.length process =? 0)%nat then Ok (repeat true nDims)
  else throw_if (negb (List.length process =? nDims)%nat)
         E.ARRAY_PARAMETER_WRONG_LENGTH (Ok process).

(** Lines 317-378: the checks, the internal filters, the borders and the
    process array. *)
Definition SeparableConvolution_setup (in_ : Image T)
    (filterArray : list (OneDimensionalFilter T)) (process : list bool)
  : result SeparableSetup :=
  throw_if (negb (forged in_)) E.IMAGE_NOT_FORGED (
  let nDims := List.length (sizes in_) in
  throw_if (nDims <? 1)%nat E.DIMENSIONALITY_NOT_SUPPORTED (
  throw_if (negb (List.length filterArray =? 1)%nat
            && negb (List.length filterArray =? nDims)%nat)
    E.ARRAY_PARAMETER_WRONG_LENGTH (
  let isComplexFilter := existsb isComplex filterArray in
  let dtype := if isComplexFilter then SuggestComplex (dataType in_)
               else SuggestFlex (dataType in_) in
  let useDouble := DataTypes.IsDouble dtype in
  filterData <- mapM (fun f => mkInternOneDimensionalFilter f useDouble isComplexFilter)
                  filterArray ;;
  let border :=
    if (List.length filterData =? 1)%nat
    then repeat (border_of (hd dummy_filter filterData)) nDims
    else map (fun ii => border_of (nth ii filterData dummy_filter)) (seq 0 nDims) in
  process <- initial_process nDims process ;;
  Ok {| su_dtype := dtype; su_filterData := filterData; su_border := border;
        su_process := update_process in_ filterData process |}))).

(** The line filter object: [procDim] is 0 when one filter is shared. *)
Definition SeparableConvolutionLineFilter
    (filterData : list (InternOneDimensionalFilter T))
    (dimension : nat) (inp : Z -> T) (length : nat) : list T :=
  let procDim := if (1 <? List.length filterData)%nat then dimension else O in
  Filter (nth procDim filterData dummy_filter) inp length.

(** Lines 380-411: the boundary conditions and the call of the framework. *)
Definition SeparableConvolution (in_ : Image T)
    (filterArray : list (OneDimensionalFilter T))
    (boundaryCondition : list string) (process : list bool)
  : result (Image T) :=
  su <- SeparableConvolution_setup in_ filterArray process ;;
  bc <- StringArrayToBoundaryConditionArray boundaryCondition ;;
  Framework_Separable in_ (su_dtype su) (su_process su) (su_border su) bc
    (SeparableConvolutionLineFilter (su_filterData su)).

(** What a setup hands to the framework, up to filters that act alike. *)
Definition same_setup (su su' : SeparableSetup) : Prop :=
  su_dtype su = su_dtype su' /\ su_border su = su_border su'
  /\ su_process su = su_process su'
  /\ Forall2 same_filter (su_filterData su) (su_filterData su').

(** The entry of the filter array that serves dimension [ii]: the only one
    when the array has one element. *)
Definition filter_index {A : Type} (filterArray : list A) (ii : nat) : nat :=
  if (List.length filterArray =? 1)%nat then O else ii.

End SeparableFramework.

(** ** Array comparisons and broadcasting *)

(** Modelled from the spec: the comparisons of [DimensionArray] are not under
    src/.  [lhs <= rhs] and [lhs < rhs] hold when the arrays have the same
    number of elements and the relation holds element by element (line 439:
    "also throws if dimensionalities don't match"; section 4.3: "its size
    exceeds the array's along any axis"). *)
Fixpoint all2 (r : Z -> Z -> bool) (a b : list Z) : bool :=
  match a, b with
  | [], [] => true
  | x :: a', y :: b' => r x y && all2 r a' b'
  | _, _ => false
  end.

(** Modelled from the spec: [operator<=] of [DimensionArray], see [all2]. *)
Definition sizes_le : list Z -> list Z -> bool := all2 Z.leb.

(** Modelled from the spec: [operator<] of [DimensionArray], see [all2]. *)
Definition sizes_lt : list Z -> list Z -> bool := all2 Z.ltb.

(** Modelled from the spec: [Image::ExpandDimensionality( n )] is not under
    src/; singleton dimensions are appended up to [n] dimensions. *)
Definition ExpandDimensionality (sz : list Z) (n : nat) : list Z :=
  sz ++ repeat 1 (n - List.length sz).

(** Modelled from the spec: [BooleanFromString( str, trueString,
    falseString )] is not under src/; any other string is an invalid flag. *)
Definition BooleanFromString (str trueString falseString : string) : result bool :=
  if (str =? trueString)%string then Ok true
  else if (str =? falseString)%string then Ok false
  else Throw E.INVALID_FLAG.

(** Modelled from the spec: singleton expansion (section 4.1 and glossary)
    is not under src/.  The size of two operands after expansion: the
    shorter array is completed with ones, and along each dimension the sizes
    agree or one of them is 1. *)
Fixpoint SingletonExpandedSize (a b : list Z) : result (list Z) :=
  match a, b with
  | [], _ => Ok b
  | _, [] => Ok a
  | x :: a', y :: b' =>
      r <- SingletonExpandedSize a' b' ;;
      if x =? y then Ok (x :: r)
      else if x =? 1 then Ok (y :: r)
      else if y =? 1 then Ok (x :: r)
      else Throw E.SIZES_DONT_MATCH
  end.

(** ** [ConvolveFT] (lines 415-516)

    The transform, the padding and the cropping are library functions that
    are not under src/.  The embedding follows the sizes of the images
    through the function and records every library call in order.  A
    transform keeps the sizes of its input; [ExtendImageToSize] and [Pad]
    return the sizes asked for, which may not be smaller than the image;
    [Crop] returns the sizes asked for, which may not be larger;
    [MultiplySampleWise] returns the common size of its operands after
    singleton expansion. *)

(** A call of a library function, with the sizes it works on. *)
Inductive LibraryCall : Type :=
| Call_ExtendImageToSize (sz : list Z) (cropLocation : string) (bc : list string)
| Call_FourierTransform (sz : list Z) (options : list string)
| Call_Pad (sz : list Z) (cropLocation : string)
| Call_MultiplySampleWise (lhs rhs : list Z)
| Call_Crop (sz : list Z) (cropLocation : string).

(** What a run of [ConvolveFT] did and the sizes of the image it returned. *)
Record FTRun : Type := {
  ft_calls : list LibraryCall;
  ft_outSizes : list Z;
  ft_real : bool;
}.


Section Dispatch.
Context {T : Type} {ST : Sample T} {LIB : Collaborators T}.

(** [filter.Size( ii )] on the caller's filter image: reading past its
    dimensionality is undefined, the embedding stops there. *)
Definition Size_checked (img : Image T) (ii : nat) : result Z :=
  match nth_error (sizes img) ii with
  | Some s => Ok s
  | None => Throw "Size( ii ) read past the dimensionality"
  end.

(** Line 442. *)
Definition inPadding (inSpatial filterSpatial outSpatial : bool)
    (boundaryCondition : list string) : bool :=
  inSpatial && filterSpatial && outSpatial
  && negb (List.length boundaryCondition =? 0)%nat.

(** Lines 451-454: the padded sizes. *)
Definition padded_sizes (in_ filter_ : Image T) : result (list Z) :=
  mapM (fun ii =>
          fs <- Size_checked filter_ ii ;;
          OptimalFourierTransformSize (uint (uint (nth ii (sizes in_) 0 + fs) - 1)))
       (seq 0 (List.length (sizes in_))).

(** Lines 415-516. *)
Definition ConvolveFT (in_ filter_ : Image T)
    (inRepresentation filterRepresentation outRepresentation : string)
    (boundaryCondition : list string) : result FTRun :=
  throw_if (negb (forged in_)) E.IMAGE_NOT_FORGED (
  throw_if (negb (forged filter_)) E.IMAGE_NOT_FORGED (
  inSpatial <- BooleanFromString inRepresentation S.SPATIAL S.FREQUENCY ;;
  filterSpatial <- BooleanFromString filterRepresentation S.SPATIAL S.FREQUENCY ;;
  outSpatial <- BooleanFromString outRepresentation S.SPATIAL S.FREQUENCY ;;
  let nDims := List.length (sizes in_) in
  let filterFT := if (List.length (sizes filter_) <? nDims)%nat
                  then ExpandDimensionality (sizes filter_) nDims
                  else sizes filter_ in
  throw_if (negb (sizes_le filterFT (sizes in_))) E.SIZES_DONT_MATCH (
  let inPad := inPadding inSpatial filterSpatial outSpatial boundaryCondition in
  let inSizes := sizes in_ in
  (* Prepare input image *)
  prep <- (if inSpatial then
             if inPad then
               sz <- padded_sizes in_ filter_ ;;
               throw_if (negb (sizes_le inSizes sz)) E.SIZES_DONT_MATCH
                 (Ok ([Call_ExtendImageToSize sz S.CENTER boundaryCondition;
                       Call_FourierTransform sz []], sz))
             else Ok ([Call_FourierTransform inSizes []], inSizes)
           else Ok ([], inSizes)) ;;
  let '(calls_in, inFT) := prep in
  let real := if inSpatial then DataTypes.IsReal (dataType in_) else false in
  (* Prepare filter image *)
  let padFilter := sizes_lt filterFT inFT in
  let calls_pad := if padFilter then [Call_Pad inFT S.CENTER] else [] in
  let filterFT := if padFilter then inFT else filterFT in
  let real := if filterSpatial then real && DataTypes.IsReal (dataType filter_)
              else false in
  let calls_filter := if filterSpatial then [Call_FourierTransform filterFT []] else [] in
  (* Compute output image *)
  outFT <- SingletonExpandedSize inFT filterFT ;;
  let calls_mul := [Call_MultiplySampleWise inFT filterFT] in
  let calls := calls_in ++ calls_pad ++ calls_filter ++ calls_mul in
  if outSpatial then
    let options := S.INVERSE :: (if real then [S.REAL] else []) in
    if inPad then
      throw_if (negb (sizes_le inSizes outFT)) E.SIZES_DONT_MATCH
        (Ok {| ft_calls := calls ++ [Call_FourierTransform outFT options;
                                     Call_Crop inSizes S.CENTER];
               ft_outSizes := inSizes; ft_real := real |})
    else
      Ok {| ft_calls := calls ++ [Call_FourierTransform outFT options];
            ft_outSizes := outFT; ft_real := real |}
  else
    Ok {| ft_calls := calls; ft_outSizes := outFT; ft_real := real |}))).

(** ** [GeneralConvolution] (lines 588-616) *)

(** Modelled from the spec: [dip::Kernel] is not under src/.  A kernel is a
    neighbourhood image with a mirroring flag and an "ignore zero-weight
    entries" flag (sections 3 and 4.3 of the spec). *)
Record Kernel : Type := {
  k_image : Image T;
  k_mirror : bool;
  k_ignoreZeros : bool;
}.

(** Modelled from the spec: [dip::Kernel] is not under src/.  The
    constructor from an image, as in [Kernel filter{ c_filter }]. *)
Definition mkKernel (img : Image T) : Kernel :=
  {| k_image := img; k_mirror := false; k_ignoreZeros := false |}.

(** Modelled from the spec: [dip::Kernel::Mirror] is not under src/. *)
Definition Mirror (k : Kernel) : Kernel :=
  {| k_image := k_image k; k_mirror := negb (k_mirror k);
     k_ignoreZeros := k_ignoreZeros k |}.

(** Modelled from the spec: [dip::Kernel::IgnoreZeros] is not under src/. *)
Definition IgnoreZeros (k : Kernel) : Kernel :=
  {| k_image := k_image k; k_mirror := k_mirror k; k_ignoreZeros := true |}.

(** Modelled from the spec: [dip::Kernel::HasComplexWeights] is not under
    src/; the weights are complex when the kernel image is. *)
Definition HasComplexWeights (k : Kernel) : bool :=
  DataTypes.IsComplex (dataType (k_image k)).

(** [GeneralConvolutionLineFilter::Filter] (lines 527-548): the inner
    [while] over the offsets and the weights of the pixel table. *)
Fixpoint weighted_sum (offsets : list Z) (weights : list T) (inp : Z -> T)
    (in_ : Z) (sum : T) : T :=
  match offsets, weights with
  | o :: offsets', w :: weights' =>
      weighted_sum offsets' weights' inp in_ (sadd sum (smul (inp (in_ + o)) w))
  | _, _ => sum
  end.

(** The outer loop of the same function, [in += inStride] after each
    output sample. *)
Fixpoint GeneralConvolutionLineFilter (offsets : list Z) (weights : list T)
    (inp : Z -> T) (in_ inStride : Z) (length : nat) : list T :=
  match length with
  | O => []
  | S n =>
      weighted_sum offsets weights inp in_ s0
      :: GeneralConvolutionLineFilter offsets weights inp (in_ + inStride) inStride n
  end.

(** The library function [GeneralConvolution] hands the work to. *)
Inductive FullCall : Type :=
| Call_Uniform (in_ : Image T) (neighborhood : Kernel) (bc : list string)
| Call_Full (in_ : Image T) (dtype : DataType) (bc : list BoundaryCondition)
    (kernel : Kernel) (complexWeights : bool).

(** Lines 588-616. *)
Definition GeneralConvolution (in_ c_filter : Image T)
    (boundaryCondition : list string) : result FullCall :=
  throw_if (negb (forged in_)) E.IMAGE_NOT_FORGED (
  throw_if (negb (forged c_filter)) E.IMAGE_NOT_FORGED (
  let filter_ := Mirror (mkKernel c_filter) in
  if DataTypes.IsBinary (dataType c_filter) then
    Ok (Call_Uniform in_ filter_ boundaryCondition)
  else
    let filter_ := IgnoreZeros filter_ in
    bc <- StringArrayToBoundaryConditionArray boundaryCondition ;;
    let dtype := SuggestFlex (dataType in_) in
    if HasComplexWeights filter_ then
      Ok (Call_Full in_ (SuggestComplex dtype) bc filter_ true)
    else
      Ok (Call_Full in_ dtype bc filter_ false))).

End Dispatch.

(** ** [Convolution] (lines 618-704) *)

(** [static_cast< dfloat >( n )] for a [dip::uint] below [2^63]. *)
Definition dfloat_of_uint (n : Z) : float := PrimFloat.of_uint63 (Uint63.of_Z n).

Section CostModel.
Local Open Scope float_scope.

(** Lines 653-655: the fitted running times. *)
Definition timeFourier (nx : float) : float := 1.635e-08 * nx + 8.781e-04.
Definition timeSeparable (n ks : float) : float :=
  1.434e-10 * n * ks + 4.987e-06 * ks.
Definition timeDirect (n kp : float) : float :=
  1.806e-10 * n * kp + 1.206e-05 * kp.
End CostModel.

Section Convolution.
Context {T : Type} {ST : Sample T} {LIB : Collaborators T}.

(** The implementation [Convolution] ends in. *)
Inductive ConvolutionCall : Type :=
| Call_SeparableConvolution (in_ : Image T)
    (filterArray : list (OneDimensionalFilter T)) (bc : list string)
| Call_ConvolveFT (in_ filter_ : Image T)
    (inRepresentation filterRepresentation outRepresentation : string)
    (bc : list string)
| Call_GeneralConvolution (in_ filter_ : Image T) (bc : list string).

(** Lines 635-674: [(trySeparable, tryFourier, tryDirect)]. *)
Definition methods_to_try (in_ filter_ : Image T) (method : string)
  : result (bool * bool * bool) :=
  if (method =? S.DIRECT)%string then Ok (false, false, true)
  else if (method =? S.FOURIER)%string then Ok (false, true, false)
  else if (method =? S.SEPARABLE)%string then Ok (true, false, false)
  else if (method =? S.BEST)%string then
    let n := dfloat_of_uint (NumberOfPixels in_) in
    let ks := dfloat_of_uint (sum (sizes filter_)) in
    let kp := dfloat_of_uint (product (sizes filter_)) in
    let expandedSizes := map (fun p => uint (fst p + snd p))
                           (combine (sizes in_) (sizes filter_)) in
    let nx := dfloat_of_uint (uint (product expandedSizes)) in
    let trySeparable := PrimFloat.ltb (timeSeparable n ks) (timeFourier nx) in
    let tryFourier := PrimFloat.ltb (timeFourier nx) (timeDirect n kp) in
    Ok (trySeparable, tryFourier, negb tryFourier)
  else Throw E.INVALID_FLAG.

(** Lines 628-631: the kernel with the dimensionality of the input. *)
Definition expand_filter (in_ filter_c : Image T) : Image T :=
  let nDims := List.length (sizes in_) in
  if (List.length (sizes filter_c) <? nDims)%nat
  then {| forged := forged filter_c; dataType := dataType filter_c;
          sizes := ExpandDimensionality (sizes filter_c) nDims;
          tensorElements := tensorElements filter_c; data := data filter_c |}
  else filter_c.

(** Lines 618-704: the implementation chosen and the arguments it gets. *)
Definition Convolution (in_ filter_c : Image T) (method : string)
    (boundaryCondition : list string) : result ConvolutionCall :=
  throw_if (negb (forged in_) || negb (forged filter_c)) E.IMAGE_NOT_FORGED (
  let nDims := List.length (sizes in_) in
  let filter_ := expand_filter in_ filter_c in
  throw_if (nDims <? List.length (sizes filter_))%nat E.DIMENSIONALITIES_DONT_MATCH (
  try <- methods_to_try in_ filter_ method ;;
  let '(trySeparable, tryFourier, tryDirect) := try in
  let after_separable :=
    if tryFourier
       && (negb tryDirect || (7 ^ Z.of_nat nDims <? NumberOfPixels filter_))
    then
      if (List.length boundaryCondition =? 0)%nat
      then Ok (Call_ConvolveFT in_ filter_ S.SPATIAL S.SPATIAL S.SPATIAL [EmptyString])
      else Ok (Call_ConvolveFT in_ filter_ S.SPATIAL S.SPATIAL S.SPATIAL
                 boundaryCondition)
    else Ok (Call_GeneralConvolution in_ filter_ boundaryCondition) in
  if trySeparable then
    let filterArray := SeparateFilter filter_ in
    if negb (List.length filterArray =? 0)%nat then
      Ok (Call_SeparableConvolution in_ filterArray boundaryCondition)
    else
      throw_if (negb tryFourier && negb tryDirect) "Filter kernel not separable."
        after_separable
  else after_separable)).

End Convolution.

(** ** The scan framework with singleton expansion

    Modelled from the spec: [Framework::ScanDyadic] and the image views it
    works on are not under src/; only [Add] (arithmetic.cpp, lines 26-37) and
    the doctest of lines 654-670 are.  Sections 3, 4.1 and 8 of the spec: an
    image is a strided view of a sample buffer, a singleton-expanded dimension
    has stride 0, the operands of a scan are broadcast to a common size, and
    every output sample is the callback applied to the corresponding input
    samples.  A dimension along which every operand has stride 0 is kept as
    one stored sample with stride 0 in the output. *)
Module Scan.
Section WithSample.
Context {T : Type} {ST : Sample T}.

(** Modelled from the spec: the array model of section 3 (sizes, strides in
    samples, a sample buffer); [dip::Image] is not under src/. *)
Record View : Type := {
  v_sizes : list Z;
  v_strides : list Z;
  v_origin : Z;
  v_data : list T;
}.

(** Modelled from the spec: the offset of a pixel is the origin plus the
    sum of coordinate times stride. *)
Fixpoint offset (strides coords : list Z) : Z :=
  match strides, coords with
  | st :: strides', c :: coords' => c * st + offset strides' coords'
  | _, _ => 0
  end.

(** Modelled from the spec: [Image::At( coords )], not under src/. *)
Definition At (v : View) (coords : list Z) : T :=
  nth (Z.to_nat (v_origin v + offset (v_strides v) coords)) (v_data v) s0.

(** Modelled from the spec: normal strides, the first dimension fastest. *)
Fixpoint normal_strides (st : Z) (sz : list Z) : list Z :=
  match sz with
  | [] => []
  | n :: sz' => st :: normal_strides (st * n) sz'
  end.

(** Modelled from the spec: a newly forged image filled with one value
    ([Image{ sizes, 1, DT_SFLOAT }] and [Fill]). *)
Definition Filled (sz : list Z) (x : T) : View :=
  {| v_sizes := sz; v_strides := normal_strides 1 sz; v_origin := 0;
     v_data := repeat x (Z.to_nat (product sz)) |}.

(** Modelled from the spec: a 0-D image holding one sample, as the
    right-hand side of [img + 1]. *)
Definition Scalar (x : T) : View :=
  {| v_sizes := []; v_strides := []; v_origin := 0; v_data := [x] |}.

(** The list with its element [n] replaced. *)
Fixpoint set_nth {A : Type} (n : nat) (x : A) (l : list A) : list A :=
  match n, l with
  | O, _ :: l' => x :: l'
  | S n', y :: l' => y :: set_nth n' x l'
  | _, [] => []
  end.

(** Modelled from the spec: [Image::ExpandSingletonDimension( dim, sz )]
    (glossary, "singleton expansion"): a size-1 dimension is given a
    larger size and stride 0. *)
Definition ExpandSingletonDimension (v : View) (dim : nat) (sz : Z) : result View :=
  match nth_error (v_sizes v) dim with
  | Some 1 =>
      Ok {| v_sizes := set_nth dim sz (v_sizes v);
            v_strides := set_nth dim 0 (v_strides v);
            v_origin := v_origin v; v_data := v_data v |}
  | _ => Throw "Invalid parameter value"
  end.

(** Modelled from the spec: [Image::IsSingletonExpanded], some dimension of
    size above 1 has stride 0. *)
Definition IsSingletonExpanded (v : View) : bool :=
  existsb (fun p => (1 <? fst p) && (snd p =? 0)) (combine (v_sizes v) (v_strides v)).

(** Modelled from the spec: the strides of an operand broadcast to [sz]:
    missing dimensions and dimensions of size 1 get stride 0. *)
Fixpoint broadcast_strides (sz sizes strides : list Z) : list Z :=
  match sz with
  | [] => []
  | n :: sz' =>
      match sizes, strides with
      | m :: sizes', st :: strides' =>
          (if m =? 1 then 0 else st) :: broadcast_strides sz' sizes' strides'
      | _, _ => 0 :: broadcast_strides sz' [] []
      end
  end.

(** Modelled from the spec: the stored extent of the output, 1 along every
    dimension where all operands have stride 0. *)
Fixpoint stored_sizes (sz sl sr : list Z) : list Z :=
  match sz, sl, sr with
  | n :: sz', l :: sl', r :: sr' =>
      (if (l =? 0) && (r =? 0) then 1 else n) :: stored_sizes sz' sl' sr'
  | _, _, _ => []
  end.

(** Modelled from the spec: the strides of the output, normal over the
    stored extent and 0 where the stored extent was reduced to 1. *)
Fixpoint output_strides (st : Z) (sz stored : list Z) : list Z :=
  match sz, stored with
  | n :: sz', m :: stored' =>
      (if (m =? 1) && negb (n =? 1) then 0 else st) :: output_strides (st * m) sz' stored'
  | _, _ => []
  end.

(** Modelled from the spec: the coordinates of a stored extent in storage
    order, the first dimension fastest. *)
Fixpoint coordinates (sz : list Z) : list (list Z) :=
  match sz with
  | [] => [[]]
  | n :: sz' =>
      flat_map (fun rest => map (fun c => c :: rest) (zseq n)) (coordinates sz')
  end.

(** Modelled from the spec: [Framework::ScanDyadic] (section 4.1): the
    callback [f] is applied once per stored output sample to the
    corresponding samples of the broadcast operands. *)
Definition ScanDyadic (f : T -> T -> T) (lhs rhs : View) : result View :=
  sz <- SingletonExpandedSize (v_sizes lhs) (v_sizes rhs) ;;
  let sl := broadcast_strides sz (v_sizes lhs) (v_strides lhs) in
  let sr := broadcast_strides sz (v_sizes rhs) (v_strides rhs) in
  let stored := stored_sizes sz sl sr in
  let sample (c : list Z) : T :=
    f (nth (Z.to_nat (v_origin lhs + offset sl c)) (v_data lhs) s0)
      (nth (Z.to_nat (v_origin rhs + offset sr c)) (v_data rhs) s0) in
  Ok {| v_sizes := sz; v_strides := output_strides 1 sz stored; v_origin := 0;
        v_data := map sample (coordinates stored) |}.

(** Modelled from the spec: the sample of an operand at coordinates of the
    common size, once its singleton dimensions are expanded. *)
Definition At_broadcast (v : View) (sz coords : list Z) : T :=
  nth (Z.to_nat (v_origin v + offset (broadcast_strides sz (v_sizes v) (v_strides v))
                                coords))
      (v_data v) s0.

(** Coordinates inside an image of sizes [sz]. *)
Definition in_range (sz coords : list Z) : Prop :=
  Forall2 (fun n c => 0 <= c < n) sz coords.

(** The position of coordinates in storage order. *)
Fixpoint index (sz coords : list Z) : Z :=
  match sz, coords with
  | n :: sz', c :: coords' => c + n * index sz' coords'
  | _, _ => 0
  end.

(** The stored sample that serves given coordinates: coordinate 0 along
    every dimension stored once. *)
Fixpoint clamp (stored coords : list Z) : list Z :=
  match stored, coords with
  | m :: stored', c :: coords' => (if m =? 1 then 0 else c) :: clamp stored' coords'
  | _, _ => []
  end.

(** [Add] (arithmetic.cpp, lines 26-37): the dyadic scan of
    [saturated_add], which is plain addition for the exact sample ring. *)
Definition Add (lhs rhs : View) : result View := ScanDyadic sadd lhs rhs.

End WithSample.
End Scan.

(** ** A concrete library over integer samples

    The theorems below hold for every implementation of the collaborators.
    The instance here serves to run the embedding on the inputs of the
    doctests. *)

(** Modelled from the spec: boundary extension is not under src/.  Section 3
    names the conditions; the sample synthesized at position [k] outside
    [0 .. n-1] is zero, the periodic or mirrored sample, the mirrored sample
    negated, or the nearest edge sample. *)
Definition extend_sample {T : Type} {ST : Sample T}
    (bc : BoundaryCondition) (line : list T) (k : Z) : T :=
  let n := Z.of_nat (List.length line) in
  let at_ (j : Z) := nth (Z.to_nat j) line s0 in
  if (0 <=? k) && (k <? n) then at_ k
  else
    match bc with
    | ADD_ZEROS | ALREADY_EXPANDED => s0
    | PERIODIC => at_ (k mod n)
    | SYMMETRIC_MIRROR =>
        let m := k mod (2 * n) in if m <? n then at_ m else at_ (2 * n - 1 - m)
    | ASYMMETRIC_MIRROR =>
        let m := k mod (2 * n) in if m <? n then at_ m else sopp (at_ (2 * n - 1 - m))
    | ZERO_ORDER_EXTRAPOLATE => if k <? 0 then at_ 0 else at_ (n - 1)
    end.

(** Modelled from the spec: the extended scan line, [border] samples before
    and after the line itself. *)
Definition extend_line {T : Type} {ST : Sample T}
    (bc : BoundaryCondition) (border : Z) (line : list T) : list T :=
  map (fun j => extend_sample bc line (j - border))
      (zseq (Z.of_nat (List.length line) + 2 * border)).

(** Modelled from the spec: the names of the boundary conditions, as the
    doctests spell them. *)
Definition boundary_of_string (s : string) : result BoundaryCondition :=
  if (s =? EmptyString)%string || (s =? "mirror")%string then Ok SYMMETRIC_MIRROR
  else if (s =? "asym mirror")%string then Ok ASYMMETRIC_MIRROR
  else if (s =? "periodic")%string then Ok PERIODIC
  else if (s =? "add zeros")%string then Ok ADD_ZEROS
  else if (s =? "zero order")%string then Ok ZERO_ORDER_EXTRAPOLATE
  else if (s =? "already expanded")%string then Ok ALREADY_EXPANDED
  else Throw E.INVALID_FLAG.

(** Modelled from the spec: [OptimalFourierTransformSize] is not under src/.
    dft.h documents it: the smallest size that is at least the given one and
    whose factors are 2, 3 and 5 only, an error above [maximumDFTSize]. *)
Fixpoint strip_factor (fuel : nat) (p n : Z) : Z :=
  match fuel with
  | O => n
  | S fuel' => if (1 <? n) && (n mod p =? 0) then strip_factor fuel' p (n / p) else n
  end.

Definition is_235_smooth (n : Z) : bool :=
  strip_factor 64 5 (strip_factor 64 3 (strip_factor 64 2 n)) =? 1.

Fixpoint next_smooth (fuel : nat) (n : Z) : result Z :=
  match fuel with
  | O => Throw "Cannot compute an optimal size"
  | S fuel' => if is_235_smooth n then Ok n else next_smooth fuel' (n + 1)
  end.

Definition maximumDFTSize : Z := 2 ^ 31 - 1.

Definition optimal_size (n : Z) : result Z :=
  throw_if (maximumDFTSize <? n) "Cannot compute an optimal size"
    (next_smooth (S (Z.to_nat n)) n).

(** Modelled from the spec: [SeparateFilter] is not under src/.  This
    stand-in recognises the kernels that have at most one dimension of size
    above 1: the samples are the taps along that dimension, every other
    dimension gets the one-tap identity filter.  It returns the empty array
    for every other kernel. *)
Definition separate_line_kernels {T : Type} {ST : Sample T} (k : Image T)
  : list (OneDimensionalFilter T) :=
  if (List.length (List.filter (fun n => negb (n =? 1)%Z) (sizes k)) <=? 1)%nat
     && (tensorElements k =? 1) && negb (List.length (sizes k) =? 0)%nat
  then map (fun n => {| filter := if n =? 1 then [s1] else data k;
                        origin := -1; symmetry := "general";
                        isComplex := false |})
           (sizes k)
  else [].

(** Modelled from the spec: [DataType::SuggestFlex] is not under src/.  The
    floating-point type of a sample type: single precision up to 16 bits,
    double precision above, a floating-point or complex type is kept. *)
Definition suggest_flex (dt : DataType) : DataType :=
  match dt with
  | DT_UINT32 | DT_SINT32 | DT_UINT64 | DT_SINT64 | DT_DFLOAT => DT_DFLOAT
  | DT_SCOMPLEX => DT_SCOMPLEX
  | DT_DCOMPLEX => DT_DCOMPLEX
  | _ => DT_SFLOAT
  end.

(** Modelled from the spec: [DataType::SuggestComplex] is not under src/.
    The complex type of the same precision as [suggest_flex]. *)
Definition suggest_complex (dt : DataType) : DataType :=
  match dt with
  | DT_UINT32 | DT_SINT32 | DT_UINT64 | DT_SINT64 | DT_DFLOAT | DT_DCOMPLEX =>
      DT_DCOMPLEX
  | _ => DT_SCOMPLEX
  end.

#[export] Instance Z_Collaborators : Collaborators Z := {|
  StringArrayToBoundaryConditionArray := mapM boundary_of_string;
  ExtendLine := extend_line;
  OptimalFourierTransformSize := optimal_size;
  SeparateFilter := separate_line_kernels;
  SuggestFlex := suggest_flex;
  SuggestComplex := suggest_complex;
|}.

(** Integer-valued images with normal strides. *)
Definition image (dt : DataType) (sz : list Z) (samples : list Z) : Image Z :=
  {| forged := true; dataType := dt; sizes := sz; tensorElements := 1;
     data := samples |}.

Definition taps (values : list Z) (sym : string) (org : Z) : OneDimensionalFilter Z :=
  {| filter := values; origin := org; symmetry := sym; isComplex := false |}.




(** ** The inputs of the examples *)

(** A line of three samples. *)
Definition line3 : Image Z := image DT_DFLOAT [3] [1; 2; 4].

(** A 3 x 2 image, the first dimension fastest. *)
Definition image32 : Image Z := image DT_DFLOAT [3; 2] [1; 2; 4; 10; 20; 40].

(** A one-dimensional image of a single pixel. *)
Definition pixel1 : Image Z := image DT_DFLOAT [1] [5].

(** The images of the doctest "testing ConvolveFT": 16 x 8 samples of value
    10 and a 4 x 4 kernel of value 5. *)
Definition img_16x8 : Image Z := image DT_SFLOAT [16; 8] (repeat 10 128).
Definition filt_4x4 : Image Z := image DT_SFLOAT [4; 4] (repeat 5 16).

(** What [ConvolveFT] does on them with the "periodic" boundary condition. *)
Definition periodic_run : FTRun :=
  {| ft_calls :=
       [Call_ExtendImageToSize [20; 12] S.CENTER ["periodic"%string];
        Call_FourierTransform [20; 12] [];
        Call_Pad [20; 12] S.CENTER;
        Call_FourierTransform [20; 12] [];
        Call_MultiplySampleWise [20; 12] [20; 12];
        Call_FourierTransform [20; 12] [S.INVERSE; S.REAL];
        Call_Crop [16; 8] S.CENTER];
     ft_outSizes := [16; 8];
     ft_real := true |}.

(** A binary 3 x 1 kernel and a 2 x 2 kernel that is not an outer product. *)
Definition binary_kernel : Image Z := image DT_BIN [3; 1] [1; 0; 1].
Definition kernel_2x2 : Image Z := image DT_SFLOAT [2; 2] [1; 2; 3; 4].
Definition kernel_3x1 : Image Z := image DT_SFLOAT [3; 1] [1; 2; 1].

(** Two filters for the 3 x 2 image and what the setup computes for them. *)
Definition filters32 : list (OneDimensionalFilter Z) :=
  [taps [1; 2; 1] "general" (-1); taps [1; 2] "even" 0].

Definition setup32 : SeparableSetup :=
  {| su_dtype := DT_DFLOAT;
     su_filterData :=
       [{| i_filter := [1; 2; 1]; i_size := 3; i_dataSize := 3; i_origin := 1;
           i_isDouble := true; i_isComplex := false; i_symmetry := GENERAL |};
        {| i_filter := [2; 1]; i_size := 3; i_dataSize := 2; i_origin := 2;
           i_isDouble := true; i_isComplex := false; i_symmetry := EVEN |}];
     su_border := [1; 2];
     su_process := [true; true] |}.

(** The one-tap identity filter shared by both dimensions. *)
Definition setup_identity : SeparableSetup :=
  {| su_dtype := DT_DFLOAT;
     su_filterData :=
       [{| i_filter := [1]; i_size := 1; i_dataSize := 1; i_origin := 0;
           i_isDouble := true; i_isComplex := false; i_symmetry := GENERAL |}];
     su_border := [0; 0];
     su_process := [false; false] |}.

(** A 3 x 1 image with one filter per dimension. *)
Definition image31 : Image Z := image DT_DFLOAT [3; 1] [1; 2; 4].

Definition filters31 : list (OneDimensionalFilter Z) :=
  [taps [1; 1] "general" (-1); taps [2; 3; 5] "general" (-1)].

Definition setup31 : SeparableSetup :=
  {| su_dtype := DT_DFLOAT;
     su_filterData :=
       [{| i_filter := [1; 1]; i_size := 2; i_dataSize := 2; i_origin := 0;
           i_isDouble := true; i_isComplex := false; i_symmetry := GENERAL |};
        {| i_filter := [5; 3; 2]; i_size := 3; i_dataSize := 3; i_origin := 1;
           i_isDouble := true; i_isComplex := false; i_symmetry := GENERAL |}];
     su_border := [1; 1];
     su_process := [true; false] |}.

(** The doctest "testing the scan framework with singleton-expanded
    dimensions": a 256 x 1 image of zeros, its second dimension expanded to
    256, and the image it gives when 1 is added. *)
Definition scan_img : Scan.View :=
  {| Scan.v_sizes := [256; 256]; Scan.v_strides := [1; 0]; Scan.v_origin := 0;
     Scan.v_data := repeat 0 256 |}.

Definition scan_out : Scan.View :=
  {| Scan.v_sizes := [256; 256]; Scan.v_strides := [1; 0]; Scan.v_origin := 0;
     Scan.v_data := repeat 1 256 |}.

(** ** More on the symmetry tags and on the arguments of the constructor *)

Section MoreFilters.
Context {T : Type} {ST : Sample T}.

(** The full tap list that the stored half [h] describes under "conj":
    [{a,b,c} -> {a,b,c,conj(b),conj(a)}]. *)
Definition full_conj (h : list T) : list T := h ++ map conjugate (tl (rev h)).

(** A complex filter: [values] holds real and imaginary parts in turn. *)
Definition complex_filter (values : list T) (sym : string) (org : Z)
  : OneDimensionalFilter T :=
  {| filter := values; origin := org; symmetry := sym; isComplex := true |}.

(** The tags that lines 81-100 accept. *)
Definition known_symmetry (sym : string) : bool :=
  existsb (String.eqb sym)
    [EmptyString; "general"; S.EVEN; S.ODD; S.CONJ; "d-even"; "d-odd"; "d-conj"]%string.

(** The origin that lines 104-109 settle on for a filter of logical size
    [size]. *)
Definition resolved_origin (in_origin size : Z) : Z :=
  if in_origin <? 0 then size / 2 else in_origin.


End MoreFilters.

(** ** The library calls of a run of [ConvolveFT] *)

(** A forward transform, an inverse transform, the sample-wise product. *)
Definition is_forward (c : LibraryCall) : bool :=
  match c with Call_FourierTransform _ [] => true | _ => false end.
Definition is_inverse (c : LibraryCall) : bool :=
  match c with
  | Call_FourierTransform _ (o :: _) => (o =? S.INVERSE)%string
  | _ => false
  end.
Definition is_product (c : LibraryCall) : bool :=
  match c with Call_MultiplySampleWise _ _ => true | _ => false end.

(** How many calls of a run satisfy [p]. *)
Definition count_calls (p : LibraryCall -> bool) (calls : list LibraryCall) : nat :=
  List.length (List.filter p calls).

(** ** Tensor multiplication: the line filters of src/math/arithmetic.cpp

    [MultiplyLineFilter], [MultiplySymmetricLineFilter] and
    [MultiplyDiagonalLineFilter] walk their buffers with running pointers.
    A buffer is a function from offsets (in samples, from the [buffer]
    pointer of the scan parameters) to samples; the embedding returns the
    stores through the output pointer in program order, each with its
    offset from [params.outBuffer[ 0 ].buffer].  The sample types are the
    floating-point and complex ones, for which [FlexType< TPI >] is [TPI] and
    [clamp_cast< TPI >] and [static_cast< TPI >] are the identity. *)

Section MultiplyLineFilters.
Context {T : Type} {ST : Sample T}.
Local Open Scope sample_scope.
Local Coercion Z.of_nat : nat >-> Z.

(** [stride] and [tensorStride] of one entry of [params.inBuffer] or
    [params.outBuffer]. *)
Record ScanBufferStrides : Type := {
  b_stride : Z;
  b_tensorStride : Z;
}.

(** Lines 87-92 and 152-157: [v += *lhsTT * *rhsTT] with both pointers
    advancing, [jj] times. *)
Fixpoint multiply_inner (jj : nat) (lhs rhs : Z -> T) (lhsTT rhsTT lhsStep rhsStep : Z)
    (v : T) : T :=
  match jj with
  | O => v
  | S jj' =>
      multiply_inner jj' lhs rhs (lhsTT + lhsStep)%Z (rhsTT + rhsStep)%Z lhsStep rhsStep
        (v + lhs lhsTT * rhs rhsTT)
  end.

(** Lines 84-96: the loop over [row]; the stores and the final [outT]. *)
Fixpoint multiply_rows (row nRows nInner : nat) (lhs rhs : Z -> T)
    (lhsT rhsT outT lhsTensorStride rhsTensorStride outTensorStride : Z)
  : list (Z * T) * Z :=
  match row with
  | O => ([], outT)
  | S row' =>
      let v := multiply_inner nInner lhs rhs lhsT rhsT
                 (nRows * lhsTensorStride)%Z rhsTensorStride s0 in
      let '(stores, outT') :=
        multiply_rows row' nRows nInner lhs rhs
          (lhsT + lhsTensorStride)%Z rhsT (outT + outTensorStride)%Z
          lhsTensorStride rhsTensorStride outTensorStride in
      ((outT, v) :: stores, outT')
  end.

(** Lines 82-98: the loop over [col]. *)
Fixpoint multiply_columns (col nRows nInner : nat) (lhs rhs : Z -> T)
    (lhs_ rhsT outT lhsTensorStride rhsTensorStride outTensorStride : Z)
  : list (Z * T) :=
  match col with
  | O => []
  | S col' =>
      let '(stores, outT') :=
        multiply_rows nRows nRows nInner lhs rhs lhs_ rhsT outT
          lhsTensorStride rhsTensorStride outTensorStride in
      stores ++ multiply_columns col' nRows nInner lhs rhs lhs_
                  (rhsT + nInner * rhsTensorStride)%Z outT'
                  lhsTensorStride rhsTensorStride outTensorStride
  end.

(** Lines 79-102: the loop over the pixels of the line. *)
Fixpoint multiply_pixels (ii nRows nColumns nInner : nat) (lhs rhs : Z -> T)
    (lhs_ rhs_ out_ : Z) (lhsB rhsB outB : ScanBufferStrides) : list (Z * T) :=
  match ii with
  | O => []
  | S ii' =>
      multiply_columns nColumns nRows nInner lhs rhs lhs_ rhs_ out_
        (b_tensorStride lhsB) (b_tensorStride rhsB) (b_tensorStride outB)
      ++ multiply_pixels ii' nRows nColumns nInner lhs rhs
           (lhs_ + b_stride lhsB)%Z (rhs_ + b_stride rhsB)%Z (out_ + b_stride outB)%Z
           lhsB rhsB outB
  end.

(** [MultiplyLineFilter::Filter] (lines 62-103). *)
Definition MultiplyLineFilter (nRows nColumns nInner : nat) (lhs rhs : Z -> T)
    (lhsB rhsB outB : ScanBufferStrides) (bufferLength : nat) : list (Z * T) :=
  multiply_pixels bufferLength nRows nColumns nInner lhs rhs 0 0 0 lhsB rhsB outB.

(** Lines 136-140: [v += *inT * *inT] with the one pointer advancing; the
    sum and the final [inT]. *)
Fixpoint square_inner (jj : nat) (in_ : Z -> T) (inT inTensorStride : Z) (v : T)
  : T * Z :=
  match jj with
  | O => (v, inT)
  | S jj' =>
      square_inner jj' in_ (inT + inTensorStride)%Z inTensorStride (v + in_ inT * in_ inT)
  end.

(** Lines 135-143: the diagonal elements; the stores and the final
    [outT]. *)
Fixpoint symmetric_diagonal (col nInner : nat) (in_ : Z -> T)
    (inT outT inTensorStride outTensorStride : Z) : list (Z * T) * Z :=
  match col with
  | O => ([], outT)
  | S col' =>
      let '(v, inT') := square_inner nInner in_ inT inTensorStride s0 in
      let '(stores, outT') :=
        symmetric_diagonal col' nInner in_ inT'
          (outT + outTensorStride)%Z inTensorStride outTensorStride in
      ((outT, v) :: stores, outT')
  end.

(** Lines 149-161: the loop over [row < col]. *)
Fixpoint symmetric_rows (row nInner : nat) (in_ : Z -> T)
    (lhsT rhsT outT colSkip inTensorStride outTensorStride : Z) : list (Z * T) * Z :=
  match row with
  | O => ([], outT)
  | S row' =>
      let v := multiply_inner nInner in_ in_ lhsT rhsT inTensorStride inTensorStride s0 in
      let '(stores, outT') :=
        symmetric_rows row' nInner in_ (lhsT + colSkip)%Z rhsT (outT + outTensorStride)%Z
          colSkip inTensorStride outTensorStride in
      ((outT, v) :: stores, outT')
  end.

(** Lines 147-163: the loop [for( col = 1; col < nOuter; ++col )], with
    [count] columns left. *)
Fixpoint symmetric_columns (count col nInner : nat) (in_ : Z -> T)
    (in0 rhsT outT colSkip inTensorStride outTensorStride : Z) : list (Z * T) :=
  match count with
  | O => []
  | S count' =>
      let '(stores, outT') :=
        symmetric_rows col nInner in_ in0 rhsT outT colSkip
          inTensorStride outTensorStride in
      stores ++ symmetric_columns count' (S col) nInner in_ in0 (rhsT + colSkip)%Z outT'
                  colSkip inTensorStride outTensorStride
  end.

(** Lines 131-166: the loop over the pixels of the line. *)
Fixpoint symmetric_pixels (ii nOuter nInner : nat) (in_ : Z -> T) (in0 out0 : Z)
    (inB outB : ScanBufferStrides) : list (Z * T) :=
  match ii with
  | O => []
  | S ii' =>
      let '(diagonal, outT) :=
        symmetric_diagonal nOuter nInner in_ in0 out0
          (b_tensorStride inB) (b_tensorStride outB) in
      let colSkip := (nInner * b_tensorStride inB)%Z in
      (diagonal
       ++ symmetric_columns (nOuter - 1) 1 nInner in_ in0 (in0 + colSkip)%Z outT colSkip
            (b_tensorStride inB) (b_tensorStride outB))
      ++ symmetric_pixels ii' nOuter nInner in_
           (in0 + b_stride inB)%Z (out0 + b_stride outB)%Z inB outB
  end.

(** [MultiplySymmetricLineFilter::Filter] (lines 118-167). *)
Definition MultiplySymmetricLineFilter (nOuter nInner : nat) (in_ : Z -> T)
    (inB outB : ScanBufferStrides) (bufferLength : nat) : list (Z * T) :=
  symmetric_pixels bufferLength nOuter nInner in_ 0 0 inB outB.

(** Lines 204-209: the diagonal of the symmetric case; the stores and the
    final [lhsT] and [outT]. *)
Fixpoint diagonal_head (m : nat) (lhs rhs : Z -> T)
    (lhsT rhsT outT lhsTensorStride rhsTensorStride outTensorStride : Z)
  : list (Z * T) * (Z * Z) :=
  match m with
  | O => ([], (lhsT, outT))
  | S m' =>
      let '(stores, ptrs) :=
        diagonal_head m' lhs rhs (lhsT + lhsTensorStride)%Z (rhsT + rhsTensorStride)%Z
          (outT + outTensorStride)%Z lhsTensorStride rhsTensorStride outTensorStride in
      ((outT, lhs lhsT * rhs rhsT) :: stores, ptrs)
  end.

(** Lines 212-216: the loop over [m < n] of the symmetric case. *)
Fixpoint diagonal_upper_rows (m : nat) (lhs rhs : Z -> T)
    (lhsT rhsT outT lhsTensorStride outTensorStride : Z) : list (Z * T) * (Z * Z) :=
  match m with
  | O => ([], (lhsT, outT))
  | S m' =>
      let '(stores, ptrs) :=
        diagonal_upper_rows m' lhs rhs (lhsT + lhsTensorStride)%Z rhsT
          (outT + outTensorStride)%Z lhsTensorStride outTensorStride in
      ((outT, lhs lhsT * rhs rhsT) :: stores, ptrs)
  end.

(** Lines 211-218: the loop [for( n = 1; n < N; ++n )] of the symmetric
    case, with [count] columns left. *)
Fixpoint diagonal_upper (count n : nat) (lhs rhs : Z -> T)
    (lhsT rhsT outT lhsTensorStride rhsTensorStride outTensorStride : Z)
  : list (Z * T) :=
  match count with
  | O => []
  | S count' =>
      let '(stores, (lhsT', outT')) :=
        diagonal_upper_rows n lhs rhs lhsT rhsT outT lhsTensorStride outTensorStride in
      stores ++ diagonal_upper count' (S n) lhs rhs lhsT' (rhsT + rhsTensorStride)%Z outT'
                  lhsTensorStride rhsTensorStride outTensorStride
  end.

(** Lines 200-222: the symmetric case, pixel by pixel. *)
Fixpoint diagonal_symmetric_pixels (ii N : nat) (lhs rhs : Z -> T) (lhs_ rhs_ out_ : Z)
    (lhsB rhsB outB : ScanBufferStrides) : list (Z * T) :=
  match ii with
  | O => []
  | S ii' =>
      let '(head, (lhsT, outT)) :=
        diagonal_head N lhs rhs lhs_ rhs_ out_
          (b_tensorStride lhsB) (b_tensorStride rhsB) (b_tensorStride outB) in
      (head
       ++ diagonal_upper (N - 1) 1 lhs rhs lhsT rhs_ outT
            (b_tensorStride lhsB) (b_tensorStride rhsB) (b_tensorStride outB))
      ++ diagonal_symmetric_pixels ii' N lhs rhs
           (lhs_ + b_stride lhsB)%Z (rhs_ + b_stride rhsB)%Z (out_ + b_stride outB)%Z
           lhsB rhsB outB
  end.

(** Lines 245-249: the loop over [m] of the full case. *)
Fixpoint diagonal_full_rows (m : nat) (lhs rhs : Z -> T)
    (lhsR rhsT outR lhsRowStride outRowStride : Z) : list (Z * T) :=
  match m with
  | O => []
  | S m' =>
      (outR, lhs lhsR * rhs rhsT)
      :: diagonal_full_rows m' lhs rhs (lhsR + lhsRowStride)%Z rhsT
           (outR + outRowStride)%Z lhsRowStride outRowStride
  end.

(** Lines 242-253: the loop over [n] of the full case. *)
Fixpoint diagonal_full_columns (n M : nat) (lhs rhs : Z -> T)
    (lhsC rhsT outC lhsRowStride lhsColStride rhsTensorStride outRowStride outColStride : Z)
  : list (Z * T) :=
  match n with
  | O => []
  | S n' =>
      diagonal_full_rows M lhs rhs lhsC rhsT outC lhsRowStride outRowStride
      ++ diagonal_full_columns n' M lhs rhs (lhsC + lhsColStride)%Z
           (rhsT + rhsTensorStride)%Z (outC + outColStride)%Z
           lhsRowStride lhsColStride rhsTensorStride outRowStride outColStride
  end.

(** Lines 238-257: the full case, pixel by pixel. *)
Fixpoint diagonal_full_pixels (ii N M : nat) (lhs rhs : Z -> T) (lhs_ rhs_ out_ : Z)
    (lhsRowStride lhsColStride rhsTensorStride outRowStride outColStride : Z)
    (lhsB rhsB outB : ScanBufferStrides) : list (Z * T) :=
  match ii with
  | O => []
  | S ii' =>
      diagonal_full_columns N M lhs rhs lhs_ rhs_ out_
        lhsRowStride lhsColStride rhsTensorStride outRowStride outColStride
      ++ diagonal_full_pixels ii' N M lhs rhs
           (lhs_ + b_stride lhsB)%Z (rhs_ + b_stride rhsB)%Z (out_ + b_stride outB)%Z
           lhsRowStride lhsColStride rhsTensorStride outRowStride outColStride
           lhsB rhsB outB
  end.

(** [MultiplyDiagonalLineFilter::Filter] (lines 181-259).  Of [lhsTensor_]
    the function reads [Columns()], [Rows()], [IsSymmetric()] and
    [HasNormalOrder()]: they are the arguments [N], [M], [isSymmetric] and
    [hasNormalOrder]. *)
Definition MultiplyDiagonalLineFilter (N M : nat)
    (isSymmetric hasNormalOrder transposeOutput : bool) (lhs rhs : Z -> T)
    (lhsB rhsB outB : ScanBufferStrides) (bufferLength : nat) : list (Z * T) :=
  if isSymmetric then
    diagonal_symmetric_pixels bufferLength N lhs rhs 0 0 0 lhsB rhsB outB
  else
    let lhsRowStride := if hasNormalOrder then b_tensorStride lhsB
                        else (b_tensorStride lhsB * N)%Z in
    let lhsColStride := if hasNormalOrder then (b_tensorStride lhsB * M)%Z
                        else b_tensorStride lhsB in
    let outRowStride := if transposeOutput then (b_tensorStride outB * N)%Z
                        else b_tensorStride outB in
    let outColStride := if transposeOutput then b_tensorStride outB
                        else (b_tensorStride outB * M)%Z in
    diagonal_full_pixels bufferLength N M lhs rhs 0 0 0
      lhsRowStride lhsColStride (b_tensorStride rhsB) outRowStride outColStride
      lhsB rhsB outB.

(** *** Matrices, for the statements *)

(** The sum of [g 0 .. g (n - 1)]. *)
Definition sum_n (n : nat) (g : nat -> T) : T :=
  fold_right (fun j acc => g j + acc) s0 (seq 0 n).

(** The product of two matrices given by their entries, with [n] the
    inner size. *)
Definition matrix_product (n : nat) (A B : nat -> nat -> T) (r c : nat) : T :=
  sum_n n (fun j => A r j * B j c).

Definition transpose (A : nat -> nat -> T) (r c : nat) : T := A c r.

(** The matrix stored column by column at offset [base] of a buffer, with
    [nRows] rows and [ts] samples between consecutive elements. *)
Definition column_major (buf : Z -> T) (base ts : Z) (nRows : nat) (r c : nat) : T :=
  buf (base + (r + c * nRows) * ts)%Z.

(** The same with the roles of rows and columns exchanged. *)
Definition row_major (buf : Z -> T) (base ts : Z) (nColumns : nat) (r c : nat) : T :=
  buf (base + (r * nColumns + c) * ts)%Z.

(** The number of elements above the diagonal in the columns before
    column [n]: [n * (n - 1) / 2]. *)
Fixpoint triangle (n : nat) : nat :=
  match n with
  | O => O
  | S k => (k + triangle k)%nat
  end.

End MultiplyLineFilters.

(** Modelled from the spec: further error messages of namespace [E], declared
    in a header that is not under src/; only which error is raised matters. *)
Module EX.
Definition INDEX_OUT_OF_RANGE : string := "Index out of range".
Definition IMAGE_NOT_SCALAR : string := "Image is not scalar".
Definition DATA_TYPE_NOT_SUPPORTED : string := "Data type not supported".
Definition NOT_IMPLEMENTED : string := "Functionality has not (yet) been implemented".
End EX.

(** ** The Python bindings of the viewer: pydip/src/viewer/viewer.cpp *)

(** [toString] (lines 23-26): [options] is an array of [n] strings. *)
Definition toString (idx : Z) (options : list string) (n : Z) : result string :=
  throw_if (n <=? idx) EX.INDEX_OUT_OF_RANGE
    (Ok (nth (Z.to_nat idx) options EmptyString)).

(** The loop of [toIndex] (lines 29-33), with [count] entries left from
    [idx] on; [DIP_THROW_INVALID_FLAG] when none matches. *)
Fixpoint toIndex_from (str : string) (options : list string) (idx : Z) (count : nat)
  : result Z :=
  match count with
  | O => Throw E.INVALID_FLAG
  | S count' =>
      if (nth (Z.to_nat idx) options EmptyString =? str)%string then Ok idx
      else toIndex_from str options (idx + 1) count'
  end.

(** [toIndex] (lines 28-36). *)
Definition toIndex (str : string) (options : list string) (n : Z) : result Z :=
  toIndex_from str options 0 (Z.to_nat n).

(** Lines 140 and 150: the names of the mappings and of the lookup tables. *)
Definition mappings : list string :=
  ["unit"; "angle"; "8bit"; "lin"; "base"; "log"]%string.
Definition luts : list string :=
  ["original"; "ternary"; "grey"; "sequential"; "divergent"; "periodic"; "labels"]%string.

(** The setter and the getter of the property "mapping" (lines 141-147) and
    of the property "lut" (lines 151-156) on the stored enumeration value. *)
Definition set_mapping (mapping : string) : result Z := toIndex mapping mappings 6.
Definition get_mapping (mapping_ : Z) : result string := toString mapping_ mappings 6.
Definition set_lut (lut : string) : result Z := toIndex lut luts 7.
Definition get_lut (lut_ : Z) : result string := toString lut_ luts 7.

(** Lines 68-74: the loop over [idx] of the setter of "dims", with [count]
    entries left: an entry other than -1 may not repeat an earlier one. *)
Fixpoint copy_dims (dims : list Z) (count idx : nat) (newdims : list Z)
  : result (list Z) :=
  match count with
  | O => Ok newdims
  | S count' =>
      throw_if
        (existsb (fun idx2 => negb (nth idx2 dims 0 =? -1)
                              && (nth idx2 dims 0 =? nth idx dims 0))
           (seq 0 idx))
        EX.INDEX_OUT_OF_RANGE
        (copy_dims dims count' (S idx) (Scan.set_nth idx (nth idx dims 0) newdims))
  end.

(** The setter of the property "dims" (lines 61-79), for an image of
    [nDims] dimensions: the array stored in [options().dims_]. *)
Definition set_dims (nDims : Z) (dims : list Z) : result (list Z) :=
  throw_if (4 <? List.length dims)%nat E.ARRAY_PARAMETER_WRONG_LENGTH (
  throw_if (existsb (fun d => d <? -1) dims || existsb (fun d => nDims <=? d) dims)
    EX.INDEX_OUT_OF_RANGE (
  newdims <- copy_dims dims (List.length dims) 0 (repeat (-1) 4) ;;
  Ok (if (List.length dims =? 3)%nat then Scan.set_nth 3 (nth 2 dims 0) newdims
      else newdims))).

(** Lines 162-170 of [Show]: the dimensions shown for an image of [nDims]
    dimensions when the dimensions are not reversed by the bindings. *)
Definition show_dims (nDims : nat) : list Z :=
  match nDims with
  | 0%nat => [-1; -1; -1; -1]
  | 1%nat => [0; -1; -1; -1]
  | 2%nat => [1; 0; -1; -1]
  | _ => [2; 1; 0; 0]
  end.

(** Lines 173-175: [while( labels.size() < nDims ) labels.append( labels )].
    The loop does not end on an empty string; [fuel] bounds the number of
    rounds. *)
Fixpoint extend_labels (fuel : nat) (labels : list ascii) (nDims : nat)
  : option (list ascii) :=
  if (List.length labels <? nDims)%nat then
    match fuel with
    | O => None
    | S fuel' => extend_labels fuel' (labels ++ labels) nDims
    end
  else Some labels.

(** Line 176: [std::reverse( labels.begin(), labels.begin() + nDims )]. *)
Definition reverse_labels (labels : list ascii) (nDims : nat) : list ascii :=
  rev (firstn nDims labels) ++ skipn nDims labels.

(** [l] is [labels] repeated a whole number of times. *)
Definition cyclic (labels l : list ascii) : Prop :=
  (exists k, List.length l = (k * List.length labels)%nat)
  /\ forall i d, (i < List.length l)%nat ->
                 nth i l d = nth (i mod List.length labels) labels d.

(** Lines 160-178 of [Show]: what becomes of [dims_] and [labels_]. *)
Definition Show_options (reverseDimensions : bool) (fuel nDims : nat)
    (dims : list Z) (labels : list ascii) : option (list Z * list ascii) :=
  if negb reverseDimensions then
    match extend_labels fuel labels nDims with
    | Some l => Some (show_dims nDims, reverse_labels l nDims)
    | None => None
    end
  else Some (dims, labels).

(** ** Deconvolution: the options and the functions that are not written yet *)

(** The library functions that the deconvolution functions call and that are
    not under src/. *)
Class DeconvolutionLibrary (T : Type) : Type := {
  (** the optical transfer function of a point spread function, for the
      given image sizes *)
  GetOTF : Image T -> list Z -> bool -> result (Image T);
  (** the Fourier transform with the given options *)
  FourierTransform : Image T -> list string -> result (Image T);
}.

(** The loop over the options of [IterativeConstrainedTikhonovMiller]
    (src/deconvolution/ictm.cpp, lines 54-64): [(isOtf, simple)]. *)
Fixpoint ictm_options (options : list string) (isOtf simple : bool)
  : result (bool * bool) :=
  match options with
  | [] => Ok (isOtf, simple)
  | opt :: options' =>
      if (opt =? "OTF")%string then ictm_options options' true simple
      else if (opt =? "simple")%string then ictm_options options' isOtf true
      else Throw E.INVALID_FLAG
  end.

(** The loop of [ParseRichardsonLucyOptions]. *)
Fixpoint rl_options (options : list string) (isOtf : bool) : result bool :=
  match options with
  | [] => Ok isOtf
  | opt :: options' =>
      if (opt =? "OTF")%string then rl_options options' true
      else Throw E.INVALID_FLAG
  end.

(** [ParseRichardsonLucyOptions]. *)
Definition ParseRichardsonLucyOptions (options : list string) : result bool :=
  rl_options options false.

Section Deconvolution.
Context {T : Type} {ST : Sample T} {DL : DeconvolutionLibrary T}.

(** Modelled from the spec: [Image::IsScalar] is not under src/; an image is
    scalar when it has one tensor element. *)
Definition IsScalar (img : Image T) : bool := tensorElements img =? 1.

(** The checks that the three deconvolution functions start with. *)
Definition deconvolution_checks {A : Type} (in_ psf : Image T) (k : result A)
  : result A :=
  throw_if (negb (forged in_) || negb (forged psf)) E.IMAGE_NOT_FORGED (
  throw_if (negb (IsScalar in_) || negb (IsScalar psf)) EX.IMAGE_NOT_SCALAR (
  throw_if (negb (DataTypes.IsReal (dataType in_))) EX.DATA_TYPE_NOT_SUPPORTED k)).

(** [RichardsonLucy]. *)
Definition RichardsonLucy (in_ psf : Image T) (maxIterations : Z)
    (options : list string) : result (Image T) :=
  deconvolution_checks in_ psf (
  isOtf <- ParseRichardsonLucyOptions options ;;
  H <- GetOTF psf (sizes in_) isOtf ;;
  G <- FourierTransform in_ [] ;;
  Throw EX.NOT_IMPLEMENTED).

(** [RichardsonLucyTotalVariation]. *)
Definition RichardsonLucyTotalVariation (in_ psf : Image T) (maxIterations : Z)
    (regularization : float) (options : list string) : result (Image T) :=
  deconvolution_checks in_ psf (
  isOtf <- ParseRichardsonLucyOptions options ;;
  H <- GetOTF psf (sizes in_) isOtf ;;
  G <- FourierTransform in_ [] ;;
  Throw EX.NOT_IMPLEMENTED).

End Deconvolution.

(** ** [Polygon::Area] (the polygon code that follows arithmetic.cpp)

    The coordinates are samples of the exact ring; [CrossProduct] is
    declared in a header that is not under src/ and is an argument, and so
    is the division by [2.0], [half]. *)

Section Polygon.
Context {T : Type} {ST : Sample T} {Vertex : Type}.
Context (CrossProduct : Vertex -> Vertex -> T) (half : T -> T).

(** The loop [for( ii = 1; ii < vertices.size(); ++ii )] of [Area]:
    [sum += CrossProduct( vertices[ ii - 1 ], vertices[ ii ] )]. *)
Fixpoint area_loop (vertices : list Vertex) (sum : T) : T :=
  match vertices with
  | a :: (b :: _) as rest => area_loop rest (sadd sum (CrossProduct a b))
  | _ => sum
  end.

(** [Polygon::Area]. *)
Definition Area (vertices : list Vertex) : T :=
  if (List.length vertices <? 3)%nat then s0
  else
    match vertices with
    | [] => s0
    | v0 :: _ => half (area_loop vertices (CrossProduct (last vertices v0) v0))
    end.

End Polygon.

(** ** Complex samples with integer parts

    The pair [(re, im)] stands for [re + i * im]: a complex sample type, for
    running the embedding on complex filters. *)
Definition gauss_add (u v : Z * Z) : Z * Z := (fst u + fst v, snd u + snd v).
Definition gauss_mul (u v : Z * Z) : Z * Z :=
  (fst u * fst v - snd u * snd v, fst u * snd v + snd u * fst v).
Definition gauss_sub (u v : Z * Z) : Z * Z := (fst u - fst v, snd u - snd v).
Definition gauss_opp (u : Z * Z) : Z * Z := (- fst u, - snd u).
Definition gauss_conj (u : Z * Z) : Z * Z := (fst u, - snd u).
Definition gauss_eqb (u v : Z * Z) : bool := (fst u =? fst v) && (snd u =? snd v).

#[export] Instance Gauss_Sample : Sample (Z * Z).
Proof.
  refine {| s0 := (0, 0); s1 := (1, 0);
            sadd := gauss_add; smul := gauss_mul; ssub := gauss_sub; sopp := gauss_opp;
            conjugate := gauss_conj; seqb := gauss_eqb;
            cplx := fun re im => gauss_add re (gauss_mul (0, 1) im);
            sample_ring := _; seqb_eq := _; cplx_real := _ |}.
  - constructor; intros; repeat match goal with u : (Z * Z)%type |- _ => destruct u end;
      unfold gauss_add, gauss_mul, gauss_sub, gauss_opp; cbn [fst snd];
      f_equal; ring.
  - intros [a b] [c d]. unfold gauss_eqb. cbn [fst snd]. split.
    + intros H. apply andb_prop in H. destruct H as [H1 H2].
      apply Z.eqb_eq in H1, H2. subst. reflexivity.
    + intros H. inversion H. rewrite !Z.eqb_refl. reflexivity.
  - intros [a b]. unfold gauss_add, gauss_mul. cbn [fst snd]. f_equal; ring.
Defined.

(** The integers [v] as real values of the complex sample type. *)
Definition reals (v : list Z) : list (Z * Z) := map (fun x => (x, 0)) v.

(** * Properties *)

(** ** Unsigned arithmetic *)

Lemma uint_small (z : Z) : 0 <= z < uint_modulus -> uint z = z.
Proof. intros H. unfold uint. apply Z.mod_small. exact H. Qed.

Lemma uint_modulus_eq : uint_modulus = 18446744073709551616.
Proof. reflexivity. Qed.

Lemma vector_max_size_eq : vector_max_size = 1152921504606846975.
Proof. reflexivity. Qed.

Lemma size_folded (k : Z) :
  1 <= k <= vector_max_size -> uint (k + uint (k - 1)) = 2 * k - 1.
Proof.
  rewrite vector_max_size_eq. intros H.
  rewrite (uint_small (k - 1)) by (rewrite uint_modulus_eq; lia).
  rewrite uint_small by (rewrite uint_modulus_eq; lia). lia.
Qed.

Lemma size_doubled (k : Z) :
  0 <= k <= vector_max_size -> uint (k + k) = 2 * k.
Proof.
  rewrite vector_max_size_eq. intros H.
  rewrite uint_small by (rewrite uint_modulus_eq; lia). lia.
Qed.

(** [size - origin - 1] does not wrap when the origin lies in the filter. *)
Lemma reversed_origin (size o : Z) :
  0 <= o < size -> size < uint_modulus -> uint (uint (size - o) - 1) = size - o - 1.
Proof.
  intros H Hs.
  rewrite (uint_small (size - o)) by lia.
  rewrite uint_small by lia. reflexivity.
Qed.

(** ** The algebra of the line filter *)

Section FilterFacts.
Context {T : Type} {ST : Sample T}.
Local Open Scope sample_scope.

Add Ring sample_ring_inst : (@sample_ring T ST).

Lemma mac_general_dot (f : list T) (inp : Z -> T) (q : Z) (acc : T) :
  mac_general f inp q acc = acc + dot f inp q.
Proof.
  revert q acc. induction f as [|w f IH]; intros q acc; simpl.
  - ring.
  - rewrite IH. ring.
Qed.

Lemma mac_folded_even (f : list T) (inp : Z -> T) (r l : Z) (acc : T) :
  mac_folded term_even f inp r l acc = acc + (dot f inp r + rdot f inp l).
Proof.
  revert r l acc. induction f as [|w f IH]; intros r l acc; simpl.
  - ring.
  - rewrite IH. unfold term_even. ring.
Qed.

Lemma mac_folded_odd (f : list T) (inp : Z -> T) (r l : Z) (acc : T) :
  mac_folded term_odd f inp r l acc = acc + (dot f inp r - rdot f inp l).
Proof.
  revert r l acc. induction f as [|w f IH]; intros r l acc; simpl.
  - ring.
  - rewrite IH. unfold term_odd. ring.
Qed.

Lemma dot_app (f g : list T) (inp : Z -> T) (q : Z) :
  dot (f ++ g) inp q = dot f inp q + dot g inp (q + Z.of_nat (List.length f))%Z.
Proof.
  revert q. induction f as [|w f IH]; intros q.
  - cbn [app dot List.length]. replace (q + Z.of_nat 0)%Z with q by lia. ring.
  - cbn [app dot List.length]. rewrite IH.
    replace (q + 1 + Z.of_nat (List.length f))%Z
      with (q + Z.of_nat (S (List.length f)))%Z by lia.
    ring.
Qed.

Lemma dot_rev (f : list T) (inp : Z -> T) (q : Z) :
  dot (rev f) inp (q - Z.of_nat (List.length f))%Z = rdot f inp (q - 1)%Z.
Proof.
  revert q. induction f as [|w f IH]; intros q; cbn [rev List.length].
  - reflexivity.
  - rewrite dot_app, length_rev. cbn [dot rdot].
    replace (q - Z.of_nat (S (List.length f)))%Z
      with ((q - 1) - Z.of_nat (List.length f))%Z by lia.
    rewrite IH.
    replace (q - 1 - Z.of_nat (List.length f) + Z.of_nat (List.length f))%Z
      with (q - 1)%Z by lia.
    ring.
Qed.

Lemma dot_map_opp (f : list T) (inp : Z -> T) (q : Z) :
  dot (map sopp f) inp q = - dot f inp q.
Proof.
  revert q. induction f as [|w f IH]; intros q; simpl.
  - ring.
  - rewrite IH. ring.
Qed.

End FilterFacts.

Section SymmetryFacts.
Context {T : Type} {ST : Sample T}.
Local Open Scope sample_scope.

Add Ring sample_ring_sym : (@sample_ring T ST).

(** GENERAL over [rev b ++ c :: b] is EVEN over [c :: b], one centre tap and
    the taps [b] folded around it. *)
Lemma even_core (b : list T) (c : T) (inp : Z -> T) (p : Z) :
  line_sample GENERAL (rev b ++ c :: b) inp (p - Z.of_nat (List.length b))
  = line_sample EVEN (c :: b) inp p.
Proof.
  cbn [line_sample hd tl].
  rewrite mac_general_dot, mac_folded_even, dot_app, dot_rev, length_rev.
  cbn [dot].
  replace (p - Z.of_nat (List.length b) + Z.of_nat (List.length b))%Z with p by lia.
  ring.
Qed.

Lemma odd_core (b : list T) (c : T) (inp : Z -> T) (p : Z) :
  line_sample GENERAL (map sopp (rev b) ++ c :: b) inp (p - Z.of_nat (List.length b))
  = line_sample ODD (c :: b) inp p.
Proof.
  cbn [line_sample hd tl].
  rewrite mac_general_dot, mac_folded_odd, dot_app, dot_map_opp, dot_rev.
  rewrite length_map, length_rev.
  cbn [dot].
  replace (p - Z.of_nat (List.length b) + Z.of_nat (List.length b))%Z with p by lia.
  ring.
Qed.

(** GENERAL over [rev f ++ f] is D_EVEN over [f] with the pointer [|f|]
    places further; the source advances it by [|f| - 1]. *)
Lemma d_even_core (f : list T) (inp : Z -> T) (p : Z) :
  line_sample GENERAL (rev f ++ f) inp (p - Z.of_nat (List.length f))
  = line_sample D_EVEN f inp p.
Proof.
  cbn [line_sample].
  rewrite mac_general_dot, mac_folded_even, dot_app, dot_rev, length_rev.
  replace (p - Z.of_nat (List.length f) + Z.of_nat (List.length f))%Z with p by lia.
  ring.
Qed.

Lemma d_odd_core (f : list T) (inp : Z -> T) (p : Z) :
  line_sample GENERAL (map sopp (rev f) ++ f) inp (p - Z.of_nat (List.length f))
  = line_sample D_ODD f inp p.
Proof.
  cbn [line_sample].
  rewrite mac_general_dot, mac_folded_odd, dot_app, dot_map_opp, dot_rev.
  rewrite length_map, length_rev.
  replace (p - Z.of_nat (List.length f) + Z.of_nat (List.length f))%Z with p by lia.
  ring.
Qed.

Lemma line_loop_ext (s1' s2' : FilterSymmetry) (f1 f2 : list T) (inp1 inp2 : Z -> T)
    (d : Z) (q : Z) (n : nat) :
  (forall p, line_sample s1' f1 inp1 p = line_sample s2' f2 inp2 (p + d)%Z) ->
  line_loop s1' f1 inp1 q n = line_loop s2' f2 inp2 (q + d)%Z n.
Proof.
  intros H. revert q. induction n as [|n IH]; intros q; cbn [line_loop].
  - reflexivity.
  - rewrite H, IH. do 2 f_equal. lia.
Qed.

End SymmetryFacts.

Section InternFacts.
Context {T : Type} {ST : Sample T}.

Lemma CopyReverseData_all (l : list T) :
  CopyReverseData l (Z.of_nat (List.length l)) = rev l.
Proof. unfold CopyReverseData. rewrite Nat2Z.id, firstn_all. reflexivity. Qed.

(** The constructor on a real filter with at least one tap. *)
Lemma mkIntern_real (values : list T) (sym : string) (o : Z) (ud uc : bool) :
  values <> [] ->
  mkInternOneDimensionalFilter (real_filter values sym o) ud uc
  = (ss <- parse_symmetry sym uc (Z.of_nat (List.length values)) ;;
     o' <- resolve_origin o (snd ss) ;;
     Ok {| i_filter := rev values; i_size := snd ss;
           i_dataSize := Z.of_nat (List.length values);
           i_origin := uint (uint (snd ss - o') - 1);
           i_isDouble := ud; i_isComplex := uc; i_symmetry := fst ss |}).
Proof.
  intros Hne. unfold mkInternOneDimensionalFilter, stored_size, real_filter.
  cbn [isComplex filter symmetry origin bind].
  destruct (Z.eqb_spec (Z.of_nat (List.length values)) 0) as [E|E].
  - destruct values; [congruence | cbn in E; lia].
  - destruct (parse_symmetry sym uc (Z.of_nat (List.length values))) as [[s z]|m];
      cbn [bind fst snd]; [|reflexivity].
    destruct (resolve_origin o z); cbn [bind]; [|reflexivity].
    rewrite CopyReverseData_all. reflexivity.
Qed.

Lemma mkIntern_empty (sym : string) (o : Z) (ud uc : bool) :
  mkInternOneDimensionalFilter (real_filter [] sym o) ud uc
  = Ok {| i_filter := []; i_size := 0; i_dataSize := 0; i_origin := 0;
          i_isDouble := ud; i_isComplex := uc; i_symmetry := GENERAL |}.
Proof. reflexivity. Qed.

Lemma same_result_refl {A : Type} (R : A -> A -> Prop) (r : result A) :
  (forall a, R a a) -> same_result R r r.
Proof. intros H. destruct r; cbn; auto. Qed.

Lemma same_filter_refl (f : InternOneDimensionalFilter T) : same_filter f f.
Proof. repeat split. Qed.

Lemma length_full_even (h : list T) :
  h <> [] -> Z.of_nat (List.length (full_even h)) = 2 * Z.of_nat (List.length h) - 1.
Proof.
  intros Hne. unfold full_even. rewrite length_app.
  destruct (rev h) as [|c b] eqn:E.
  - apply (f_equal (@rev T)) in E. rewrite rev_involutive in E. cbn in E. congruence.
  - apply (f_equal (@List.length T)) in E. rewrite length_rev in E. cbn in E.
    cbn [tl]. lia.
Qed.

Lemma length_full_odd (h : list T) :
  h <> [] -> Z.of_nat (List.length (full_odd h)) = 2 * Z.of_nat (List.length h) - 1.
Proof.
  intros Hne. rewrite <- (length_full_even h Hne). unfold full_odd, full_even.
  rewrite !length_app, length_map. reflexivity.
Qed.

Lemma length_full_d_even (h : list T) :
  Z.of_nat (List.length (full_d_even h)) = 2 * Z.of_nat (List.length h).
Proof. unfold full_d_even. rewrite length_app, length_rev. lia. Qed.

Lemma length_full_d_odd (h : list T) :
  Z.of_nat (List.length (full_d_odd h)) = 2 * Z.of_nat (List.length h).
Proof. unfold full_d_odd. rewrite length_app, length_map, length_rev. lia. Qed.

Lemma rev_snoc (b : list T) (c : T) : rev (rev b ++ [c]) = c :: b.
Proof. rewrite rev_app_distr, rev_involutive. reflexivity. Qed.

Lemma rev_full_even (b : list T) (c : T) :
  rev (full_even (rev b ++ [c])) = rev b ++ c :: b.
Proof.
  unfold full_even. rewrite rev_snoc. cbn [tl].
  rewrite rev_app_distr, rev_snoc. reflexivity.
Qed.

Lemma rev_full_odd (b : list T) (c : T) :
  rev (full_odd (rev b ++ [c])) = map sopp (rev b) ++ c :: b.
Proof.
  unfold full_odd. rewrite rev_snoc. cbn [tl].
  rewrite rev_app_distr, rev_snoc, map_rev. reflexivity.
Qed.

Lemma rev_full_d_even (h : list T) :
  rev (full_d_even h) = rev (rev h) ++ rev h.
Proof. unfold full_d_even. rewrite rev_app_distr. reflexivity. Qed.

Lemma rev_full_d_odd (h : list T) :
  rev (full_d_odd h) = map sopp (rev (rev h)) ++ rev h.
Proof.
  unfold full_d_odd. rewrite rev_app_distr, <- map_rev. reflexivity.
Qed.

End InternFacts.

Section SymmetryTheorems.
Context {T : Type} {ST : Sample T}.

Lemma snoc_cases (h : list T) : h = [] \/ exists b c, h = rev b ++ [c].
Proof.
  destruct (rev h) as [|c b] eqn:E.
  - left. apply (f_equal (@rev T)) in E. rewrite rev_involutive in E. exact E.
  - right. exists b, c. apply (f_equal (@rev T)) in E.
    rewrite rev_involutive in E. exact E.
Qed.

Lemma parse_general (uc : bool) (n : Z) :
  parse_symmetry "general" uc n = Ok (GENERAL, n).
Proof. reflexivity. Qed.

Lemma parse_even (uc : bool) (n : Z) :
  parse_symmetry "even" uc n = Ok (EVEN, uint (n + uint (n - 1))).
Proof. reflexivity. Qed.

Lemma parse_odd (uc : bool) (n : Z) :
  parse_symmetry "odd" uc n = Ok (ODD, uint (n + uint (n - 1))).
Proof. reflexivity. Qed.

Lemma parse_d_even (uc : bool) (n : Z) :
  parse_symmetry "d-even" uc n = Ok (D_EVEN, uint (n + n)).
Proof. reflexivity. Qed.

Lemma parse_d_odd (uc : bool) (n : Z) :
  parse_symmetry "d-odd" uc n = Ok (D_ODD, uint (n + n)).
Proof. reflexivity. Qed.

Lemma IsMeaningless_folded (b : list T) (c : T) (l : list T) (sz n o : Z)
    (ud uc : bool) (s1' s2' : FilterSymmetry) :
  List.length l = List.length b ->
  sz = 2 * Z.of_nat (List.length b) + 1 ->
  IsMeaninglessFilter
    {| i_filter := l ++ c :: b; i_size := sz; i_dataSize := n; i_origin := o;
       i_isDouble := ud; i_isComplex := uc; i_symmetry := s1' |}
  = IsMeaninglessFilter
      {| i_filter := c :: b; i_size := sz; i_dataSize := Z.of_nat (S (List.length b));
         i_origin := o; i_isDouble := ud; i_isComplex := uc; i_symmetry := s2' |}.
Proof.
  intros Hl Hsz. unfold IsMeaninglessFilter. cbn [i_size i_filter].
  destruct b as [|x b].
  - destruct l; [reflexivity | discriminate].
  - cbn [List.length] in Hsz.
    replace (sz =? 0) with false by (symmetry; apply Z.eqb_neq; lia).
    replace (sz =? 1) with false by (symmetry; apply Z.eqb_neq; lia).
    reflexivity.
Qed.

(** The folded filter over the stored half and the plain filter over the
    full taps compute the same line, for "even" and for "odd". *)
Lemma folded_same_filter (full : list T -> list T) (tag : string)
    (sym : FilterSymmetry) (left : list T -> list T)
    (h : list T) (o : Z) (ud uc : bool) :
  (forall n, parse_symmetry tag uc n = Ok (sym, uint (n + uint (n - 1)))) ->
  (forall b, List.length (left b) = List.length b) ->
  full [] = [] ->
  (forall b c, rev (full (rev b ++ [c])) = left b ++ c :: b) ->
  (forall b c inp p,
      line_sample GENERAL (left b ++ c :: b) inp (p - Z.of_nat (List.length b))
      = line_sample sym (c :: b) inp p) ->
  sym <> GENERAL ->
  Z.of_nat (List.length h) <= vector_max_size ->
  same_result same_filter
    (mkInternOneDimensionalFilter (real_filter (full h) "general" o) ud uc)
    (mkInternOneDimensionalFilter (real_filter h tag o) ud uc).
Proof.
  intros Hparse Hleft Hnil Hrev Hcore Hsym Hlen.
  destruct (snoc_cases h) as [->|(b & c & ->)].
  - rewrite Hnil, !mkIntern_empty. cbn. apply same_filter_refl.
  - assert (Hfl : Z.of_nat (List.length (full (rev b ++ [c])))
                  = 2 * Z.of_nat (List.length b) + 1).
    { rewrite <- (length_rev (full _)), Hrev, length_app, Hleft. cbn [List.length]. lia. }
    rewrite length_app, length_rev in Hlen. cbn [List.length] in Hlen.
    rewrite !mkIntern_real.
    2:{ destruct (rev b); discriminate. }
    2:{ intros E. rewrite E in Hfl. cbn [List.length] in Hfl. lia. }
    rewrite parse_general, Hparse. cbn [bind fst snd].
    rewrite Hfl, Hrev, rev_snoc.
    rewrite length_app, length_rev. cbn [List.length].
    replace (Z.of_nat (List.length b + 1)) with (Z.of_nat (List.length b) + 1) in * by lia.
    rewrite size_folded by lia.
    replace (2 * (Z.of_nat (List.length b) + 1) - 1)
      with (2 * Z.of_nat (List.length b) + 1) by lia.
    destruct (resolve_origin o (2 * Z.of_nat (List.length b) + 1)) as [o'|m];
      cbn [bind same_result]; [|reflexivity].
    split; [reflexivity|]. split; [reflexivity|]. split.
    + replace (Z.of_nat (List.length b) + 1) with (Z.of_nat (S (List.length b))) by lia.
      apply IsMeaningless_folded; [apply Hleft | reflexivity].
    + intros inp n. unfold Filter. cbn [i_origin i_symmetry i_dataSize i_filter].
      destruct sym; try congruence;
        match goal with
        | |- _ = line_loop ?s ?f _ _ _ =>
            etransitivity;
            [ apply (line_loop_ext GENERAL s _ f inp inp (Z.of_nat (List.length b)));
              intros p; rewrite <- Hcore; f_equal; lia
            | f_equal; lia ]
        end.
Qed.

(** "even": the stored half [h] against the full taps [full_even h]. *)
Lemma even_same_filter (h : list T) (o : Z) (ud uc : bool) :
  Z.of_nat (List.length h) <= vector_max_size ->
  same_result same_filter
    (mkInternOneDimensionalFilter (real_filter (full_even h) "general" o) ud uc)
    (mkInternOneDimensionalFilter (real_filter h "even" o) ud uc).
Proof.
  apply (folded_same_filter full_even "even" EVEN (@rev T)).
  - apply parse_even.
  - apply length_rev.
  - reflexivity.
  - apply rev_full_even.
  - apply even_core.
  - discriminate.
Qed.

(** "odd": the stored half [h] against the full taps [full_odd h]. *)
Lemma odd_same_filter (h : list T) (o : Z) (ud uc : bool) :
  Z.of_nat (List.length h) <= vector_max_size ->
  same_result same_filter
    (mkInternOneDimensionalFilter (real_filter (full_odd h) "general" o) ud uc)
    (mkInternOneDimensionalFilter (real_filter h "odd" o) ud uc).
Proof.
  apply (folded_same_filter full_odd "odd" ODD (fun b => map sopp (rev b))).
  - apply parse_odd.
  - intros b. rewrite length_map, length_rev. reflexivity.
  - reflexivity.
  - apply rev_full_odd.
  - apply odd_core.
  - discriminate.
Qed.

Lemma dot_shift (f : list T) (inp : Z -> T) (d q : Z) :
  dot f (fun k => inp (k + d)) q = dot f inp (q + d).
Proof.
  revert q. induction f as [|w f IH]; intros q; cbn [dot].
  - reflexivity.
  - rewrite IH. replace (q + 1 + d) with (q + d + 1) by lia. reflexivity.
Qed.

Lemma line_sample_general_shift (f : list T) (inp : Z -> T) (d p : Z) :
  line_sample GENERAL f (fun k => inp (k + d)) p = line_sample GENERAL f inp (p + d).
Proof. cbn [line_sample]. rewrite !mac_general_dot, dot_shift. reflexivity. Qed.

Lemma doubled_shifted_filter (full : list T -> list T) (tag : string)
    (sym : FilterSymmetry) (left : list T -> list T)
    (h : list T) (o : Z) (ud uc : bool) :
  (forall n, parse_symmetry tag uc n = Ok (sym, uint (n + n))) ->
  (forall f, List.length (left f) = List.length f) ->
  (forall h, rev (full h) = left (rev h) ++ rev h) ->
  (forall f inp p,
      line_sample GENERAL (left f ++ f) inp (p - Z.of_nat (List.length f))
      = line_sample sym f inp p) ->
  sym <> GENERAL ->
  h <> [] ->
  Z.of_nat (List.length h) <= vector_max_size ->
  same_result shifted_filter
    (mkInternOneDimensionalFilter (real_filter (full h) "general" o) ud uc)
    (mkInternOneDimensionalFilter (real_filter h tag o) ud uc).
Proof.
  intros Hparse Hleft Hrev Hcore Hsym Hne Hlen.
  assert (Hfl : Z.of_nat (List.length (full h)) = 2 * Z.of_nat (List.length h)).
  { rewrite <- (length_rev (full _)), Hrev, length_app, Hleft, length_rev. lia. }
  assert (Hpos : 1 <= Z.of_nat (List.length h)).
  { destruct h; [congruence | cbn [List.length]; lia]. }
  rewrite !mkIntern_real; [ | assumption | ].
  2:{ intros E. rewrite E in Hfl. cbn [List.length] in Hfl. lia. }
  rewrite parse_general, Hparse. cbn [bind fst snd].
  rewrite Hfl, Hrev, size_doubled by lia.
  destruct (resolve_origin o (2 * Z.of_nat (List.length h))) as [o'|m];
    cbn [bind same_result]; [|reflexivity].
  split; [reflexivity|]. split; [reflexivity|].
  intros inp n. unfold Filter. cbn [i_origin i_symmetry i_dataSize i_filter].
  symmetry.
  destruct sym; try congruence;
    match goal with
    | |- _ = line_loop ?s ?f _ _ _ =>
        etransitivity;
        [ apply (line_loop_ext GENERAL s _ f _ inp (Z.of_nat (List.length h) - 1));
          intros p; rewrite line_sample_general_shift, <- Hcore, length_rev;
          f_equal; lia
        | f_equal; lia ]
    end.
Qed.

Lemma d_even_shifted_filter (h : list T) (o : Z) (ud uc : bool) :
  h <> [] ->
  Z.of_nat (List.length h) <= vector_max_size ->
  same_result shifted_filter
    (mkInternOneDimensionalFilter (real_filter (full_d_even h) "general" o) ud uc)
    (mkInternOneDimensionalFilter (real_filter h "d-even" o) ud uc).
Proof.
  apply (doubled_shifted_filter full_d_even "d-even" D_EVEN (@rev T)).
  - apply parse_d_even.
  - apply length_rev.
  - apply rev_full_d_even.
  - apply d_even_core.
  - discriminate.
Qed.

Lemma d_odd_shifted_filter (h : list T) (o : Z) (ud uc : bool) :
  h <> [] ->
  Z.of_nat (List.length h) <= vector_max_size ->
  same_result shifted_filter
    (mkInternOneDimensionalFilter (real_filter (full_d_odd h) "general" o) ud uc)
    (mkInternOneDimensionalFilter (real_filter h "d-odd" o) ud uc).
Proof.
  apply (doubled_shifted_filter full_d_odd "d-odd" D_ODD (fun f => map sopp (rev f))).
  - apply parse_d_odd.
  - intros f. rewrite length_map, length_rev. reflexivity.
  - apply rev_full_d_odd.
  - apply d_odd_core.
  - discriminate.
Qed.

End SymmetryTheorems.

(** ** The separable framework *)

Section FrameworkFacts.
Context {T : Type} {ST : Sample T} {LIB : Collaborators T}.

Lemma length_zseq (n : Z) : List.length (zseq n) = Z.to_nat n.
Proof. unfold zseq. rewrite length_map, length_seq. reflexivity. Qed.

Lemma filter_dimension_shape (d : nat) (border : list Z) (bc : list BoundaryCondition)
    (lf : nat -> (Z -> T) -> nat -> list T) (img : Image T) :
  sizes (filter_dimension d border bc lf img) = sizes img
  /\ tensorElements (filter_dimension d border bc lf img) = tensorElements img
  /\ List.length (data (filter_dimension d border bc lf img)) = List.length (data img).
Proof.
  unfold filter_dimension. cbn [sizes tensorElements data].
  rewrite length_map, length_zseq, Nat2Z.id. auto.
Qed.

Lemma separable_pass_shape (dims : list nat) (process : list bool) (border : list Z)
    (bc : list BoundaryCondition) (lf : nat -> (Z -> T) -> nat -> list T)
    (img : Image T) :
  sizes (separable_pass dims process border bc lf img) = sizes img
  /\ tensorElements (separable_pass dims process border bc lf img) = tensorElements img
  /\ List.length (data (separable_pass dims process border bc lf img))
     = List.length (data img).
Proof.
  revert img. induction dims as [|d dims IH]; intros img; cbn [separable_pass].
  - auto.
  - destruct (nth d process false).
    + destruct (IH (filter_dimension d border bc lf img)) as (H1 & H2 & H3).
      destruct (filter_dimension_shape d border bc lf img) as (G1 & G2 & G3).
      rewrite H1, H2, H3. auto.
    + apply IH.
Qed.

(** A pass depends on the borders and on the line filter of the processed
    dimensions only. *)
Lemma separable_pass_ext (dims : list nat) (process : list bool)
    (border border' : list Z) (bc : list BoundaryCondition)
    (lf lf' : nat -> (Z -> T) -> nat -> list T) (img : Image T) :
  (forall d, In d dims -> nth d process false = true ->
             nth d border 0 = nth d border' 0
             /\ forall inp n, lf d inp n = lf' d inp n) ->
  separable_pass dims process border bc lf img
  = separable_pass dims process border' bc lf' img.
Proof.
  revert img. induction dims as [|d dims IH]; intros img H; cbn [separable_pass].
  - reflexivity.
  - destruct (nth d process false) eqn:P.
    + destruct (H d (or_introl eq_refl) P) as [Hb Hf].
      replace (filter_dimension d border' bc lf' img)
        with (filter_dimension d border bc lf img).
      * apply IH. intros d' Hin. apply H. right. exact Hin.
      * unfold filter_dimension. rewrite Hb. f_equal.
        apply map_ext. intros idx. rewrite Hf. reflexivity.
    + apply IH. intros d' Hin. apply H. right. exact Hin.
Qed.

(** No dimension selected: the pass leaves the image as it is. *)
Lemma separable_pass_none (dims : list nat) (process : list bool) (border : list Z)
    (bc : list BoundaryCondition) (lf : nat -> (Z -> T) -> nat -> list T)
    (img : Image T) :
  (forall d, In d dims -> nth d process false = false) ->
  separable_pass dims process border bc lf img = img.
Proof.
  revert img. induction dims as [|d dims IH]; intros img H; cbn [separable_pass].
  - reflexivity.
  - rewrite (H d (or_introl eq_refl)). apply IH. intros d' Hin. apply H. right. exact Hin.
Qed.

End FrameworkFacts.

Section SeparableCongruence.
Context {T : Type} {ST : Sample T} {LIB : Collaborators T}.

Lemma mapM_same {A B : Type} (R : B -> B -> Prop) (g g' : A -> result B)
    (l l' : list A) :
  Forall2 (fun a a' => same_result R (g a) (g' a')) l l' ->
  same_result (Forall2 R) (mapM g l) (mapM g' l').
Proof.
  induction 1 as [|a a' l l' Ha Hl IH]; cbn [mapM].
  - cbn. constructor.
  - destruct (g a) as [b|m], (g' a') as [b'|m']; cbn in Ha; try contradiction;
      cbn [bind].
    + destruct (mapM g l) as [bs|m], (mapM g' l') as [bs'|m']; cbn in IH;
        try contradiction; cbn.
      * constructor; assumption.
      * exact IH.
    + cbn. exact Ha.
Qed.

Lemma Forall2_nth_same (l l' : list (InternOneDimensionalFilter T)) (ii : nat) :
  Forall2 same_filter l l' ->
  same_filter (nth ii l dummy_filter) (nth ii l' dummy_filter).
Proof.
  intros H. revert ii. induction H as [|a a' l l' Ha Hl IH]; intros ii.
  - destruct ii; apply same_filter_refl.
  - destruct ii; cbn [nth]; [exact Ha | apply IH].
Qed.

Lemma Forall2_hd_same (l l' : list (InternOneDimensionalFilter T)) :
  Forall2 same_filter l l' ->
  same_filter (hd dummy_filter l) (hd dummy_filter l').
Proof. intros H. destruct H; cbn [hd]; [apply same_filter_refl | assumption]. Qed.

Lemma border_of_same (f f' : InternOneDimensionalFilter T) :
  same_filter f f' -> border_of f = border_of f'.
Proof. intros (Hs & Ho & _). unfold border_of. rewrite Hs, Ho. reflexivity. Qed.

Lemma setup_same (in_ : Image T) (fa fa' : list (OneDimensionalFilter T))
    (process : list bool) :
  existsb isComplex fa = existsb isComplex fa' ->
  (forall ud uc,
      Forall2 (fun f f' =>
                 same_result same_filter (mkInternOneDimensionalFilter f ud uc)
                   (mkInternOneDimensionalFilter f' ud uc)) fa fa') ->
  same_result same_setup (SeparableConvolution_setup in_ fa process)
    (SeparableConvolution_setup in_ fa' process).
Proof.
  intros Hc Hf. unfold SeparableConvolution_setup.
  assert (Hlen : List.length fa = List.length fa').
  { apply (Forall2_length (Hf true true)). }
  rewrite <- Hlen, <- Hc.
  unfold throw_if.
  destruct (negb (forged in_)); [reflexivity|].
  destruct (List.length (sizes in_) <? 1)%nat; [reflexivity|].
  destruct (negb (List.length fa =? 1)%nat
            && negb (List.length fa =? List.length (sizes in_))%nat); [reflexivity|].
  set (uc := existsb isComplex fa).
  set (dt := if uc then _ else _).
  pose proof (mapM_same same_filter _ _ fa fa' (Hf (DataTypes.IsDouble dt) uc)) as HM.
  destruct (mapM _ fa) as [fd|m], (mapM _ fa') as [fd'|m']; cbn in HM;
    try contradiction; cbn [bind]; [|exact HM].
  assert (Hl : List.length fd = List.length fd') by (apply (Forall2_length HM)).
  destruct (initial_process _ process) as [pr|m];
    cbn [bind same_result]; [|reflexivity].
  unfold same_setup. cbn [su_dtype su_border su_process su_filterData].
  split; [reflexivity|]. split; [|split; [|exact HM]].
  - rewrite <- Hl. destruct (List.length fd =? 1)%nat.
    + f_equal. apply border_of_same, Forall2_hd_same, HM.
    + apply map_ext. intros ii. apply border_of_same, Forall2_nth_same, HM.
  - unfold update_process. rewrite <- Hl. destruct (List.length fd =? 1)%nat.
    + destruct (Forall2_hd_same _ _ HM) as (_ & _ & -> & _). reflexivity.
    + apply map_ext. intros ii.
      destruct (Forall2_nth_same _ _ ii HM) as (_ & _ & -> & _). reflexivity.
Qed.

(** Filters that act alike give the same image, or the same error. *)
Lemma SeparableConvolution_same (in_ : Image T)
    (fa fa' : list (OneDimensionalFilter T)) (bc : list string) (process : list bool) :
  existsb isComplex fa = existsb isComplex fa' ->
  (forall ud uc,
      Forall2 (fun f f' =>
                 same_result same_filter (mkInternOneDimensionalFilter f ud uc)
                   (mkInternOneDimensionalFilter f' ud uc)) fa fa') ->
  SeparableConvolution in_ fa bc process = SeparableConvolution in_ fa' bc process.
Proof.
  intros Hc Hf. unfold SeparableConvolution.
  pose proof (setup_same in_ fa fa' process Hc Hf) as HS.
  destruct (SeparableConvolution_setup in_ fa process) as [su|m],
           (SeparableConvolution_setup in_ fa' process) as [su'|m'];
    cbn in HS; try contradiction; cbn [bind]; [|congruence].
  destruct HS as (Hd & Hb & Hp & HF).
  destruct (StringArrayToBoundaryConditionArray bc) as [b|m]; cbn [bind]; [|reflexivity].
  unfold Framework_Separable. rewrite Hd, Hb, Hp.
  destruct (negb _); cbn [throw_if]; [reflexivity|].
  rewrite (separable_pass_ext _ _ _ (su_border su') _ _
             (SeparableConvolutionLineFilter (su_filterData su'))).
  - reflexivity.
  - intros d _ _. split; [reflexivity|]. intros inp n.
    unfold SeparableConvolutionLineFilter.
    rewrite <- (Forall2_length HF).
    apply (Forall2_nth_same _ _ _ HF).
Qed.

End SeparableCongruence.

(** ** Sizes, origins and borders *)

Section BorderFacts.
Context {T : Type} {ST : Sample T} {LIB : Collaborators T}.

Lemma parse_symmetry_size (sym : string) (uc : bool) (n size : Z) (s : FilterSymmetry) :
  parse_symmetry sym uc n = Ok (s, size) ->
  1 <= n <= vector_max_size ->
  size = n \/ size = 2 * n - 1 \/ size = 2 * n.
Proof.
  intros H Hn. unfold parse_symmetry in H.
  repeat match type of H with
         | (if ?c then _ else _) = _ => destruct c
         end;
    try discriminate; inversion H; subst;
    rewrite ?size_folded, ?size_doubled by lia; auto.
Qed.

Lemma resolve_origin_range (o size o' : Z) :
  resolve_origin o size = Ok o' -> 1 <= size -> 0 <= o' < size.
Proof.
  unfold resolve_origin, throw_if. intros H Hs.
  destruct (Z.ltb_spec o 0).
  - inversion H; subst. split.
    + apply Z.div_pos; lia.
    + apply Z.div_lt_upper_bound; lia.
  - destruct (Z.leb_spec size o); [discriminate|]. inversion H; subst. lia.
Qed.

Lemma stored_size_bound (f : OneDimensionalFilter T) (uc : bool) (n : Z) :
  stored_size f uc = Ok n ->
  0 <= n <= Z.of_nat (List.length (filter f)).
Proof.
  unfold stored_size, throw_if. intros H.
  destruct (isComplex f).
  - destruct (Z.odd _); [discriminate|]. destruct (negb uc); [discriminate|].
    inversion H; subst. split.
    + apply Z.div_pos; lia.
    + apply Z.div_le_upper_bound; lia.
  - inversion H; subst. lia.
Qed.

(** What the constructor stores: nothing for a filter without taps,
    otherwise the logical size that the symmetry tag implies and the mirrored
    origin [size - o - 1] of the origin [o] that [resolve_origin] returns. *)
Lemma mkIntern_Ok (f : OneDimensionalFilter T) (ud uc : bool)
    (fd : InternOneDimensionalFilter T) :
  mkInternOneDimensionalFilter f ud uc = Ok fd ->
  Z.of_nat (List.length (filter f)) <= vector_max_size ->
  (stored_size f uc = Ok 0 /\ i_size fd = 0 /\ i_origin fd = 0)
  \/ (1 <= i_size fd < uint_modulus
      /\ (exists n, stored_size f uc = Ok n /\ n <> 0
                    /\ parse_symmetry (symmetry f) uc n = Ok (i_symmetry fd, i_size fd))
      /\ exists o, resolve_origin (origin f) (i_size fd) = Ok o
                   /\ 0 <= o < i_size fd
                   /\ i_origin fd = i_size fd - o - 1).
Proof.
  unfold mkInternOneDimensionalFilter. intros H Hlen.
  destruct (stored_size f uc) as [n|m] eqn:En; cbn [bind] in H; [|discriminate].
  pose proof (stored_size_bound _ _ _ En) as Hn.
  destruct (Z.eqb_spec n 0) as [E0|E0].
  - inversion H; subst. left. auto.
  - destruct (parse_symmetry (symmetry f) uc n) as [[s size]|m] eqn:Ep;
      cbn [bind] in H; [|discriminate].
    pose proof (parse_symmetry_size _ _ _ _ _ Ep ltac:(lia)) as Hsz.
    assert (Hs : 1 <= size < uint_modulus).
    { rewrite uint_modulus_eq. rewrite vector_max_size_eq in Hlen. lia. }
    destruct (resolve_origin (origin f) size) as [o|m] eqn:Eo;
      cbn [bind] in H; [|discriminate].
    inversion H; subst fd. cbn [i_size i_origin i_symmetry]. right.
    split; [exact Hs|]. split; [exists n; auto|].
    exists o. pose proof (resolve_origin_range _ _ _ Eo (proj1 Hs)) as Ho.
    split; [exact Eo|]. split; [exact Ho|].
    apply reversed_origin; lia.
Qed.

(** The border of a filter with taps, without wrap-around: the larger reach
    of the filter on either side of its origin. *)
Lemma border_of_origin (fd : InternOneDimensionalFilter T) (o : Z) :
  0 <= o < i_size fd -> i_size fd < uint_modulus ->
  i_origin fd = i_size fd - o - 1 ->
  border_of fd = Z.max o (i_size fd - o - 1).
Proof.
  intros Ho Hs E. unfold border_of. rewrite E.
  rewrite (uint_small (i_size fd - (i_size fd - o - 1))) by lia.
  rewrite uint_small by lia. lia.
Qed.

(** A filter without taps: [sz - b - 1] wraps around. The dimension is never
    processed, see [IsMeaninglessFilter]. *)
Lemma border_of_empty (fd : InternOneDimensionalFilter T) :
  i_size fd = 0 -> i_origin fd = 0 ->
  border_of fd = uint_modulus - 1 /\ IsMeaninglessFilter fd = true.
Proof.
  intros Hs Ho. unfold border_of, IsMeaninglessFilter. rewrite Hs, Ho.
  split; reflexivity.
Qed.

Lemma mapM_Ok {A B : Type} (g : A -> result B) (l : list A) (r : list B) :
  mapM g l = Ok r -> Forall2 (fun a b => g a = Ok b) l r.
Proof.
  revert r. induction l as [|a l IH]; intros r H; cbn [mapM] in H.
  - inversion H. constructor.
  - destruct (g a) as [b|m] eqn:Ea; cbn [bind] in H; [|discriminate].
    destruct (mapM g l) as [bs|m]; cbn [bind] in H; [|discriminate].
    inversion H; subst. constructor; [exact Ea | apply IH; reflexivity].
Qed.

Lemma Forall2_nth_error {A B : Type} (R : A -> B -> Prop) (l : list A) (r : list B)
    (k : nat) :
  Forall2 R l r -> (k < List.length l)%nat ->
  exists a b, nth_error l k = Some a /\ nth_error r k = Some b /\ R a b.
Proof.
  intros H. revert k. induction H as [|a b l r Hab Hlr IH]; intros k Hk.
  - cbn in Hk. lia.
  - destruct k as [|k]; cbn [nth_error].
    + exists a, b. auto.
    + apply IH. cbn in Hk. lia.
Qed.

End BorderFacts.

Section SetupFacts.
Context {T : Type} {ST : Sample T} {LIB : Collaborators T}.

(** What a successful setup has checked and computed. *)
Lemma setup_Ok_full (in_ : Image T) (fa : list (OneDimensionalFilter T))
    (process : list bool) (su : SeparableSetup) :
  SeparableConvolution_setup in_ fa process = Ok su ->
  let nDims := List.length (sizes in_) in
  let uc := existsb isComplex fa in
  let dt := if uc then SuggestComplex (dataType in_)
            else SuggestFlex (dataType in_) in
  forged in_ = true /\ (1 <= nDims)%nat
  /\ (List.length fa = 1%nat \/ List.length fa = nDims)
  /\ su_dtype su = dt
  /\ Forall2 (fun f fd => mkInternOneDimensionalFilter f (DataTypes.IsDouble dt) uc = Ok fd)
       fa (su_filterData su)
  /\ su_border su
     = (if (List.length (su_filterData su) =? 1)%nat
        then repeat (border_of (hd dummy_filter (su_filterData su))) nDims
        else map (fun ii => border_of (nth ii (su_filterData su) dummy_filter))
               (seq 0 nDims))
  /\ exists pr, (pr = repeat true nDims \/ pr = process)
                /\ List.length pr = nDims
                /\ initial_process nDims process = Ok pr
                /\ su_process su = update_process in_ (su_filterData su) pr.
Proof.
  intros H. cbv zeta. unfold SeparableConvolution_setup, throw_if in H.
  destruct (forged in_); cbn [negb] in H; [|discriminate].
  destruct (Nat.ltb_spec (List.length (sizes in_)) 1); [discriminate|].
  destruct (Nat.eqb_spec (List.length fa) 1) as [E1|E1];
    destruct (Nat.eqb_spec (List.length fa) (List.length (sizes in_))) as [E2|E2];
    cbn [negb andb] in H; try discriminate.
  all: match type of H with
       | bind (mapM ?g ?l) _ = _ =>
           destruct (mapM g l) as [fd|m] eqn:EM; cbn [bind] in H; [|discriminate];
           apply mapM_Ok in EM
       end.
  all: match type of H with
       | bind ?p _ = _ => destruct p as [pr|m] eqn:EP; cbn [bind] in H;
                           [|discriminate]
       end.
  all: inversion H; subst su; cbn [su_filterData su_border su_process su_dtype].
  all: split; [reflexivity|]; split; [assumption|]; split; [auto|].
  all: split; [reflexivity|]; split; [exact EM|]; split; [reflexivity|].
  all: exists pr; split; [|split; [|split; reflexivity]].
  all: unfold initial_process, throw_if in EP.
  all: destruct (Nat.eqb_spec (List.length process) 0) as [E0|E0].
  all: try (inversion EP; subst pr; left; reflexivity).
  all: try (inversion EP; subst pr; apply repeat_length).
  all: destruct (Nat.eqb_spec (List.length process) (List.length (sizes in_)));
    cbn [negb] in EP; try discriminate; inversion EP; subst pr; auto.
Qed.

Lemma setup_Ok (in_ : Image T) (fa : list (OneDimensionalFilter T))
    (process : list bool) (su : SeparableSetup) :
  SeparableConvolution_setup in_ fa process = Ok su ->
  let nDims := List.length (sizes in_) in
  forged in_ = true /\ (1 <= nDims)%nat
  /\ (List.length fa = 1%nat \/ List.length fa = nDims)
  /\ (exists ud uc,
         Forall2 (fun f fd => mkInternOneDimensionalFilter f ud uc = Ok fd)
           fa (su_filterData su))
  /\ su_border su
     = (if (List.length (su_filterData su) =? 1)%nat
        then repeat (border_of (hd dummy_filter (su_filterData su))) nDims
        else map (fun ii => border_of (nth ii (su_filterData su) dummy_filter))
               (seq 0 nDims))
  /\ exists pr, (pr = repeat true nDims \/ pr = process)
                /\ List.length pr = nDims
                /\ su_process su = update_process in_ (su_filterData su) pr.
Proof.
  intros H. cbv zeta.
  destruct (setup_Ok_full _ _ _ _ H)
    as (H1 & H2 & H3 & _ & HF & Hb & (pr & Hp1 & Hp2 & _ & Hp3)).
  split; [exact H1|]. split; [exact H2|]. split; [exact H3|].
  split; [eexists; eexists; exact HF|]. split; [exact Hb|].
  exists pr. auto.
Qed.

Lemma nth_repeat_lt {A : Type} (x d : A) (n k : nat) :
  (k < n)%nat -> nth k (repeat x n) d = x.
Proof.
  revert k. induction n as [|n IH]; intros k Hk; [lia|].
  destruct k; cbn [repeat nth]; [reflexivity | apply IH; lia].
Qed.

Lemma nth_map_seq {A : Type} (g : nat -> A) (d : A) (n k : nat) :
  (k < n)%nat -> nth k (map g (seq 0 n)) d = g k.
Proof.
  intros Hk. rewrite (nth_indep _ d (g O)) by (rewrite length_map, length_seq; exact Hk).
  rewrite (map_nth g (seq 0 n) O k), seq_nth by exact Hk. reflexivity.
Qed.

Lemma nth_map_const {A B : Type} (x d : B) (l : list A) (k : nat) :
  (k < List.length l)%nat -> nth k (map (fun _ => x) l) d = x.
Proof.
  revert k. induction l as [|a l IH]; intros k Hk; cbn [List.length] in Hk; [lia|].
  destruct k; cbn [map nth]; [reflexivity | apply IH; lia].
Qed.

Lemma nth_error_nth_default {A : Type} (l : list A) (k : nat) (a d : A) :
  nth_error l k = Some a -> nth k l d = a.
Proof. intros H. apply nth_error_nth. exact H. Qed.

(** The border entry of dimension [ii] is the border of the filter that
    serves it. *)
Lemma setup_border_nth (in_ : Image T) (fa : list (OneDimensionalFilter T))
    (process : list bool) (su : SeparableSetup) (ii : nat) :
  SeparableConvolution_setup in_ fa process = Ok su ->
  (ii < List.length (sizes in_))%nat ->
  nth ii (su_border su) 0
  = border_of (nth (filter_index fa ii) (su_filterData su) dummy_filter).
Proof.
  intros H Hii. destruct (setup_Ok _ _ _ _ H) as (_ & _ & _ & (ud & uc & HF) & Hb & _).
  rewrite Hb. unfold filter_index. rewrite <- (Forall2_length HF).
  destruct (List.length fa =? 1)%nat.
  - rewrite nth_repeat_lt by exact Hii. destruct (su_filterData su); reflexivity.
  - rewrite nth_map_seq by exact Hii. reflexivity.
Qed.

(** The process flag of dimension [ii] after lines 367-378. *)
Lemma setup_process_nth (in_ : Image T) (fa : list (OneDimensionalFilter T))
    (process : list bool) (su : SeparableSetup) (ii : nat) :
  SeparableConvolution_setup in_ fa process = Ok su ->
  (ii < List.length (sizes in_))%nat ->
  List.length (su_process su) = List.length (sizes in_)
  /\ (IsMeaninglessFilter (nth (filter_index fa ii) (su_filterData su) dummy_filter)
      = true -> nth ii (su_process su) true = false)
  /\ (List.length fa <> 1%nat -> Size in_ ii <= 1 -> nth ii (su_process su) true = false).
Proof.
  intros H Hii.
  destruct (setup_Ok _ _ _ _ H)
    as (_ & _ & _ & (ud & uc & HF) & _ & (pr & _ & Hpl & Hp)).
  rewrite Hp. unfold update_process, filter_index.
  rewrite <- (Forall2_length HF).
  destruct (Nat.eqb_spec (List.length fa) 1) as [E|E].
  - split; [|split].
    + destruct (IsMeaninglessFilter _); [rewrite length_map|]; exact Hpl.
    + intros HM. replace (hd dummy_filter (su_filterData su))
        with (nth 0 (su_filterData su) dummy_filter)
        by (destruct (su_filterData su); reflexivity).
      rewrite HM. apply nth_map_const. rewrite Hpl. exact Hii.
    + intros C. contradiction.
  - split; [|split].
    + rewrite length_map, length_seq. reflexivity.
    + intros HM. rewrite nth_map_seq by exact Hii. rewrite HM, orb_true_r. reflexivity.
    + intros _ Hs. rewrite nth_map_seq by exact Hii.
      replace (Size in_ ii <=? 1) with true by (symmetry; apply Z.leb_le; exact Hs).
      reflexivity.
Qed.

End SetupFacts.

(** ** Claims about [SeparableConvolution] *)

Section SeparableClaims.
Context {T : Type} {ST : Sample T} {LIB : Collaborators T}.

(** The output of the framework has the sizes, the tensor elements and the
    number of samples of its input. *)
Lemma SeparableConvolution_shape (in_ : Image T) (fa : list (OneDimensionalFilter T))
    (bc : list string) (process : list bool) (out : Image T) :
  SeparableConvolution in_ fa bc process = Ok out ->
  sizes out = sizes in_ /\ tensorElements out = tensorElements in_
  /\ List.length (data out) = List.length (data in_).
Proof.
  unfold SeparableConvolution, Framework_Separable, throw_if. intros H.
  destruct (SeparableConvolution_setup in_ fa process) as [su|m]; cbn [bind] in H;
    [|discriminate].
  destruct (StringArrayToBoundaryConditionArray bc) as [b|m]; cbn [bind] in H;
    [|discriminate].
  destruct (negb _); [discriminate|].
  inversion H; subst out. cbn [sizes tensorElements data].
  apply separable_pass_shape.
Qed.

(** C4. For every call of SeparableConvolution that reaches the framework,
    the border of each dimension is max(b, sz - b - 1) computed from the
    stored origin b and the logical size sz of the filter serving that
    dimension; whenever that filter has taps (the only case in which the
    dimension can be processed) this is max(o, sz - o - 1) for the filter's
    origin index o, without wrap-around.  The output has the sizes, the
    tensor elements and the number of samples of the input. *)
Theorem separable_border_width_and_shape (in_ : Image T)
    (fa : list (OneDimensionalFilter T)) (process : list bool) (su : SeparableSetup) :
  SeparableConvolution_setup in_ fa process = Ok su ->
  (forall f, In f fa -> Z.of_nat (List.length (filter f)) <= vector_max_size) ->
  (forall ii, (ii < List.length (sizes in_))%nat ->
     exists f fd,
       nth_error fa (filter_index fa ii) = Some f
       /\ nth_error (su_filterData su) (filter_index fa ii) = Some fd
       /\ nth ii (su_border su) 0
          = Z.max (i_origin fd) (uint (uint (i_size fd - i_origin fd) - 1))
       /\ (i_size fd <> 0 ->
           (exists n, stored_size f (i_isComplex fd) = Ok n
                      /\ parse_symmetry (symmetry f) (i_isComplex fd) n
                         = Ok (i_symmetry fd, i_size fd))
           /\ exists o, resolve_origin (origin f) (i_size fd) = Ok o
                        /\ 0 <= o < i_size fd
                        /\ nth ii (su_border su) 0 = Z.max o (i_size fd - o - 1))
       /\ (nth ii (su_process su) false = true -> i_size fd <> 0))
  /\ (forall bc out,
        SeparableConvolution in_ fa bc process = Ok out ->
        sizes out = sizes in_ /\ tensorElements out = tensorElements in_
        /\ List.length (data out) = List.length (data in_)).
Proof.
  intros H Hmax. split.
  - intros ii Hii.
    destruct (setup_Ok _ _ _ _ H) as (_ & Hn & Hl & (ud & uc & HF) & _ & _).
    assert (Hk : (filter_index fa ii < List.length fa)%nat).
    { unfold filter_index. destruct (Nat.eqb_spec (List.length fa) 1); lia. }
    destruct (Forall2_nth_error _ _ _ _ HF Hk) as (f & fd & Ef & Efd & Hmk).
    exists f, fd. split; [exact Ef|]. split; [exact Efd|].
    pose proof (setup_border_nth _ _ _ _ ii H Hii) as Hb.
    rewrite (nth_error_nth_default _ _ _ dummy_filter Efd) in Hb.
    split; [exact Hb|].
    assert (Huc : i_isComplex fd = uc).
    { unfold mkInternOneDimensionalFilter in Hmk.
      destruct (stored_size f uc); cbn [bind] in Hmk; [|discriminate].
      destruct (_ =? 0); [inversion Hmk; reflexivity|].
      destruct (parse_symmetry _ _ _) as [[s z]|]; cbn [bind] in Hmk; [|discriminate].
      destruct (resolve_origin _ _); cbn [bind] in Hmk; [|discriminate].
      inversion Hmk; reflexivity. }
    destruct (mkIntern_Ok _ _ _ _ Hmk (Hmax f (nth_error_In _ _ Ef)))
      as [(_ & Hs & Ho) | (Hs & (n & En & _ & Ep) & (o & Eo & Hor & Ho))].
    + split; [intros C; contradiction|].
      intros Hp C.
      destruct (setup_process_nth _ _ _ _ ii H Hii) as (Hpl & HM & _).
      rewrite (nth_error_nth_default _ _ _ dummy_filter Efd) in HM.
      rewrite (nth_indep _ false true) in Hp by (rewrite Hpl; exact Hii).
      rewrite HM in Hp; [discriminate|].
      apply (border_of_empty fd Hs Ho).
    + split.
      * intros _. split.
        -- exists n. rewrite Huc. auto.
        -- exists o. split; [exact Eo|]. split; [exact Hor|].
           rewrite Hb. apply border_of_origin; [exact Hor | lia | exact Ho].
      * intros _. lia.
  - intros bc out. apply SeparableConvolution_shape.
Qed.

End SeparableClaims.

Section TrivialFilters.
Context {T : Type} {ST : Sample T} {LIB : Collaborators T}.

Lemma seqb_refl (x : T) : seqb x x = true.
Proof. apply seqb_eq. reflexivity. Qed.

Lemma parse_single_length (sym : string) (uc : bool) :
  single_length_tag sym = true ->
  exists s, parse_symmetry sym uc 1 = Ok (s, 1).
Proof.
  unfold single_length_tag. intros H.
  repeat (apply orb_true_iff in H; destruct H as [H|H]);
    apply String.eqb_eq in H; subst sym; destruct uc; eexists; reflexivity.
Qed.

(** [IsMeaninglessFilter] recognises every trivial filter. *)
Lemma trivial_is_meaningless (f : OneDimensionalFilter T) (ud uc : bool)
    (fd : InternOneDimensionalFilter T) :
  is_trivial_filter f ->
  mkInternOneDimensionalFilter f ud uc = Ok fd ->
  IsMeaninglessFilter fd = true.
Proof.
  unfold mkInternOneDimensionalFilter, stored_size, throw_if.
  intros [E | (Htag & [(Ec & E) | (Ec & E)])] H; rewrite E in H;
    cbn [List.length] in H.
  - change (Z.of_nat 0) with 0 in H.
    destruct (isComplex f); [destruct (negb uc); [discriminate|]|];
      cbn in H; inversion H; reflexivity.
  - rewrite Ec in H. cbn [bind] in H.
    destruct (parse_single_length _ uc Htag) as (s & Ep).
    change (Z.of_nat 1) with 1 in H. change (1 =? 0) with false in H. cbv iota in H.
    rewrite Ep in H. cbn [bind] in H.
    destruct (resolve_origin (origin f) 1); cbn [bind] in H; [|discriminate].
    inversion H. unfold IsMeaninglessFilter. cbn. rewrite seqb_refl. reflexivity.
  - rewrite Ec in H. change (Z.odd (Z.of_nat 2)) with false in H. cbv iota in H.
    destruct (negb uc); [discriminate|]. cbn [bind] in H.
    destruct (parse_single_length _ uc Htag) as (s & Ep).
    change (Z.of_nat 2 / 2) with 1 in H. change (1 =? 0) with false in H. cbv iota in H.
    rewrite Ep in H. cbn [bind] in H.
    destruct (resolve_origin (origin f) 1); cbn [bind] in H; [|discriminate].
    inversion H. unfold IsMeaninglessFilter. cbn.
    rewrite cplx_real, seqb_refl. reflexivity.
Qed.

(** C5. A filter without taps, or with the single tap 1, switches off every
    dimension it serves (all of them when the filter array has one element);
    when every filter of the call is of that kind, the output has the
    samples of the input, unchanged. *)
Theorem trivial_filter_is_skipped (in_ : Image T)
    (fa : list (OneDimensionalFilter T)) (process : list bool) (su : SeparableSetup) :
  SeparableConvolution_setup in_ fa process = Ok su ->
  (forall ii f,
      (ii < List.length (sizes in_))%nat ->
      nth_error fa (filter_index fa ii) = Some f ->
      is_trivial_filter f ->
      nth ii (su_process su) true = false)
  /\ (forall bc out,
        (forall f, In f fa -> is_trivial_filter f) ->
        SeparableConvolution in_ fa bc process = Ok out ->
        sizes out = sizes in_ /\ tensorElements out = tensorElements in_
        /\ data out = data in_).
Proof.
  intros H.
  assert (Hskip : forall ii f,
             (ii < List.length (sizes in_))%nat ->
             nth_error fa (filter_index fa ii) = Some f ->
             is_trivial_filter f ->
             nth ii (su_process su) true = false).
  { intros ii f Hii Ef Ht.
    destruct (setup_Ok _ _ _ _ H) as (_ & _ & _ & (ud & uc & HF) & _ & _).
    assert (Hk : (filter_index fa ii < List.length fa)%nat).
    { apply nth_error_Some. rewrite Ef. discriminate. }
    destruct (Forall2_nth_error _ _ _ _ HF Hk) as (f' & fd & Ef' & Efd & Hmk).
    rewrite Ef in Ef'. inversion Ef'; subst f'.
    destruct (setup_process_nth _ _ _ _ ii H Hii) as (_ & HM & _).
    apply HM. rewrite (nth_error_nth_default _ _ _ dummy_filter Efd).
    apply (trivial_is_meaningless f ud uc fd Ht Hmk). }
  split; [exact Hskip|].
  intros bc out Hall Hout.
  unfold SeparableConvolution in Hout. rewrite H in Hout. cbn [bind] in Hout.
  destruct (StringArrayToBoundaryConditionArray bc) as [b|m]; cbn [bind] in Hout;
    [|discriminate].
  unfold Framework_Separable, throw_if in Hout.
  destruct (negb _); [discriminate|].
  rewrite separable_pass_none in Hout.
  - inversion Hout. cbn [sizes tensorElements data]. auto.
  - intros d Hd. apply in_seq in Hd.
    destruct (setup_Ok _ _ _ _ H) as (_ & _ & Hl & _).
    assert (Hk : (filter_index fa d < List.length fa)%nat).
    { unfold filter_index. destruct (Nat.eqb_spec (List.length fa) 1); lia. }
    destruct (nth_error fa (filter_index fa d)) as [f|] eqn:Ef.
    + rewrite (nth_indep _ false true).
      * apply (Hskip d f); [lia | exact Ef |]. apply Hall. apply (nth_error_In _ _ Ef).
      * destruct (setup_process_nth _ _ _ _ d H ltac:(lia)) as (Hpl & _). rewrite Hpl. lia.
    + apply nth_error_None in Ef. lia.
Qed.

End TrivialFilters.

Section SingletonDimensions.
Context {T : Type} {ST : Sample T} {LIB : Collaborators T}.

Lemma Forall2_functional {A B : Type} (g : A -> result B) (l : list A) (r r' : list B) :
  Forall2 (fun a b => g a = Ok b) l r ->
  Forall2 (fun a b => g a = Ok b) l r' ->
  r = r'.
Proof.
  intros H. revert r'. induction H as [|a b l r Hab Hlr IH]; intros r' H'.
  - inversion H'. reflexivity.
  - inversion H' as [|a' b' l' r'' Hab' Hlr']; subst.
    rewrite Hab in Hab'. inversion Hab'; subst. f_equal. apply IH. exact Hlr'.
Qed.

Lemma nth_replace_other {A : Type} (l1 l2 : list A) (x x' d : A) (k : nat) :
  k <> List.length l1 -> nth k (l1 ++ x :: l2) d = nth k (l1 ++ x' :: l2) d.
Proof.
  intros Hk. destruct (Nat.lt_ge_cases k (List.length l1)) as [Hlt|Hge].
  - rewrite !app_nth1 by exact Hlt. reflexivity.
  - rewrite !app_nth2 by exact Hge.
    destruct (k - List.length l1)%nat as [|j] eqn:E; [lia | reflexivity].
Qed.

Lemma existsb_replace (l1 l2 : list (OneDimensionalFilter T))
    (f f' : OneDimensionalFilter T) :
  isComplex f' = isComplex f ->
  existsb isComplex (l1 ++ f' :: l2) = existsb isComplex (l1 ++ f :: l2).
Proof. intros H. rewrite !existsb_app. cbn [existsb]. rewrite H. reflexivity. Qed.

(** The branch of lines 372-378. When the filter array has more than one
    element (one filter per dimension of an image with at least two
    dimensions), a dimension of size at most 1 is not processed, and
    replacing its filter by any other filter of the same kind (real or
    complex) that the call accepts leaves the output unchanged. *)
Theorem singleton_dimension_is_skipped (in_ : Image T)
    (fa : list (OneDimensionalFilter T)) (process : list bool) (su : SeparableSetup) :
  SeparableConvolution_setup in_ fa process = Ok su ->
  List.length fa <> 1%nat ->
  (forall ii, (ii < List.length (sizes in_))%nat -> Size in_ ii <= 1 ->
              nth ii (su_process su) true = false)
  /\ (forall l1 f l2 f' bc out out',
        fa = l1 ++ f :: l2 ->
        Size in_ (List.length l1) <= 1 ->
        isComplex f' = isComplex f ->
        SeparableConvolution in_ fa bc process = Ok out ->
        SeparableConvolution in_ (l1 ++ f' :: l2) bc process = Ok out' ->
        out' = out).
Proof.
  intros H Hne. split.
  { intros ii Hii Hs.
    destruct (setup_process_nth _ _ _ _ ii H Hii) as (_ & _ & HS). auto. }
  intros l1 f l2 f' bc out out' Hfa Hs Hc Hout Hout'.
  unfold SeparableConvolution in Hout, Hout'. rewrite H in Hout. cbn [bind] in Hout.
  destruct (SeparableConvolution_setup in_ (l1 ++ f' :: l2) process) as [su'|m] eqn:H';
    cbn [bind] in Hout'; [|discriminate].
  destruct (StringArrayToBoundaryConditionArray bc) as [b|m]; cbn [bind] in Hout, Hout';
    [|discriminate].
  destruct (setup_Ok_full _ _ _ _ H)
    as (_ & Hn & Hl & Hdt & HF & Hb & (pr & _ & Hpl & Hpr & Hp)).
  destruct (setup_Ok_full _ _ _ _ H')
    as (_ & _ & Hl' & Hdt' & HF' & Hb' & (pr' & _ & _ & Hpr' & Hp')).
  rewrite Hpr in Hpr'. inversion Hpr'; subst pr'. clear Hpr'.
  rewrite (existsb_replace l1 l2 f f' Hc), <- Hfa in HF', Hdt'.
  rewrite <- Hdt in Hdt'. clear Hdt.
  remember (existsb isComplex fa) as uc eqn:Euc. clear Euc.
  remember (DataTypes.IsDouble _) as ud eqn:Eud. clear Eud.
  set (g := fun x => mkInternOneDimensionalFilter x ud uc) in HF, HF'.
  subst fa.
  destruct (Forall2_app_inv_l _ _ HF) as (d1 & dr & H1 & Hr & Efd).
  inversion Hr as [|? x ? d2 Hx H2]; subst. clear Hr.
  destruct (Forall2_app_inv_l _ _ HF') as (d1' & dr' & H1' & Hr' & Efd').
  inversion Hr' as [|? x' ? d2' Hx' H2']; subst. clear Hr'.
  assert (d1' = d1) by (apply (Forall2_functional g l1); assumption). subst d1'.
  assert (d2' = d2) by (apply (Forall2_functional g l2); assumption). subst d2'.
  assert (Hd1 : List.length d1 = List.length l1) by (symmetry; apply (Forall2_length H1)).
  assert (Hlen : List.length (su_filterData su') = List.length (su_filterData su)).
  { rewrite Efd, Efd', !length_app. reflexivity. }
  assert (Hfl : List.length (su_filterData su) = List.length (sizes in_)).
  { rewrite <- (Forall2_length HF). destruct Hl; [contradiction | assumption]. }
  assert (Hii : (List.length l1 < List.length (sizes in_))%nat).
  { rewrite <- Hfl, Efd, length_app, Hd1. cbn [List.length]. lia. }
  assert (Hnth : forall k, k <> List.length l1 ->
             nth k (su_filterData su') dummy_filter
             = nth k (su_filterData su) dummy_filter).
  { intros k Hk. rewrite Efd, Efd'. apply nth_replace_other. rewrite Hd1. exact Hk. }
  assert (Hone : (List.length (su_filterData su) =? 1)%nat = false).
  { apply Nat.eqb_neq. rewrite <- (Forall2_length HF). exact Hne. }
  assert (Hproc : su_process su' = su_process su).
  { rewrite Hp, Hp'. unfold update_process. rewrite Hlen, Hone.
    apply map_ext. intros k. destruct (Nat.eq_dec k (List.length l1)) as [->|Hk].
    - replace (Size in_ (List.length l1) <=? 1) with true
        by (symmetry; apply Z.leb_le; exact Hs).
      reflexivity.
    - rewrite (Hnth k Hk). reflexivity. }
  assert (Hoff : nth (List.length l1) (su_process su) false = false).
  { rewrite (nth_indep _ false true) by (rewrite Hp; unfold update_process;
      rewrite Hone, length_map, length_seq; exact Hii).
    destruct (setup_process_nth _ _ _ _ (List.length l1) H Hii) as (_ & _ & HS). auto. }
  unfold Framework_Separable, throw_if in Hout, Hout'.
  destruct (negb _); [discriminate|].
  rewrite Hdt', Hproc in Hout'.
  rewrite (separable_pass_ext _ _ _ (su_border su) _ _
             (SeparableConvolutionLineFilter (su_filterData su))) in Hout'.
  - rewrite Hout in Hout'. inversion Hout'. reflexivity.
  - intros d Hd Hpd. apply in_seq in Hd.
    assert (Hk : d <> List.length l1) by (intros ->; congruence).
    split.
    + rewrite Hb, Hb', Hlen, Hone, !nth_map_seq by lia. rewrite (Hnth d Hk). reflexivity.
    + intros inp n. unfold SeparableConvolutionLineFilter. rewrite Hlen.
      destruct (1 <? List.length (su_filterData su))%nat eqn:E1.
      * rewrite (Hnth d Hk). reflexivity.
      * apply Nat.ltb_ge in E1. apply Nat.eqb_neq in Hone. lia.
Qed.

End SingletonDimensions.

(** ** Symmetry tags against the full tap list *)

Section SymmetryClaims.
Context {T : Type} {ST : Sample T} {LIB : Collaborators T}.

Lemma tl_skipn {A : Type} (l : list A) (m : nat) : tl (skipn m l) = skipn (S m) l.
Proof.
  revert l. induction m as [|m IH]; intros l.
  - destruct l; reflexivity.
  - destruct l as [|a l]; [reflexivity|]. cbn [skipn]. rewrite IH. reflexivity.
Qed.

Lemma odd_length_half {A : Type} (g : list A) :
  Nat.odd (List.length g) = true ->
  (List.length g - Nat.div2 (List.length g) = S (Nat.div2 (List.length g)))%nat.
Proof.
  intros H. pose proof (Nat.div2_odd (List.length g)) as E. rewrite H in E.
  cbn [Nat.b2n] in E. lia.
Qed.

(** A tap list of odd length that reads the same in both directions is the
    "even" expansion of its first half, centre included. *)
Lemma symmetric_is_full_even (g : list T) :
  Nat.odd (List.length g) = true -> rev g = g ->
  full_even (firstn (S (Nat.div2 (List.length g))) g) = g.
Proof.
  intros Hodd Hsym. unfold full_even.
  rewrite <- (odd_length_half g Hodd), <- skipn_rev, Hsym, tl_skipn.
  rewrite (odd_length_half g Hodd). apply firstn_skipn.
Qed.

(** A tap list of odd length that changes sign when read backwards is the
    "odd" expansion of its first half, centre included. *)
Lemma antisymmetric_is_full_odd (g : list T) :
  Nat.odd (List.length g) = true -> map sopp (rev g) = g ->
  full_odd (firstn (S (Nat.div2 (List.length g))) g) = g.
Proof.
  intros Hodd Hsym. unfold full_odd.
  rewrite <- (odd_length_half g Hodd), <- skipn_rev, tl_skipn, <- skipn_map, Hsym.
  rewrite (odd_length_half g Hodd). apply firstn_skipn.
Qed.

Lemma same_filters_refl (l : list (OneDimensionalFilter T)) (ud uc : bool) :
  Forall2 (fun f f' =>
             same_result same_filter (mkInternOneDimensionalFilter f ud uc)
               (mkInternOneDimensionalFilter f' ud uc)) l l.
Proof.
  induction l as [|f l IH]; constructor; [|exact IH].
  apply same_result_refl. apply same_filter_refl.
Qed.

Lemma SeparableConvolution_replace (in_ : Image T)
    (l1 l2 : list (OneDimensionalFilter T)) (f f' : OneDimensionalFilter T)
    (bc : list string) (process : list bool) :
  isComplex f = isComplex f' ->
  (forall ud uc, same_result same_filter (mkInternOneDimensionalFilter f ud uc)
                   (mkInternOneDimensionalFilter f' ud uc)) ->
  SeparableConvolution in_ (l1 ++ f :: l2) bc process
  = SeparableConvolution in_ (l1 ++ f' :: l2) bc process.
Proof.
  intros Hc Hf. apply SeparableConvolution_same.
  - rewrite !existsb_app. cbn [existsb]. rewrite Hc. reflexivity.
  - intros ud uc. apply Forall2_app; [apply same_filters_refl|].
    constructor; [apply Hf | apply same_filters_refl].
Qed.

(** The part of C2 that the code satisfies: for "even" and for "odd", the
    stored half with its tag and the full tap list with "general" give the
    same image or the same error, for every image, position in the filter
    array, origin, boundary condition and process array. *)
Theorem separable_even_odd_match_general (in_ : Image T)
    (l1 l2 : list (OneDimensionalFilter T)) (h : list T) (o : Z)
    (bc : list string) (process : list bool) :
  Z.of_nat (List.length h) <= vector_max_size ->
  SeparableConvolution in_ (l1 ++ real_filter (full_even h) "general" o :: l2) bc process
  = SeparableConvolution in_ (l1 ++ real_filter h "even" o :: l2) bc process
  /\ SeparableConvolution in_ (l1 ++ real_filter (full_odd h) "general" o :: l2) bc process
     = SeparableConvolution in_ (l1 ++ real_filter h "odd" o :: l2) bc process.
Proof.
  intros Hlen. split; apply SeparableConvolution_replace; try reflexivity; intros ud uc.
  - apply even_same_filter. exact Hlen.
  - apply odd_same_filter. exact Hlen.
Qed.

End SymmetryClaims.

(** ** The origin of a filter *)

Section OriginClaims.
Context {T : Type} {ST : Sample T}.

(** C10, as the code has it. For a filter with at least one stored sample: a
    negative origin is replaced by the central index [size / 2] of the
    logical size and the call does not throw for that reason; an origin at or
    beyond the logical size throws; an origin inside the filter is kept.  The
    origin kept is stored mirrored, as [size - origin - 1].  A filter without
    stored samples is accepted whatever its origin. *)
Theorem origin_is_resolved_for_filters_with_taps (f : OneDimensionalFilter T)
    (ud uc : bool) (n size : Z) (sym : FilterSymmetry) :
  Z.of_nat (List.length (filter f)) <= vector_max_size ->
  stored_size f uc = Ok n ->
  (n <> 0 ->
   parse_symmetry (symmetry f) uc n = Ok (sym, size) ->
   (origin f < 0 ->
    resolve_origin (origin f) size = Ok (size / 2)
    /\ exists fd, mkInternOneDimensionalFilter f ud uc = Ok fd
                  /\ i_size fd = size /\ i_origin fd = size - size / 2 - 1)
   /\ (size <= origin f ->
       mkInternOneDimensionalFilter f ud uc = Throw "Origin outside of filter")
   /\ (0 <= origin f < size ->
       resolve_origin (origin f) size = Ok (origin f)
       /\ exists fd, mkInternOneDimensionalFilter f ud uc = Ok fd
                     /\ i_size fd = size /\ i_origin fd = size - origin f - 1))
  /\ (n = 0 ->
      exists fd, mkInternOneDimensionalFilter f ud uc = Ok fd
                 /\ i_size fd = 0 /\ i_origin fd = 0).
Proof.
  intros Hlen En. pose proof (stored_size_bound _ _ _ En) as Hn. split.
  - intros Hn0 Ep.
    pose proof (parse_symmetry_size _ _ _ _ _ Ep ltac:(lia)) as Hsz.
    assert (Hs : 1 <= size < uint_modulus).
    { rewrite uint_modulus_eq. rewrite vector_max_size_eq in Hlen. lia. }
    unfold mkInternOneDimensionalFilter. rewrite En. cbn [bind].
    replace (n =? 0) with false by (symmetry; apply Z.eqb_neq; exact Hn0).
    rewrite Ep. cbn [bind]. unfold resolve_origin, throw_if.
    split; [|split].
    + intros Ho. replace (origin f <? 0) with true by (symmetry; apply Z.ltb_lt; exact Ho).
      split; [reflexivity|]. cbn [bind]. eexists. split; [reflexivity|].
      cbn [i_size i_origin]. split; [reflexivity|].
      apply reversed_origin; [|lia]. split.
      * apply Z.div_pos; lia.
      * apply Z.div_lt_upper_bound; lia.
    + intros Ho. replace (origin f <? 0) with false by (symmetry; apply Z.ltb_ge; lia).
      replace (size <=? origin f) with true by (symmetry; apply Z.leb_le; exact Ho).
      reflexivity.
    + intros Ho. replace (origin f <? 0) with false by (symmetry; apply Z.ltb_ge; lia).
      replace (size <=? origin f) with false by (symmetry; apply Z.leb_gt; lia).
      split; [reflexivity|]. cbn [bind]. eexists. split; [reflexivity|].
      cbn [i_size i_origin]. split; [reflexivity|].
      apply reversed_origin; lia.
  - intros ->. unfold mkInternOneDimensionalFilter. rewrite En. cbn [bind].
    change (0 =? 0) with true. cbv iota. eexists. split; [reflexivity|]. auto.
Qed.

End OriginClaims.

(** ** The dispatcher, the direct path and the Fourier path *)

Section DispatchClaims.
Context {T : Type} {ST : Sample T} {LIB : Collaborators T}.

(** C7. With method "separable", a kernel for which SeparateFilter finds no
    decomposition makes Convolution throw "Filter kernel not separable.";
    a kernel that decomposes is handed to SeparableConvolution with the
    filters found, and to nothing else. *)
Theorem forced_separable_throws_or_separates (in_ filter_c : Image T)
    (bc : list string) :
  forged in_ = true -> forged filter_c = true ->
  (List.length (sizes filter_c) <= List.length (sizes in_))%nat ->
  (SeparateFilter (expand_filter in_ filter_c) = [] ->
   Convolution in_ filter_c S.SEPARABLE bc = Throw "Filter kernel not separable.")
  /\ (SeparateFilter (expand_filter in_ filter_c) <> [] ->
      Convolution in_ filter_c S.SEPARABLE bc
      = Ok (Call_SeparableConvolution in_
              (SeparateFilter (expand_filter in_ filter_c)) bc)).
Proof.
  intros Hf Hk Hd. unfold Convolution, throw_if. rewrite Hf, Hk. cbn [negb orb].
  assert (Hn : (List.length (sizes in_)
                <? List.length (sizes (expand_filter in_ filter_c)))%nat = false).
  { apply Nat.ltb_ge. unfold expand_filter.
    destruct (Nat.ltb_spec (List.length (sizes filter_c)) (List.length (sizes in_))).
    - cbn [sizes]. unfold ExpandDimensionality. rewrite length_app, repeat_length. lia.
    - exact Hd. }
  rewrite Hn. change (methods_to_try in_ (expand_filter in_ filter_c) S.SEPARABLE)
    with (@Ok (bool * bool * bool) (true, false, false)).
  cbn [bind negb andb].
  split; intros Hs.
  - rewrite Hs. reflexivity.
  - destruct (SeparateFilter (expand_filter in_ filter_c)); [contradiction | reflexivity].
Qed.

(** With method "separable" no other implementation is ever reached,
    whatever the images. *)
Lemma forced_separable_no_fallback (in_ filter_c : Image T) (bc : list string)
    (c : ConvolutionCall) :
  Convolution in_ filter_c S.SEPARABLE bc = Ok c ->
  exists fa, fa <> [] /\ c = Call_SeparableConvolution in_ fa bc.
Proof.
  unfold Convolution, throw_if. intros H.
  destruct (negb (forged in_) || negb (forged filter_c)); [discriminate|].
  destruct (_ <? _)%nat; [discriminate|].
  change (methods_to_try in_ (expand_filter in_ filter_c) S.SEPARABLE)
    with (@Ok (bool * bool * bool) (true, false, false)) in H.
  cbn [bind negb andb] in H.
  destruct (SeparateFilter (expand_filter in_ filter_c)) as [|f fa] eqn:E;
    cbn in H; [discriminate|].
  inversion H. exists (f :: fa). split; [discriminate | reflexivity].
Qed.

(** C6. For a binary kernel image, GeneralConvolution is the uniform filter
    over the mirrored kernel with the same boundary condition: that call is
    all it does. *)
Theorem binary_kernel_is_uniform_filter (in_ c_filter : Image T) (bc : list string) :
  forged in_ = true -> forged c_filter = true ->
  DataTypes.IsBinary (dataType c_filter) = true ->
  GeneralConvolution in_ c_filter bc
  = Ok (Call_Uniform in_ (Mirror (mkKernel c_filter)) bc)
  /\ k_image (Mirror (mkKernel c_filter)) = c_filter
  /\ k_mirror (Mirror (mkKernel c_filter)) = true.
Proof.
  intros Hf Hk Hb. unfold GeneralConvolution, throw_if. rewrite Hf, Hk, Hb.
  cbn. auto.
Qed.

End DispatchClaims.

Section FourierClaims.
Context {T : Type} {ST : Sample T} {LIB : Collaborators T}.



End FourierClaims.

(** ** The scan framework *)

Module ScanFacts.
Import Scan.
Section WithSample.
Context {T : Type} {ST : Sample T}.

Lemma offset_normal (s : Z) (sz c : list Z) :
  offset (normal_strides s sz) c = s * index sz c.
Proof.
  revert s c. induction sz as [|n sz IH]; intros s c; cbn [normal_strides offset index].
  - lia.
  - destruct c as [|ci c]; [lia|]. rewrite IH. lia.
Qed.

Lemma index_range (sz c : list Z) :
  in_range sz c -> 0 <= index sz c < product sz.
Proof.
  induction 1 as [|n ci sz c Hc Hr IH]; cbn [index product fold_right].
  - lia.
  - fold (product sz). nia.
Qed.

Lemma length_flat_map_const {A B : Type} (blk : A -> list B) (n : nat) (l : list A) :
  (forall a, List.length (blk a) = n) ->
  List.length (flat_map blk l) = (n * List.length l)%nat.
Proof.
  intros H. induction l as [|a l IH]; cbn [flat_map List.length].
  - lia.
  - rewrite length_app, H, IH. lia.
Qed.

Lemma nth_flat_map_blocks {A B : Type} (blk : A -> list B) (n : nat) (l : list A)
    (da : A) (db : B) (i j : nat) :
  (forall a, List.length (blk a) = n) ->
  (i < n)%nat -> (j < List.length l)%nat ->
  nth (i + n * j) (flat_map blk l) db = nth i (blk (nth j l da)) db.
Proof.
  intros H Hi. revert j. induction l as [|a l IH]; intros j Hj; cbn [List.length] in Hj.
  - lia.
  - cbn [flat_map]. destruct j as [|j].
    + rewrite Nat.mul_0_r, Nat.add_0_r. cbn [nth]. apply app_nth1. rewrite H. exact Hi.
    + rewrite app_nth2 by (rewrite H; lia). rewrite H.
      replace (i + n * S j - n)%nat with (i + n * j)%nat by lia.
      cbn [nth]. apply IH. lia.
Qed.

Lemma length_coordinates (sz c : list Z) :
  in_range sz c -> List.length (coordinates sz) = Z.to_nat (product sz).
Proof.
  induction 1 as [|n ci sz c Hc Hr IH]; cbn [coordinates product fold_right].
  - reflexivity.
  - fold (product sz).
    rewrite (length_flat_map_const _ (Z.to_nat n)).
    + rewrite IH. pose proof (index_range _ _ Hr). rewrite Z2Nat.inj_mul by lia. lia.
    + intros a. rewrite length_map, length_zseq. reflexivity.
Qed.

Lemma nth_zseq (n i : Z) (d : Z) : 0 <= i < n -> nth (Z.to_nat i) (zseq n) d = i.
Proof.
  intros H. unfold zseq.
  rewrite (nth_indep _ d (Z.of_nat O)) by (rewrite length_map, length_seq; lia).
  rewrite (map_nth Z.of_nat), seq_nth by lia. lia.
Qed.

Lemma nth_coordinates (sz c : list Z) :
  in_range sz c -> nth (Z.to_nat (index sz c)) (coordinates sz) [] = c.
Proof.
  induction 1 as [|n ci sz c Hc Hr IH]; cbn [coordinates index].
  - reflexivity.
  - pose proof (index_range _ _ Hr) as Hi.
    replace (Z.to_nat (ci + n * index sz c))
      with (Z.to_nat ci + Z.to_nat n * Z.to_nat (index sz c))%nat
      by (rewrite Z2Nat.inj_add, Z2Nat.inj_mul by nia; reflexivity).
    rewrite (nth_flat_map_blocks _ (Z.to_nat n) _ [] []).
    + rewrite IH.
      rewrite (nth_indep _ [] ((fun x => x :: c) 0))
        by (rewrite length_map, length_zseq; lia).
      rewrite (map_nth (fun x => x :: c)), nth_zseq by lia. reflexivity.
    + intros a. rewrite length_map, length_zseq. reflexivity.
    + lia.
    + rewrite (length_coordinates _ _ Hr). lia.
Qed.

Lemma length_broadcast_strides (sz sizes strides : list Z) :
  List.length (broadcast_strides sz sizes strides) = List.length sz.
Proof.
  revert sizes strides. induction sz as [|n sz IH]; intros sizes strides;
    cbn [broadcast_strides List.length]; [reflexivity|].
  destruct sizes, strides; cbn [List.length]; rewrite IH; reflexivity.
Qed.

(** Where a dimension is stored once, the coordinate along it does not
    matter to the operands, and the output is read at coordinate 0. *)
Lemma stored_once (sz sl sr c : list Z) (s : Z) :
  List.length sl = List.length sz -> List.length sr = List.length sz ->
  in_range sz c ->
  let stored := stored_sizes sz sl sr in
  in_range stored (clamp stored c)
  /\ offset (output_strides s sz stored) c = s * index stored (clamp stored c)
  /\ offset sl (clamp stored c) = offset sl c
  /\ offset sr (clamp stored c) = offset sr c.
Proof.
  intros Hl Hr H. revert sl sr s Hl Hr.
  induction H as [|n ci sz c Hc Hrg IH]; intros sl sr s Hl Hr.
  - destruct sl, sr; try discriminate. cbn. repeat split; try constructor; lia.
  - destruct sl as [|l sl], sr as [|r sr]; try discriminate.
    cbn [List.length] in Hl, Hr.
    destruct (IH sl sr (s * (if (l =? 0) && (r =? 0) then 1 else n))
                ltac:(lia) ltac:(lia)) as (I1 & I2 & I3 & I4).
    cbv zeta. cbn [stored_sizes clamp output_strides offset index].
    destruct (Z.eqb_spec l 0) as [El|El], (Z.eqb_spec r 0) as [Er|Er];
      destruct (Z.eqb_spec n 1) as [En|En];
      cbn [andb negb] in *; try change (1 =? 1) with true; cbn [andb negb];
      try (destruct (Z.eqb_spec n 1); [|contradiction]);
      try (destruct (Z.eqb_spec n 1); [contradiction|]);
      cbn [andb negb]; rewrite I2, I3, I4;
      (split; [constructor; [lia | exact I1]|]); repeat split; subst;
      try (assert (ci = 0) by lia; subst ci); lia.
Qed.

Lemma output_stride_zero (sz sl sr : list Z) (s : Z) (d : nat) :
  (d < List.length sz)%nat ->
  nth d sl 1 = 0 -> nth d sr 1 = 0 -> nth d sz 1 <> 1 ->
  nth d (output_strides s sz (stored_sizes sz sl sr)) 1 = 0.
Proof.
  revert sl sr s d. induction sz as [|n sz IH]; intros sl sr s d Hd Hl Hr Hn;
    cbn [List.length] in Hd; [lia|].
  destruct sl as [|l sl]; [destruct d; cbn in Hl; lia|].
  destruct sr as [|r sr]; [destruct d; cbn in Hr; lia|].
  cbn [stored_sizes output_strides]. destruct d as [|d]; cbn [nth] in *.
  - subst l r. cbn [Z.eqb andb]. change (1 =? 1) with true.
    destruct (Z.eqb_spec n 1); [contradiction | reflexivity].
  - apply IH; [lia | assumption..].
Qed.

(** C8. A dyadic scan of two operands returns an image of the common size
    after singleton expansion; a dimension along which both expanded
    operands have stride 0 keeps stride 0 in the output; and the output
    sample at any coordinates is the callback applied to the samples of the
    two expanded operands at those coordinates. *)
Theorem scan_broadcasts_singleton_dimensions (f : T -> T -> T)
    (lhs rhs out : View) :
  ScanDyadic f lhs rhs = Ok out ->
  SingletonExpandedSize (v_sizes lhs) (v_sizes rhs) = Ok (v_sizes out)
  /\ (forall d,
        (d < List.length (v_sizes out))%nat ->
        nth d (broadcast_strides (v_sizes out) (v_sizes lhs) (v_strides lhs)) 1 = 0 ->
        nth d (broadcast_strides (v_sizes out) (v_sizes rhs) (v_strides rhs)) 1 = 0 ->
        nth d (v_sizes out) 1 <> 1 ->
        nth d (v_strides out) 1 = 0)
  /\ (forall c,
        in_range (v_sizes out) c ->
        At out c = f (At_broadcast lhs (v_sizes out) c)
                     (At_broadcast rhs (v_sizes out) c)).
Proof.
  unfold ScanDyadic. intros H.
  destruct (SingletonExpandedSize (v_sizes lhs) (v_sizes rhs)) as [sz|m];
    cbn [bind] in H; [|discriminate].
  inversion H; subst out. clear H. cbn [v_sizes v_strides].
  split; [reflexivity|]. split.
  - intros d Hd Hl Hr Hn. apply output_stride_zero; assumption.
  - intros c Hc. unfold At, At_broadcast. cbn [v_origin v_strides v_data].
    destruct (stored_once sz _ _ c 1
                (length_broadcast_strides sz (v_sizes lhs) (v_strides lhs))
                (length_broadcast_strides sz (v_sizes rhs) (v_strides rhs)) Hc)
      as (I1 & I2 & I3 & I4).
    rewrite I2. pose proof (index_range _ _ I1) as Hi.
    replace (0 + 1 * index _ _) with (index
      (stored_sizes sz (broadcast_strides sz (v_sizes lhs) (v_strides lhs))
         (broadcast_strides sz (v_sizes rhs) (v_strides rhs)))
      (clamp (stored_sizes sz (broadcast_strides sz (v_sizes lhs) (v_strides lhs))
                (broadcast_strides sz (v_sizes rhs) (v_strides rhs))) c)) by lia.
    match goal with
    | |- nth ?k (map ?g ?l) _ = _ =>
        rewrite (nth_indep (map g l) s0 (g []))
          by (rewrite length_map, (length_coordinates _ _ I1); lia);
        rewrite (map_nth g l [] k)
    end.
    rewrite (nth_coordinates _ _ I1), I3, I4. reflexivity.
Qed.

End WithSample.
End ScanFacts.

(** ** The Fourier path of the dispatcher *)

Section DispatcherPadding.
Context {T : Type} {ST : Sample T} {LIB : Collaborators T}.

(** Lines 688-699: whenever [Convolution] takes the Fourier path, it asks for
    spatial representations and passes a boundary condition array that is
    not empty, the array of the caller or the one empty string; [ConvolveFT]
    then pads. *)
Lemma Convolution_fourier_path_pads (in_ filter_c : Image T) (method : string)
    (bc : list string) (i k : Image T) (a b c : string) (bc' : list string) :
  Convolution in_ filter_c method bc = Ok (Call_ConvolveFT i k a b c bc') ->
  a = S.SPATIAL /\ b = S.SPATIAL /\ c = S.SPATIAL
  /\ bc' = (if (List.length bc =? 0)%nat then [EmptyString] else bc)
  /\ inPadding true true true bc' = true.
Proof.
  unfold Convolution, throw_if. intros H.
  destruct (negb (forged in_) || negb (forged filter_c)); [discriminate|].
  destruct (_ <? _)%nat; [discriminate|].
  destruct (methods_to_try _ _ _) as [[[s f] d]|]; cbn [bind] in H; [|discriminate].
  destruct (List.length bc =? 0)%nat eqn:Eb.
  all: repeat match type of H with
         | (if ?x then _ else _) = _ => destruct x
         end; try discriminate; inversion H; subst.
  all: repeat split; unfold inPadding; cbn [andb]; try rewrite Eb; reflexivity.
Qed.

End DispatcherPadding.

(** ** The samples a line filter reads *)

Section ReadFacts.
Context {T : Type} {ST : Sample T}.

Lemma length_as_complex (l : list T) :
  List.length (as_complex l) = Nat.div2 (List.length l).
Proof.
  revert l. fix IH 1. intros [|re [|im l]]; cbn [as_complex List.length Nat.div2].
  - reflexivity.
  - reflexivity.
  - f_equal. apply IH.
Qed.

Lemma parse_symmetry_symmetry (sym : string) (uc : bool) (n size : Z)
    (s : FilterSymmetry) :
  parse_symmetry sym uc n = Ok (s, size) ->
  1 <= n <= vector_max_size ->
  size = size_of_symmetry s n.
Proof.
  intros H Hn. unfold parse_symmetry in H.
  repeat match type of H with
         | (if ?c then _ else _) = _ => destruct c
         end;
    try discriminate; inversion H; subst; cbn [size_of_symmetry];
    rewrite ?size_folded, ?size_doubled by lia; try reflexivity;
    destruct uc; cbn [size_of_symmetry]; reflexivity.
Qed.

(** The constructor returns a well-formed filter whenever the filter has
    taps. *)
Lemma mkIntern_well_formed (f : OneDimensionalFilter T) (ud uc : bool)
    (fd : InternOneDimensionalFilter T) :
  mkInternOneDimensionalFilter f ud uc = Ok fd ->
  Z.of_nat (List.length (filter f)) <= vector_max_size ->
  i_size fd <> 0 ->
  well_formed fd.
Proof.
  unfold mkInternOneDimensionalFilter. intros H Hlen Hsz.
  destruct (stored_size f uc) as [n|m] eqn:En; cbn [bind] in H; [|discriminate].
  pose proof (stored_size_bound _ _ _ En) as Hn.
  destruct (Z.eqb_spec n 0) as [E0|E0].
  { inversion H; subst fd. cbn [i_size] in Hsz. contradiction. }
  destruct (parse_symmetry (symmetry f) uc n) as [[s size]|m] eqn:Ep;
    cbn [bind] in H; [|discriminate].
  pose proof (parse_symmetry_symmetry _ _ _ _ _ Ep ltac:(lia)) as Hs.
  pose proof (parse_symmetry_size _ _ _ _ _ Ep ltac:(lia)) as Hs3.
  assert (Hs2 : 1 <= size < uint_modulus).
  { rewrite uint_modulus_eq. rewrite vector_max_size_eq in Hlen. lia. }
  destruct (resolve_origin (origin f) size) as [o|m] eqn:Eo;
    cbn [bind] in H; [|discriminate].
  pose proof (resolve_origin_range _ _ _ Eo (proj1 Hs2)) as Ho.
  inversion H; subst fd. unfold well_formed.
  cbn [i_dataSize i_filter i_size i_symmetry i_origin].
  split; [lia|]. split; [|split; [exact Hs|split; [|lia]]].
  - unfold CopyReverseData. rewrite length_rev, length_firstn.
    unfold stored_size, throw_if in En.
    destruct (isComplex f).
    + destruct (Z.odd _) eqn:Eodd; [discriminate|].
      destruct (negb uc); [discriminate|]. inversion En; subst n.
      rewrite length_as_complex, Nat.div2_div.
      replace (Z.to_nat (Z.of_nat (List.length (filter f)) / 2))
        with (List.length (filter f) / 2)%nat
        by (rewrite <- (Nat2Z.id (_ / 2)%nat), Nat2Z.inj_div; reflexivity).
      rewrite Nat.min_id, Nat2Z.inj_div. reflexivity.
    + inversion En; subst n. rewrite Nat2Z.id, Nat.min_id. reflexivity.
  - rewrite reversed_origin by lia. lia.
Qed.

Lemma mac_general_reads (f : list T) (inp1 inp2 : Z -> T) (q : Z) (acc : T) :
  (forall k, q <= k < q + Z.of_nat (List.length f) -> inp1 k = inp2 k) ->
  mac_general f inp1 q acc = mac_general f inp2 q acc.
Proof.
  revert q acc. induction f as [|w f IH]; intros q acc H; cbn [mac_general].
  - reflexivity.
  - cbn [List.length] in H. rewrite (H q) by lia. apply IH.
    intros k Hk. apply H. lia.
Qed.

Lemma mac_folded_reads (term : T -> T -> T -> T) (f : list T) (inp1 inp2 : Z -> T)
    (r l : Z) (acc : T) :
  (forall k, r <= k < r + Z.of_nat (List.length f) -> inp1 k = inp2 k) ->
  (forall k, l - Z.of_nat (List.length f) < k <= l -> inp1 k = inp2 k) ->
  mac_folded term f inp1 r l acc = mac_folded term f inp2 r l acc.
Proof.
  revert r l acc. induction f as [|w f IH]; intros r l acc Hr Hl; cbn [mac_folded].
  - reflexivity.
  - cbn [List.length] in Hr, Hl. rewrite (Hr r), (Hl l) by lia. apply IH.
    + intros k Hk. apply Hr. lia.
    + intros k Hk. apply Hl. lia.
Qed.

Lemma line_loop_reads (sym : FilterSymmetry) (f : list T) (inp1 inp2 : Z -> T)
    (q : Z) (n : nat) :
  (forall p, q <= p < q + Z.of_nat n ->
             line_sample sym f inp1 p = line_sample sym f inp2 p) ->
  line_loop sym f inp1 q n = line_loop sym f inp2 q n.
Proof.
  revert q. induction n as [|n IH]; intros q H; cbn [line_loop].
  - reflexivity.
  - rewrite (H q) by lia. f_equal. apply IH. intros p Hp. apply H. lia.
Qed.

(** With the border of lines 348-350, a filter that is not doubled reads the
    line and its border and nothing else: two buffers that agree there give
    the same output line. *)
Lemma reads_within_border (fd : InternOneDimensionalFilter T)
    (inp1 inp2 : Z -> T) (n : nat) :
  well_formed fd -> is_doubled (i_symmetry fd) = false ->
  (forall k, - border_of fd <= k < Z.of_nat n + border_of fd -> inp1 k = inp2 k) ->
  Filter fd inp1 n = Filter fd inp2 n.
Proof.
  intros (Hds & Hlen & Hsz & Ho & Hs) Hd H.
  assert (Hb : border_of fd = Z.max (i_origin fd) (i_size fd - i_origin fd - 1)).
  { unfold border_of. rewrite (uint_small (i_size fd - i_origin fd)) by lia.
    rewrite uint_small by lia. reflexivity. }
  rewrite Hb in H. unfold Filter.
  destruct fd as [f size ds o ud uc sym].
  cbn [i_filter i_size i_dataSize i_origin i_symmetry] in *.
  destruct sym; try discriminate; cbn [size_of_symmetry] in Hsz;
    apply line_loop_reads; intros p Hp; cbn [line_sample].
  - apply mac_general_reads. intros k Hk. apply H. lia.
  - destruct f as [|c f]; [cbn in Hlen; lia|]. cbn [hd tl List.length] in *.
    rewrite (H p) by lia. apply mac_folded_reads; intros k Hk; apply H; lia.
  - destruct f as [|c f]; [cbn in Hlen; lia|]. cbn [hd tl List.length] in *.
    rewrite (H p) by lia. apply mac_folded_reads; intros k Hk; apply H; lia.
  - destruct f as [|c f]; [cbn in Hlen; lia|]. cbn [hd tl List.length] in *.
    rewrite (H p) by lia. apply mac_folded_reads; intros k Hk; apply H; lia.
Qed.

End ReadFacts.

(** * The claims on concrete inputs *)

(** C2. The doubled tags do not give the image of the full tap list. On the
    line 1 2 4 with the periodic boundary condition, the full taps {1,1}
    under "general" give 3 6 5 and the stored half {1} under "d-even" gives
    5 3 6; the full taps {1,-1} under "general" give 1 2 -3 and the stored
    half {1} under "d-odd" gives -3 1 2: the same samples, one place too
    late. *)
Theorem doubled_tags_are_one_sample_late :
  full_d_even [1] = [1; 1] /\ full_d_odd [1] = [1; -1]
  /\ SeparableConvolution line3 [taps [1; 1] "general" (-1)] ["periodic"%string] []
     = Ok (image DT_DFLOAT [3] [3; 6; 5])
  /\ SeparableConvolution line3 [taps [1] "d-even" (-1)] ["periodic"%string] []
     = Ok (image DT_DFLOAT [3] [5; 3; 6])
  /\ SeparableConvolution line3 [taps [1; -1] "general" (-1)] ["periodic"%string] []
     = Ok (image DT_DFLOAT [3] [1; 2; -3])
  /\ SeparableConvolution line3 [taps [1] "d-odd" (-1)] ["periodic"%string] []
     = Ok (image DT_DFLOAT [3] [-3; 1; 2]).
Proof. repeat split; vm_compute; reflexivity. Qed.

(** The same input under "even" and "odd", where the tags and the full taps
    agree. *)
Lemma folded_tags_agree_on_line3 :
  SeparableConvolution line3 [taps (full_even [1; 2]) "general" (-1)]
    ["periodic"%string] []
  = SeparableConvolution line3 [taps [1; 2] "even" (-1)] ["periodic"%string] []
  /\ SeparableConvolution line3 [taps (full_odd [1; 2]) "general" (-1)]
       ["periodic"%string] []
     = SeparableConvolution line3 [taps [1; 2] "odd" (-1)] ["periodic"%string] [].
Proof.
  apply (separable_even_odd_match_general line3 [] [] [1; 2] (-1)).
  rewrite vector_max_size_eq. cbn. lia.
Qed.

(** A doubled filter with its origin in the left half reads one sample
    before its border: for the stored half {1} under "d-even" with origin 0
    the border is 1, and the first output sample changes with the sample at
    position -2. *)
Lemma d_even_reads_before_border :
  exists fd,
    mkInternOneDimensionalFilter (taps [1] "d-even" 0) true false = Ok fd
    /\ border_of fd = 1
    /\ Filter fd (fun k => if k =? -2 then 1 else 0) 1 = [1]
    /\ Filter fd (fun _ => 0) 1 = [0].
Proof. eexists. repeat split. Qed.


(** C4 on a 3 x 2 image with one filter per dimension. *)
Lemma border_width_example :
  SeparableConvolution_setup image32 filters32 [] = Ok setup32
  /\ su_border setup32 = [Z.max 1 (3 - 1 - 1); Z.max 0 (3 - 0 - 1)]
  /\ (forall bc out,
        SeparableConvolution image32 filters32 bc [] = Ok out ->
        sizes out = sizes image32 /\ tensorElements out = tensorElements image32
        /\ List.length (data out) = List.length (data image32)).
Proof.
  assert (H : SeparableConvolution_setup image32 filters32 [] = Ok setup32)
    by reflexivity.
  split; [exact H|]. split; [reflexivity|].
  apply (separable_border_width_and_shape image32 filters32 [] setup32 H).
  intros f [<-|[<-|[]]]; rewrite vector_max_size_eq; cbn; lia.
Defined.

(** C5 on a 3 x 2 image with the one-tap identity filter for both
    dimensions. *)
Lemma identity_filter_example :
  SeparableConvolution_setup image32 [taps [1] "general" (-1)] [] = Ok setup_identity
  /\ su_process setup_identity = [false; false]
  /\ (forall bc out,
        (forall f, In f [taps [1] "general" (-1)] -> is_trivial_filter f) ->
        SeparableConvolution image32 [taps [1] "general" (-1)] bc [] = Ok out ->
        sizes out = sizes image32 /\ tensorElements out = tensorElements image32
        /\ data out = data image32).
Proof.
  assert (H : SeparableConvolution_setup image32 [taps [1] "general" (-1)] []
              = Ok setup_identity) by reflexivity.
  split; [exact H|]. split; [reflexivity|].
  apply (trivial_filter_is_skipped image32 _ [] setup_identity H).
Defined.

(** C6 on a binary 3 x 1 kernel. *)
Lemma binary_kernel_example :
  forged image31 = true /\ forged binary_kernel = true
  /\ DataTypes.IsBinary (dataType binary_kernel) = true
  /\ GeneralConvolution image31 binary_kernel ["add zeros"%string]
     = Ok (Call_Uniform image31 (Mirror (mkKernel binary_kernel))
             ["add zeros"%string]).
Proof.
  split; [reflexivity|]. split; [reflexivity|]. split; [reflexivity|].
  exact (proj1 (binary_kernel_is_uniform_filter image31 binary_kernel
                  ["add zeros"%string] eq_refl eq_refl eq_refl)).
Defined.

(** C7 on a 2 x 2 kernel that does not decompose and on a 3 x 1 kernel that
    does. *)
Lemma forced_separable_example :
  Convolution image32 kernel_2x2 S.SEPARABLE [] = Throw "Filter kernel not separable."
  /\ Convolution image32 kernel_3x1 S.SEPARABLE []
     = Ok (Call_SeparableConvolution image32
             [taps [1; 2; 1] "general" (-1); taps [1] "general" (-1)] []).
Proof.
  split.
  - exact (proj1 (forced_separable_throws_or_separates image32 kernel_2x2 []
                    eq_refl eq_refl (le_n 2)) eq_refl).
  - assert (Hs : SeparateFilter (expand_filter image32 kernel_3x1) <> [])
      by (vm_compute; discriminate).
    exact (proj2 (forced_separable_throws_or_separates image32 kernel_3x1 []
                    eq_refl eq_refl (le_n 2)) Hs).
Defined.

(** C8 on the doctest "testing the scan framework with singleton-expanded
    dimensions": the sum has sizes 256 x 256 and strides 1 and 0, and holds 1
    at every coordinate. *)
Lemma scan_doctest :
  Scan.ExpandSingletonDimension (Scan.Filled [256; 1] 0) 1 256 = Ok scan_img
  /\ Scan.Add scan_img (Scan.Scalar 1) = Ok scan_out
  /\ Scan.v_sizes scan_out = [256; 256]
  /\ Scan.IsSingletonExpanded scan_out = true
  /\ Scan.v_strides scan_out = [1; 0]
  /\ Scan.At scan_out [0; 0] = 1
  /\ Scan.At scan_out [50; 200] = 1
  /\ forallb (fun x => forallb (fun y => Scan.At scan_out [x; y] =? 1) (zseq 256))
       (zseq 256) = true
  /\ (forall c,
        Scan.in_range (Scan.v_sizes scan_out) c ->
        Scan.At scan_out c
        = Scan.At_broadcast scan_img (Scan.v_sizes scan_out) c
          + Scan.At_broadcast (Scan.Scalar 1) (Scan.v_sizes scan_out) c).
Proof.
  assert (H : Scan.Add scan_img (Scan.Scalar 1) = Ok scan_out)
    by (vm_compute; reflexivity).
  split; [vm_compute; reflexivity|]. split; [exact H|].
  do 5 (split; [reflexivity|]). split; [vm_compute; reflexivity|].
  exact (proj2 (proj2 (ScanFacts.scan_broadcasts_singleton_dimensions
                         sadd scan_img (Scan.Scalar 1) scan_out H))).
Defined.

(** The one-pixel line through the framework: the filter array has one
    element, the test on the size of the dimension is not reached, and the
    single pixel is filtered. *)
Lemma one_pixel_line_is_filtered :
  List.length [taps [2] "general" (-1)] = List.length (sizes pixel1)
  /\ Size pixel1 0 = 1
  /\ SeparableConvolution_setup pixel1 [taps [2] "general" (-1)] []
     = Ok {| su_dtype := DT_DFLOAT;
             su_filterData :=
               [{| i_filter := [2]; i_size := 1; i_dataSize := 1; i_origin := 0;
                   i_isDouble := true; i_isComplex := false;
                   i_symmetry := GENERAL |}];
             su_border := [0];
             su_process := [true] |}
  /\ SeparableConvolution pixel1 [taps [2] "general" (-1)] ["add zeros"%string] []
     = Ok (image DT_DFLOAT [1] [10])
  /\ data pixel1 = [5].
Proof. repeat split. Qed.


(** Beside the process flag, the filter of a dimension of size 1 still takes
    part in the checks of lines 340-342 and in the choice of the sample type
    of lines 324-332: on the 3 x 1 image an unknown symmetry tag on the second
    filter makes the call throw, and a complex second filter makes the
    output complex. *)
Lemma singleton_filter_is_still_examined :
  SeparableConvolution_setup image31
    [taps [1; 1] "general" (-1); taps [2; 3; 5] "mirrored" (-1)] []
  = Throw "Symmetry string not recognized: mirrored"
  /\ SeparableConvolution image31
       [taps [1; 1] "general" (-1); taps [2; 3; 5] "mirrored" (-1)]
       ["periodic"%string] []
     = Throw "Symmetry string not recognized: mirrored"
  /\ (exists su,
         SeparableConvolution_setup image31
           [taps [1; 1] "general" (-1); taps [2; 3; 5] "general" (-1)] [] = Ok su
         /\ su_dtype su = SuggestFlex (dataType image31))
  /\ (exists su,
         SeparableConvolution_setup image31
           [taps [1; 1] "general" (-1);
            {| filter := [2; 0]; origin := -1; symmetry := "general";
               isComplex := true |}] [] = Ok su
         /\ su_dtype su = SuggestComplex (dataType image31)
         /\ su_process su = [true; false]).
Proof.
  split; [reflexivity|]. split; [reflexivity|].
  split; eexists; repeat split; reflexivity.
Qed.

(** The branch of lines 372-378 on a 3 x 1 image with one filter per
    dimension. *)
Lemma singleton_dimension_example :
  SeparableConvolution_setup image31 filters31 [] = Ok setup31
  /\ List.length filters31 <> 1%nat
  /\ (forall ii, (ii < List.length (sizes image31))%nat -> Size image31 ii <= 1 ->
                 nth ii (su_process setup31) true = false)
  /\ SeparableConvolution image31 filters31 ["periodic"%string] []
     = Ok (image DT_DFLOAT [3; 1] [3; 6; 5]).
Proof.
  assert (H : SeparableConvolution_setup image31 filters31 [] = Ok setup31)
    by reflexivity.
  assert (Hn : List.length filters31 <> 1%nat) by discriminate.
  split; [exact H|]. split; [exact Hn|].
  split; [|vm_compute; reflexivity].
  exact (proj1 (singleton_dimension_is_skipped image31 filters31 [] setup31 H Hn)).
Defined.

(** C10 fails for a filter without taps: origin 5 is not negative and not
    below the logical size 0, and the filter is accepted. *)
Lemma empty_filter_accepts_any_origin :
  origin (taps [] "general" 5) = 5
  /\ mkInternOneDimensionalFilter (taps [] "general" 5) true false
     = Ok {| i_filter := []; i_size := 0; i_dataSize := 0; i_origin := 0;
             i_isDouble := true; i_isComplex := false; i_symmetry := GENERAL |}
  /\ SeparableConvolution line3 [taps [] "general" 5] [] [] = Ok line3.
Proof. repeat split. Qed.

(** C10 as amended, on the stored half {1,2,3} of the "even" filter
    {1,2,3,2,1}, with the default origin. *)
Lemma origin_example :
  Z.of_nat (List.length (filter (taps [1; 2; 3] "even" (-1)))) <= vector_max_size
  /\ stored_size (taps [1; 2; 3] "even" (-1)) false = Ok 3
  /\ parse_symmetry "even" false 3 = Ok (EVEN, 5)
  /\ resolve_origin (-1) 5 = Ok 2
  /\ exists fd, mkInternOneDimensionalFilter (taps [1; 2; 3] "even" (-1)) true false
                = Ok fd
                /\ i_size fd = 5 /\ i_origin fd = 5 - 5 / 2 - 1.
Proof.
  assert (Hlen : Z.of_nat (List.length (filter (taps [1; 2; 3] "even" (-1))))
                 <= vector_max_size) by (rewrite vector_max_size_eq; cbn; lia).
  split; [exact Hlen|]. split; [reflexivity|]. split; [reflexivity|].
  assert (Hn : 3 <> 0) by discriminate.
  assert (Ho : origin (taps [1; 2; 3] "even" (-1)) < 0) by reflexivity.
  exact (proj1 (proj1 (origin_is_resolved_for_filters_with_taps
                         (taps [1; 2; 3] "even" (-1)) true false 3 5 EVEN
                         Hlen eq_refl) Hn eq_refl) Ho).
Defined.

(** * Further properties of the code *)

(** ** The line filter as a convolution *)

Section LineFilterAlgebra.
Context {T : Type} {ST : Sample T}.
Local Open Scope sample_scope.

Add Ring sample_ring_line : (@sample_ring T ST).

Lemma line_loop_map (sym : FilterSymmetry) (f : list T) (inp : Z -> T) (q : Z) (n : nat) :
  line_loop sym f inp q n
  = map (fun i => line_sample sym f inp (q + i)%Z) (zseq (Z.of_nat n)).
Proof.
  unfold zseq. rewrite Nat2Z.id, map_map.
  revert q. induction n as [|n IH]; intros q; cbn [line_loop].
  - reflexivity.
  - cbn [seq map]. f_equal.
    + f_equal. lia.
    + rewrite IH, <- seq_shift, map_map. apply map_ext. intros i. f_equal. lia.
Qed.

Lemma mac_folded_conj (f : list T) (inp : Z -> T) (r l : Z) (acc : T) :
  mac_folded term_conj f inp r l acc
  = acc + (dot f inp r + rdot (map conjugate f) inp l).
Proof.
  revert r l acc. induction f as [|w f IH]; intros r l acc; simpl.
  - ring.
  - rewrite IH. unfold term_conj. ring.
Qed.





Lemma mac_general_shift (f : list T) (inp : Z -> T) (d q : Z) (acc : T) :
  mac_general f (fun k => inp (k + d)%Z) q acc = mac_general f inp (q + d)%Z acc.
Proof.
  revert q acc. induction f as [|w f IH]; intros q acc; cbn [mac_general].
  - reflexivity.
  - rewrite IH. f_equal. lia.
Qed.

Lemma mac_folded_shift (term : T -> T -> T -> T) (f : list T) (inp : Z -> T)
    (d r l : Z) (acc : T) :
  mac_folded term f (fun k => inp (k + d)%Z) r l acc
  = mac_folded term f inp (r + d)%Z (l + d)%Z acc.
Proof.
  revert r l acc. induction f as [|w f IH]; intros r l acc; cbn [mac_folded].
  - reflexivity.
  - rewrite IH. f_equal; lia.
Qed.

Lemma line_sample_shift (sym : FilterSymmetry) (f : list T) (inp : Z -> T) (d p : Z) :
  line_sample sym f (fun k => inp (k + d)%Z) p = line_sample sym f inp (p + d)%Z.
Proof.
  destruct sym; cbn [line_sample];
    rewrite ?mac_general_shift, ?mac_folded_shift; f_equal; lia.
Qed.

Lemma skipn_line_loop (sym : FilterSymmetry) (f : list T) (inp : Z -> T)
    (q : Z) (d n : nat) :
  skipn d (line_loop sym f inp q (d + n)) = line_loop sym f inp (q + Z.of_nat d)%Z n.
Proof.
  revert q. induction d as [|d IH]; intros q.
  - cbn [skipn Nat.add]. f_equal. lia.
  - cbn [Nat.add line_loop skipn]. rewrite IH. f_equal. lia.
Qed.

(** X3. The line filter commutes with translation: the line read [d]
    samples further gives the output of the longer line without its first
    [d] samples. *)
Theorem line_filter_is_shift_invariant (fd : InternOneDimensionalFilter T)
    (inp : Z -> T) (d n : nat) :
  Filter fd (fun k => inp (k + Z.of_nat d)%Z) n = skipn d (Filter fd inp (d + n)).
Proof.
  unfold Filter. rewrite skipn_line_loop.
  apply line_loop_ext. intros p. apply line_sample_shift.
Qed.

(** X1. What "general" computes: for taps [h] and the origin [o'] that the
    constructor settles on, output sample [i] is the convolution sum of
    [h[m] * in[i + o' - m]] over the taps. *)
Theorem general_filter_is_convolution (h : list T) (o : Z) (ud uc : bool)
    (inp : Z -> T) (n : nat) :
  h <> [] -> (Z.of_nat (List.length h) <= vector_max_size)%Z ->
  (o < Z.of_nat (List.length h))%Z ->
  exists fd,
    mkInternOneDimensionalFilter (real_filter h "general" o) ud uc = Ok fd
    /\ Filter fd inp n
       = map (fun i => rdot h inp (i + resolved_origin o (Z.of_nat (List.length h)))%Z)
           (zseq (Z.of_nat n)).
Proof.
  intros Hne Hlen Ho.
  assert (Hpos : (1 <= Z.of_nat (List.length h))%Z).
  { destruct h; [congruence | cbn [List.length]; lia]. }
  rewrite mkIntern_real by assumption.
  change (parse_symmetry "general" uc (Z.of_nat (List.length h)))
    with (@Ok (FilterSymmetry * Z) (GENERAL, Z.of_nat (List.length h))).
  cbn [bind fst snd].
  assert (Hr : resolve_origin o (Z.of_nat (List.length h))
               = Ok (resolved_origin o (Z.of_nat (List.length h)))).
  { unfold resolve_origin, resolved_origin, throw_if.
    destruct (Z.ltb_spec o 0); [reflexivity|].
    destruct (Z.leb_spec (Z.of_nat (List.length h)) o); [lia | reflexivity]. }
  rewrite Hr. cbn [bind]. eexists. split; [reflexivity|].
  assert (Hrange : (0 <= resolved_origin o (Z.of_nat (List.length h))
                    < Z.of_nat (List.length h))%Z).
  { apply (resolve_origin_range o); [exact Hr | lia]. }
  unfold Filter. cbn [i_origin i_symmetry i_filter].
  rewrite reversed_origin
    by (rewrite ?uint_modulus_eq; rewrite vector_max_size_eq in Hlen; lia).
  rewrite line_loop_map. apply map_ext. intros i.
  cbn [line_sample]. rewrite mac_general_dot.
  match goal with
  | |- _ + dot (rev h) inp ?q = _ =>
      replace q with ((q + Z.of_nat (List.length h)) - Z.of_nat (List.length h))%Z by lia
  end.
  rewrite dot_rev.
  match goal with
  | |- _ + rdot h inp ?a = rdot h inp ?b => replace a with b by lia
  end.
  ring.
Qed.

End LineFilterAlgebra.

(** ** The "conj" tag *)

Section ConjugateTag.
Context {T : Type} {ST : Sample T}.
Local Open Scope sample_scope.

Add Ring sample_ring_conj : (@sample_ring T ST).

(** GENERAL over [conj(rev b) ++ c :: b] is CONJ over [c :: b]. *)
Lemma conj_core (b : list T) (c : T) (inp : Z -> T) (p : Z) :
  line_sample GENERAL (map conjugate (rev b) ++ c :: b) inp (p - Z.of_nat (List.length b))
  = line_sample CONJ (c :: b) inp p.
Proof.
  cbn [line_sample hd tl].
  rewrite mac_general_dot, mac_folded_conj, dot_app, length_map, length_rev.
  rewrite map_rev.
  replace (dot (rev (map conjugate b)) inp (p - Z.of_nat (List.length b))%Z)
    with (rdot (map conjugate b) inp (p - 1)%Z)
    by (rewrite <- dot_rev, length_map; reflexivity).
  cbn [dot].
  replace (p - Z.of_nat (List.length b) + Z.of_nat (List.length b))%Z with p by lia.
  ring.
Qed.

Lemma rev_full_conj (b : list T) (c : T) :
  rev (full_conj (rev b ++ [c])) = map conjugate (rev b) ++ c :: b.
Proof.
  unfold full_conj. rewrite rev_snoc. cbn [tl].
  rewrite rev_app_distr, rev_snoc, map_rev. reflexivity.
Qed.

(** A folded filter over [c :: b] and the plain filter over the taps it
    stands for act alike. *)
Lemma folded_same_intern (left : list T -> list T) (sym : FilterSymmetry)
    (b : list T) (c : T) (og : Z) (ud uc : bool) :
  (forall b, List.length (left b) = List.length b) ->
  (forall inp p,
      line_sample GENERAL (left b ++ c :: b) inp (p - Z.of_nat (List.length b))
      = line_sample sym (c :: b) inp p) ->
  sym <> GENERAL ->
  same_filter
    {| i_filter := left b ++ c :: b; i_size := 2 * Z.of_nat (List.length b) + 1;
       i_dataSize := 2 * Z.of_nat (List.length b) + 1; i_origin := og;
       i_isDouble := ud; i_isComplex := uc; i_symmetry := GENERAL |}
    {| i_filter := c :: b; i_size := 2 * Z.of_nat (List.length b) + 1;
       i_dataSize := Z.of_nat (S (List.length b)); i_origin := og;
       i_isDouble := ud; i_isComplex := uc; i_symmetry := sym |}.
Proof.
  intros Hleft Hcore Hsym.
  split; [reflexivity|]. split; [reflexivity|]. split.
  - apply IsMeaningless_folded; [apply Hleft | reflexivity].
  - intros inp n. unfold Filter. cbn [i_origin i_symmetry i_dataSize i_filter].
    transitivity (line_loop sym (c :: b) inp (0 - og + Z.of_nat (List.length b))%Z n).
    + apply line_loop_ext. intros p. rewrite <- Hcore. f_equal. lia.
    + destruct sym; try congruence; f_equal; lia.
Qed.

Lemma even_length_cases (l : list T) :
  Nat.even (List.length l) = true ->
  Z.odd (Z.of_nat (List.length l)) = false
  /\ (Z.of_nat (List.length l) / 2 = Z.of_nat (List.length (as_complex l)))%Z.
Proof.
  intros He. rewrite length_as_complex.
  pose proof (Nat.div2_odd (List.length l)) as E.
  rewrite <- Nat.negb_even, He in E. cbn [negb Nat.b2n] in E.
  split.
  - rewrite E, Nat.add_0_r, Nat2Z.inj_mul. change (Z.of_nat 2) with 2%Z.
    rewrite Z.odd_mul. reflexivity.
  - rewrite E at 1. rewrite Nat.add_0_r, Nat2Z.inj_mul. change (Z.of_nat 2) with 2%Z.
    rewrite Z.mul_comm, Z.div_mul by lia. reflexivity.
Qed.

(** The constructor on a complex filter with an even number of values. *)
Lemma mkIntern_complex (l : list T) (sym : string) (o : Z) (ud : bool) :
  Nat.even (List.length l) = true ->
  mkInternOneDimensionalFilter (complex_filter l sym o) ud true
  = if (Z.of_nat (List.length (as_complex l)) =? 0)%Z
    then Ok {| i_filter := []; i_size := 0; i_dataSize := 0; i_origin := 0;
               i_isDouble := ud; i_isComplex := true; i_symmetry := GENERAL |}
    else
      (ss <- parse_symmetry sym true (Z.of_nat (List.length (as_complex l))) ;;
       o' <- resolve_origin o (snd ss) ;;
       Ok {| i_filter := rev (as_complex l); i_size := snd ss;
             i_dataSize := Z.of_nat (List.length (as_complex l));
             i_origin := uint (uint (snd ss - o') - 1);
             i_isDouble := ud; i_isComplex := true; i_symmetry := fst ss |}).
Proof.
  intros He. destruct (even_length_cases l He) as [Hodd Hhalf].
  unfold mkInternOneDimensionalFilter, stored_size, complex_filter, throw_if.
  cbn [isComplex filter symmetry origin negb].
  rewrite Hodd, Hhalf. cbn [bind].
  destruct (Z.eqb_spec (Z.of_nat (List.length (as_complex l))) 0) as [E|E].
  - rewrite E. reflexivity.
  - destruct (parse_symmetry sym true _) as [[s z]|m]; cbn [bind fst snd]; [|reflexivity].
    destruct (resolve_origin o z); cbn [bind]; [|reflexivity].
    rewrite CopyReverseData_all. reflexivity.
Qed.

(** X5. The "conj" tag on complex taps: the stored half [h] with "conj" and
    the full taps [h ++ conj (tl (rev h))] with "general" give filters that
    act alike (or the same error); with no complex filter in the array,
    "conj" is "even". *)
Theorem conj_tag_matches_general (l l' : list T) (o : Z) (ud : bool) :
  Nat.even (List.length l) = true -> Nat.even (List.length l') = true ->
  (Z.of_nat (List.length l) <= vector_max_size)%Z ->
  as_complex l' = full_conj (as_complex l) ->
  same_result same_filter
    (mkInternOneDimensionalFilter (complex_filter l' "general" o) ud true)
    (mkInternOneDimensionalFilter (complex_filter l "conj" o) ud true)
  /\ forall (h : list T),
       mkInternOneDimensionalFilter (real_filter h "conj" o) ud false
       = mkInternOneDimensionalFilter (real_filter h "even" o) ud false.
Proof.
  intros He He' Hlen Hfull. split; [|reflexivity].
  rewrite !mkIntern_complex by assumption. rewrite Hfull.
  assert (Hh : (Z.of_nat (List.length (as_complex l)) <= vector_max_size)%Z).
  { destruct (even_length_cases l He) as [_ <-].
    apply Z.le_trans with (Z.of_nat (List.length l)); [|exact Hlen].
    apply Z.div_le_upper_bound; lia. }
  destruct (snoc_cases (as_complex l)) as [E|(b & c & E)]; rewrite E in *.
  - cbn. apply same_filter_refl.
  - assert (Hfl : Z.of_nat (List.length (full_conj (rev b ++ [c])))
                  = (2 * Z.of_nat (List.length b) + 1)%Z).
    { rewrite <- (length_rev (full_conj _)), rev_full_conj, length_app, length_map,
        length_rev. cbn [List.length]. lia. }
    rewrite length_app, length_rev in *. cbn [List.length] in *.
    rewrite Hfl, rev_full_conj, rev_snoc.
    replace (Z.of_nat (List.length b + 1)) with (Z.of_nat (List.length b) + 1)%Z in * by lia.
    replace (2 * Z.of_nat (List.length b) + 1 =? 0)%Z with false
      by (symmetry; apply Z.eqb_neq; lia).
    replace (Z.of_nat (List.length b) + 1 =? 0)%Z with false
      by (symmetry; apply Z.eqb_neq; lia).
    change (parse_symmetry "general" true (2 * Z.of_nat (List.length b) + 1))
      with (@Ok (FilterSymmetry * Z) (GENERAL, (2 * Z.of_nat (List.length b) + 1)%Z)).
    change (parse_symmetry "conj" true (Z.of_nat (List.length b) + 1))
      with (@Ok (FilterSymmetry * Z)
              (CONJ, uint (Z.of_nat (List.length b) + 1
                           + uint (Z.of_nat (List.length b) + 1 - 1)))).
    cbn [bind fst snd].
    rewrite size_folded by lia.
    replace (2 * (Z.of_nat (List.length b) + 1) - 1)%Z
      with (2 * Z.of_nat (List.length b) + 1)%Z by lia.
    destruct (resolve_origin o (2 * Z.of_nat (List.length b) + 1)) as [o'|m];
      cbn [bind same_result]; [|reflexivity].
    replace (Z.of_nat (List.length b) + 1)%Z with (Z.of_nat (S (List.length b))) by lia.
    apply (folded_same_intern (fun b => map conjugate (rev b)) CONJ).
    + intros b0. rewrite length_map, length_rev. reflexivity.
    + apply conj_core.
    + discriminate.
Qed.

End ConjugateTag.

(** ** The arguments of the constructor and of [SeparableConvolution] *)

Section ArgumentChecks.
Context {T : Type} {ST : Sample T} {LIB : Collaborators T}.

Lemma parse_unknown (sym : string) (uc : bool) (n : Z) :
  known_symmetry sym = false ->
  parse_symmetry sym uc n = Throw ("Symmetry string not recognized: " ++ sym)%string.
Proof.
  unfold known_symmetry, parse_symmetry. cbn [existsb]. intros H.
  repeat (apply orb_false_elim in H; destruct H as [?E H]).
  rewrite E, E0, E1, E2, E3, E4, E5, E6. reflexivity.
Qed.

Lemma parse_known (sym : string) (uc : bool) (n : Z) :
  known_symmetry sym = true -> exists s size, parse_symmetry sym uc n = Ok (s, size).
Proof.
  unfold known_symmetry, parse_symmetry. cbn [existsb]. intros H.
  repeat match goal with
         | |- context [String.eqb sym ?s] => destruct (String.eqb sym s) eqn:?
         end; cbn [orb]; try (eexists; eexists; reflexivity).
  cbn [orb] in H. discriminate.
Qed.

(** X6. The symmetry tag is examined only when the filter has stored
    samples: an unknown tag then makes the constructor throw, naming the
    tag, and a known tag never does; a filter without stored samples is
    accepted with any tag. *)
Theorem symmetry_tag_is_checked_only_with_taps (f : OneDimensionalFilter T)
    (ud uc : bool) (n : Z) :
  stored_size f uc = Ok n ->
  (n <> 0 -> known_symmetry (symmetry f) = false ->
   mkInternOneDimensionalFilter f ud uc
   = Throw ("Symmetry string not recognized: " ++ symmetry f)%string)
  /\ (n <> 0 -> known_symmetry (symmetry f) = true ->
      exists s size, parse_symmetry (symmetry f) uc n = Ok (s, size)
        /\ mkInternOneDimensionalFilter f ud uc
           = (o <- resolve_origin (origin f) size ;;
              Ok {| i_filter := CopyReverseData
                                  (if isComplex f then as_complex (filter f) else filter f) n;
                    i_size := size; i_dataSize := n;
                    i_origin := uint (uint (size - o) - 1);
                    i_isDouble := ud; i_isComplex := uc; i_symmetry := s |}))
  /\ (n = 0 ->
      mkInternOneDimensionalFilter f ud uc
      = Ok {| i_filter := []; i_size := 0; i_dataSize := 0; i_origin := 0;
              i_isDouble := ud; i_isComplex := uc; i_symmetry := GENERAL |}).
Proof.
  intros Hn. unfold mkInternOneDimensionalFilter. rewrite Hn. cbn [bind].
  split; [|split].
  - intros Hne Hk. apply Z.eqb_neq in Hne. rewrite Hne, parse_unknown by exact Hk.
    reflexivity.
  - intros Hne Hk. apply Z.eqb_neq in Hne. rewrite Hne.
    destruct (parse_known (symmetry f) uc n Hk) as (s & size & Hp).
    exists s, size. split; [exact Hp|]. rewrite Hp. reflexivity.
  - intros ->. reflexivity.
Qed.




End ArgumentChecks.

(** ** The samples a filter built by the constructor reads *)

Section ReadsOfBuiltFilters.
Context {T : Type} {ST : Sample T}.

(** X4. A filter built by the constructor from "general", "even", "odd" or
    "conj" taps reads the scan line and the border of lines 345-359 on either
    side, and nothing else: two buffers that agree there give the same
    output line. *)
Theorem line_filter_reads_only_line_and_border (f : OneDimensionalFilter T)
    (ud uc : bool) (fd : InternOneDimensionalFilter T) (inp1 inp2 : Z -> T) (n : nat) :
  mkInternOneDimensionalFilter f ud uc = Ok fd ->
  Z.of_nat (List.length (filter f)) <= vector_max_size ->
  i_size fd <> 0 ->
  is_doubled (i_symmetry fd) = false ->
  (forall k, - border_of fd <= k < Z.of_nat n + border_of fd -> inp1 k = inp2 k) ->
  Filter fd inp1 n = Filter fd inp2 n.
Proof.
  intros Hfd Hlen Hsz Hd H.
  apply reads_within_border; [|exact Hd|exact H].
  apply (mkIntern_well_formed f ud uc); assumption.
Qed.

End ReadsOfBuiltFilters.

(** ** More on the Fourier path *)

Section FourierFacts.
Context {T : Type} {ST : Sample T} {LIB : Collaborators T}.

Lemma SingletonExpandedSize_same (a : list Z) : SingletonExpandedSize a a = Ok a.
Proof.
  induction a as [|x a IH]; [reflexivity|].
  cbn [SingletonExpandedSize]. rewrite IH. cbn [bind]. rewrite Z.eqb_refl. reflexivity.
Qed.

Lemma SingletonExpandedSize_smaller (a b r : list Z) :
  sizes_le b a = true -> Forall (fun s => 1 <= s) b ->
  SingletonExpandedSize a b = Ok r -> r = a.
Proof.
  unfold sizes_le. revert b r. induction a as [|x a IH]; intros [|y b] r Hle Hpos H.
  - inversion H. reflexivity.
  - discriminate.
  - discriminate.
  - cbn [all2] in Hle. apply andb_prop in Hle. destruct Hle as [Hxy Hle].
    apply Z.leb_le in Hxy. inversion Hpos as [|? ? Hy Hb]; subst.
    cbn [SingletonExpandedSize] in H.
    destruct (SingletonExpandedSize a b) as [r'|] eqn:Er; cbn [bind] in H; [|discriminate].
    rewrite (IH b r' Hle Hb Er) in H.
    destruct (Z.eqb_spec x y); [inversion H; reflexivity|].
    destruct (Z.eqb_spec x 1); [lia|].
    destruct (Z.eqb_spec y 1); [inversion H; reflexivity | discriminate].
Qed.

Lemma ExpandDimensionality_positive (sz : list Z) (n : nat) :
  Forall (fun s => 1 <= s) sz -> Forall (fun s => 1 <= s) (ExpandDimensionality sz n).
Proof.
  intros H. unfold ExpandDimensionality. apply Forall_app. split; [exact H|].
  apply Forall_forall. intros x Hx. apply repeat_spec in Hx. lia.
Qed.

(** X8. Whatever the representations and the boundary condition, the image
    that [ConvolveFT] returns has the sizes of the input image (the sizes of
    a forged kernel are at least 1). *)
Theorem ConvolveFT_output_has_input_sizes (in_ filter_ : Image T)
    (inRepresentation filterRepresentation outRepresentation : string)
    (boundaryCondition : list string) (r : FTRun) :
  ConvolveFT in_ filter_ inRepresentation filterRepresentation outRepresentation
    boundaryCondition = Ok r ->
  Forall (fun s => 1 <= s) (sizes filter_) ->
  ft_outSizes r = sizes in_.
Proof.
  intros H Hpos. unfold ConvolveFT, throw_if in H.
  destruct (negb (forged in_)); [discriminate|].
  destruct (negb (forged filter_)); [discriminate|].
  destruct (BooleanFromString inRepresentation _ _) as [inS|];
    cbn [bind] in H; [|discriminate].
  destruct (BooleanFromString filterRepresentation _ _) as [fS|];
    cbn [bind] in H; [|discriminate].
  destruct (BooleanFromString outRepresentation _ _) as [oS|];
    cbn [bind] in H; [|discriminate].
  match type of H with
  | context [sizes_le ?f (sizes in_)] =>
      assert (Hf : Forall (fun s => 1 <= s) f)
        by (destruct (_ <? _)%nat;
            [apply ExpandDimensionality_positive|]; exact Hpos);
      set (filterFT := f) in *
  end.
  destruct (sizes_le filterFT (sizes in_)) eqn:Hle; cbn [negb] in H; [|discriminate].
  destruct (inPadding inS fS oS boundaryCondition) eqn:Epad.
  - unfold inPadding in Epad. destruct inS, fS, oS; try discriminate Epad.
    destruct (padded_sizes in_ filter_) as [sz|]; cbn [bind] in H; [|discriminate].
    destruct (negb (sizes_le (sizes in_) sz)); cbn [bind] in H; [discriminate|].
    destruct (SingletonExpandedSize _ _) as [outFT|]; cbn [bind] in H; [|discriminate].
    destruct (negb (sizes_le (sizes in_) outFT)); [discriminate|].
    inversion H. reflexivity.
  - assert (Hprep : exists calls,
               (if inS then Ok ([Call_FourierTransform (sizes in_) []], sizes in_)
                else Ok ([], sizes in_))
               = @Ok (list LibraryCall * list Z) (calls, sizes in_))
      by (destruct inS; eexists; reflexivity).
    destruct Hprep as [calls Hprep]. rewrite Hprep in H. cbn [bind] in H.
    destruct (SingletonExpandedSize _ _) as [outFT|] eqn:Eo; cbn [bind] in H;
      [|discriminate].
    assert (Ho : outFT = sizes in_).
    { destruct (sizes_lt filterFT (sizes in_)).
      - rewrite SingletonExpandedSize_same in Eo. inversion Eo. reflexivity.
      - apply (SingletonExpandedSize_smaller _ filterFT); assumption. }
    destruct oS; inversion H; exact Ho.
Qed.

Lemma BooleanFromString_value (str t f : string) (b : bool) :
  BooleanFromString str t f = Ok b -> b = (str =? t)%string.
Proof.
  unfold BooleanFromString. destruct (str =? t)%string.
  - intros H. inversion H. reflexivity.
  - destruct (str =? f)%string; intros H; inversion H. reflexivity.
Qed.

(** X9. What [ConvolveFT] transforms: one forward transform for each operand
    given in the spatial domain and none for an operand given in the
    frequency domain, one sample-wise product, and one inverse transform
    when the output is asked for in the spatial domain, none otherwise.  The
    inverse transform is told that its result is real exactly when both
    operands are spatial and have a real sample type. *)
Theorem ConvolveFT_transforms_what_is_spatial (in_ filter_ : Image T)
    (inRepresentation filterRepresentation outRepresentation : string)
    (boundaryCondition : list string) (r : FTRun) :
  ConvolveFT in_ filter_ inRepresentation filterRepresentation outRepresentation
    boundaryCondition = Ok r ->
  count_calls is_forward (ft_calls r)
  = (Nat.b2n (inRepresentation =? S.SPATIAL)%string
     + Nat.b2n (filterRepresentation =? S.SPATIAL)%string)%nat
  /\ count_calls is_product (ft_calls r) = 1%nat
  /\ count_calls is_inverse (ft_calls r) = Nat.b2n (outRepresentation =? S.SPATIAL)%string
  /\ ft_real r
     = ((inRepresentation =? S.SPATIAL)%string && (filterRepresentation =? S.SPATIAL)%string
        && DataTypes.IsReal (dataType in_) && DataTypes.IsReal (dataType filter_))
  /\ ((outRepresentation =? S.SPATIAL)%string = true ->
      exists sz,
        In (Call_FourierTransform sz (S.INVERSE :: if ft_real r then [S.REAL] else []))
           (ft_calls r)).
Proof.
  intros H. unfold ConvolveFT, throw_if in H.
  destruct (negb (forged in_)); [discriminate|].
  destruct (negb (forged filter_)); [discriminate|].
  destruct (BooleanFromString inRepresentation _ _) as [inS|] eqn:E1;
    cbn [bind] in H; [|discriminate].
  destruct (BooleanFromString filterRepresentation _ _) as [fS|] eqn:E2;
    cbn [bind] in H; [|discriminate].
  destruct (BooleanFromString outRepresentation _ _) as [oS|] eqn:E3;
    cbn [bind] in H; [|discriminate].
  apply BooleanFromString_value in E1, E2, E3. rewrite <- E1, <- E2, <- E3.
  clear E1 E2 E3.
  destruct (negb (sizes_le _ _)); [discriminate|].
  unfold inPadding in *.
  destruct (negb (List.length boundaryCondition =? 0)%nat).
  all: destruct inS, fS, oS; cbn [andb] in H |- *.
  all: repeat match type of H with
         | bind (bind ?p _) _ = _ => destruct p eqn:?; cbn [bind] in H;
                                     [|try discriminate]
         | bind (if ?c then _ else _) _ = _ => destruct c eqn:?; cbn [bind] in H
         | bind ?p _ = _ => destruct p eqn:?; cbn [bind] in H; [|try discriminate]
         | (if ?c then _ else _) = _ => destruct c eqn:?
         | context [if ?c then _ else _] => destruct c eqn:?
         | (let '(_, _) := ?p in _) = _ => destruct p eqn:?
         end; try discriminate.
  all: inversion H; subst r; cbn [ft_calls ft_outSizes ft_real].
  all: repeat match goal with
         | E : Ok _ = Ok _ |- _ => inversion E; subst; clear E
         end.
  all: repeat split; try reflexivity.
  all: try (intros Hs; first [discriminate Hs | eexists; cbn; tauto]).
Qed.

End FourierFacts.

(** ** More on the dispatcher *)

Section DispatcherFacts.
Context {T : Type} {ST : Sample T} {LIB : Collaborators T}.

Lemma expand_filter_dims (in_ filter_c : Image T) :
  (List.length (sizes filter_c) <= List.length (sizes in_))%nat ->
  (List.length (sizes in_) <? List.length (sizes (expand_filter in_ filter_c)))%nat
  = false.
Proof.
  intros Hd. apply Nat.ltb_ge. unfold expand_filter.
  destruct (Nat.ltb_spec (List.length (sizes filter_c)) (List.length (sizes in_))).
  - cbn [sizes]. unfold ExpandDimensionality. rewrite length_app, repeat_length. lia.
  - exact Hd.
Qed.

(** The methods to try: never the Fourier and the direct method together. *)
Lemma methods_exclusive (in_ k : Image T) (method : string) (s f d : bool) :
  methods_to_try in_ k method = Ok (s, f, d) -> f = true -> d = false.
Proof.
  unfold methods_to_try. intros H Hf. subst f.
  repeat match type of H with
         | (if ?c then _ else _) = _ => destruct c
         end; inversion H; try reflexivity.
  match goal with E : _ = true |- _ => rewrite E end. reflexivity.
Qed.

(** X10. The Fourier and the direct method are never both among those to
    try, so the test on the number of kernel pixels of line 690 decides
    nothing: whenever the Fourier method is to be tried and the separable
    method is not or fails, [Convolution] ends in [ConvolveFT], with spatial
    representations and a boundary condition array that is not empty. *)
Theorem fourier_is_used_whenever_it_is_tried (in_ filter_c : Image T)
    (method : string) (bc : list string) (s d : bool) :
  forged in_ = true -> forged filter_c = true ->
  (List.length (sizes filter_c) <= List.length (sizes in_))%nat ->
  methods_to_try in_ (expand_filter in_ filter_c) method = Ok (s, true, d) ->
  s = false \/ SeparateFilter (expand_filter in_ filter_c) = [] ->
  d = false
  /\ Convolution in_ filter_c method bc
     = Ok (Call_ConvolveFT in_ (expand_filter in_ filter_c)
             S.SPATIAL S.SPATIAL S.SPATIAL
             (if (List.length bc =? 0)%nat then [EmptyString] else bc)).
Proof.
  intros Hf Hk Hd Hm Hs.
  assert (E : d = false) by (apply (methods_exclusive _ _ _ _ _ _ Hm); reflexivity).
  subst d. split; [reflexivity|].
  unfold Convolution, throw_if. rewrite Hf, Hk. cbn [negb orb].
  rewrite (expand_filter_dims _ _ Hd), Hm. cbn [bind negb andb orb].
  destruct Hs as [-> | Hs].
  - destruct (List.length bc =? 0)%nat; reflexivity.
  - rewrite Hs. cbn [List.length Nat.eqb negb].
    destruct s; destruct (List.length bc =? 0)%nat; reflexivity.
Qed.

(** X11. With method "best" and forged images, the kernel not of higher
    dimensionality than the image, [Convolution] always ends in one of the
    three implementations: "Filter kernel not separable." is never raised,
    a kernel that does not separate goes to the Fourier or to the direct
    method.  The implementation gets the input image, the kernel expanded
    to the dimensionality of the input, and the boundary condition. *)
Theorem best_always_selects_an_implementation (in_ filter_c : Image T)
    (bc : list string) :
  forged in_ = true -> forged filter_c = true ->
  (List.length (sizes filter_c) <= List.length (sizes in_))%nat ->
  (SeparateFilter (expand_filter in_ filter_c) <> []
   /\ Convolution in_ filter_c S.BEST bc
      = Ok (Call_SeparableConvolution in_
              (SeparateFilter (expand_filter in_ filter_c)) bc))
  \/ Convolution in_ filter_c S.BEST bc
     = Ok (Call_ConvolveFT in_ (expand_filter in_ filter_c)
             S.SPATIAL S.SPATIAL S.SPATIAL
             (if (List.length bc =? 0)%nat then [EmptyString] else bc))
  \/ Convolution in_ filter_c S.BEST bc
     = Ok (Call_GeneralConvolution in_ (expand_filter in_ filter_c) bc).
Proof.
  intros Hf Hk Hd. unfold Convolution, throw_if. rewrite Hf, Hk. cbn [negb orb].
  rewrite (expand_filter_dims _ _ Hd).
  unfold methods_to_try.
  change (S.BEST =? S.DIRECT)%string with false.
  change (S.BEST =? S.FOURIER)%string with false.
  change (S.BEST =? S.SEPARABLE)%string with false.
  change (S.BEST =? S.BEST)%string with true.
  cbv iota. cbn [bind].
  destruct (PrimFloat.ltb (timeSeparable _ _) (timeFourier _)) eqn:Es;
    destruct (PrimFloat.ltb (timeFourier _) (timeDirect _ _)) eqn:Ef;
    cbn [negb andb orb].
  all: try (destruct (SeparateFilter (expand_filter in_ filter_c)) as [|f fa] eqn:E;
            cbn [List.length Nat.eqb negb];
            [|left; split; [discriminate | reflexivity]]).
  all: right.
  all: try (left; destruct (List.length bc =? 0)%nat; reflexivity).
  all: right; reflexivity.
Qed.

(** X12. The arguments of [Convolution] and the forced methods "direct" and
    "Fourier": an image or kernel that is not forged, a kernel of higher
    dimensionality than the image and an unknown method are errors, in this
    order; "direct" ends in [GeneralConvolution] and "Fourier" in
    [ConvolveFT], and neither asks whether the kernel separates. *)
Theorem forced_direct_and_fourier (in_ filter_c : Image T) (method : string)
    (bc : list string) :
  (forged in_ = false \/ forged filter_c = false ->
   Convolution in_ filter_c method bc = Throw E.IMAGE_NOT_FORGED)
  /\ (forged in_ = true -> forged filter_c = true ->
      (List.length (sizes in_) < List.length (sizes filter_c))%nat ->
      Convolution in_ filter_c method bc = Throw E.DIMENSIONALITIES_DONT_MATCH)
  /\ (forged in_ = true -> forged filter_c = true ->
      (List.length (sizes filter_c) <= List.length (sizes in_))%nat ->
      (existsb (String.eqb method) [S.DIRECT; S.FOURIER; S.SEPARABLE; S.BEST] = false ->
       Convolution in_ filter_c method bc = Throw E.INVALID_FLAG)
      /\ Convolution in_ filter_c S.DIRECT bc
         = Ok (Call_GeneralConvolution in_ (expand_filter in_ filter_c) bc)
      /\ Convolution in_ filter_c S.FOURIER bc
         = Ok (Call_ConvolveFT in_ (expand_filter in_ filter_c)
                 S.SPATIAL S.SPATIAL S.SPATIAL
                 (if (List.length bc =? 0)%nat then [EmptyString] else bc))).
Proof.
  split; [|split].
  - intros [H|H]; unfold Convolution, throw_if; rewrite H; cbn [negb orb];
      [reflexivity | rewrite orb_true_r; reflexivity].
  - intros Hf Hk Hd. unfold Convolution, throw_if. rewrite Hf, Hk. cbn [negb orb].
    replace (_ <? _)%nat with true; [reflexivity|].
    symmetry. apply Nat.ltb_lt. unfold expand_filter.
    destruct (Nat.ltb_spec (List.length (sizes filter_c)) (List.length (sizes in_)));
      [lia | exact Hd].
  - intros Hf Hk Hd. split; [|split].
    + intros Hm. unfold Convolution, throw_if. rewrite Hf, Hk. cbn [negb orb].
      rewrite (expand_filter_dims _ _ Hd). unfold methods_to_try.
      cbn [existsb] in Hm.
      repeat (apply orb_false_elim in Hm; destruct Hm as [?E Hm]).
      rewrite E, E0, E1, E2. reflexivity.
    + unfold Convolution, throw_if. rewrite Hf, Hk. cbn [negb orb].
      rewrite (expand_filter_dims _ _ Hd).
      change (methods_to_try in_ (expand_filter in_ filter_c) S.DIRECT)
        with (@Ok (bool * bool * bool) (false, false, true)).
      reflexivity.
    + unfold Convolution, throw_if. rewrite Hf, Hk. cbn [negb orb].
      rewrite (expand_filter_dims _ _ Hd).
      change (methods_to_try in_ (expand_filter in_ filter_c) S.FOURIER)
        with (@Ok (bool * bool * bool) (false, true, false)).
      cbn [bind negb andb orb]. destruct (List.length bc =? 0)%nat; reflexivity.
Qed.

End DispatcherFacts.

(** ** The line filter of the direct method *)

Section FullLineFilter.
Context {T : Type} {ST : Sample T}.
Local Open Scope sample_scope.

Add Ring sample_ring_full : (@sample_ring T ST).

Lemma weighted_sum_consecutive (w : list T) (inp : Z -> T) (in_ k : Z) (acc : T) :
  weighted_sum (map (fun i => (Z.of_nat i + k)%Z) (seq 0 (List.length w))) w inp in_ acc
  = mac_general w inp (in_ + k)%Z acc.
Proof.
  revert k acc. induction w as [|x w IH]; intros k acc.
  - reflexivity.
  - cbn [List.length seq map weighted_sum mac_general].
    rewrite <- seq_shift, map_map.
    replace (acc + inp (in_ + (Z.of_nat 0 + k))%Z * x) with (acc + x * inp (in_ + k)%Z)
      by (replace (Z.of_nat 0 + k)%Z with k by lia; ring).
    replace (in_ + k + 1)%Z with (in_ + (k + 1))%Z by lia.
    rewrite <- (IH (k + 1)%Z).
    f_equal. apply map_ext. intros i. lia.
Qed.

(** X13. The line filter of the direct method and the "general" case of the
    separable line filter compute the same sums: with a pixel table of
    consecutive offsets [0 .. n - 1] along the line and unit stride,
    [GeneralConvolutionLineFilter] gives the output line of the GENERAL loop
    over the same weights. *)
Theorem direct_line_filter_matches_general (w : list T) (inp : Z -> T) (in_ : Z)
    (length : nat) :
  GeneralConvolutionLineFilter (zseq (Z.of_nat (List.length w))) w inp in_ 1 length
  = line_loop GENERAL w inp in_ length.
Proof.
  revert in_. induction length as [|n IH]; intros in_;
    cbn [GeneralConvolutionLineFilter line_loop].
  - reflexivity.
  - rewrite IH. f_equal. cbn [line_sample].
    unfold zseq. rewrite Nat2Z.id.
    replace in_ with (in_ + 0)%Z at 2 by lia.
    rewrite <- (weighted_sum_consecutive w inp in_ 0). f_equal.
    apply map_ext. intros i. lia.
Qed.

End FullLineFilter.

(** ** Tensor multiplication *)

Section MultiplyFacts.
Context {T : Type} {ST : Sample T}.
Local Open Scope sample_scope.
Local Coercion Z.of_nat : nat >-> Z.

Add Ring sample_ring_multiply : (@sample_ring T ST).

Lemma flat_map_seq_shift {A : Type} (f : nat -> list A) (a n : nat) :
  flat_map f (seq (S a) n) = flat_map (fun i => f (S i)) (seq a n).
Proof.
  rewrite <- seq_shift, !flat_map_concat_map, map_map. reflexivity.
Qed.

Lemma flat_map_ext_seq {A : Type} (f g : nat -> list A) (a n : nat) :
  (forall i, (a <= i)%nat -> f i = g i) -> flat_map f (seq a n) = flat_map g (seq a n).
Proof.
  revert a. induction n as [|n IH]; intros a H; cbn [seq flat_map]; [reflexivity|].
  rewrite (H a) by lia. f_equal. apply IH. intros i Hi. apply H. lia.
Qed.

Lemma map_seq_shift {A : Type} (f : nat -> A) (a n : nat) :
  map f (seq (S a) n) = map (fun i => f (S i)) (seq a n).
Proof. rewrite <- seq_shift, map_map. reflexivity. Qed.

Lemma sum_n_S (n : nat) (g : nat -> T) :
  sum_n (S n) g = g O + sum_n n (fun j => g (S j)).
Proof.
  unfold sum_n. cbn [seq fold_right]. f_equal.
  rewrite <- seq_shift. generalize (seq 0 n). intros l.
  induction l as [|j l IH]; cbn [map fold_right]; [reflexivity|].
  rewrite IH. reflexivity.
Qed.

Lemma sum_n_ext (n : nat) (g g' : nat -> T) :
  (forall j, g j = g' j) -> sum_n n g = sum_n n g'.
Proof.
  intros H. unfold sum_n. generalize (seq 0 n). intros l.
  induction l as [|j l IH]; cbn [fold_right]; [reflexivity|].
  rewrite IH, H. reflexivity.
Qed.

Lemma multiply_inner_sum (jj : nat) (lhs rhs : Z -> T) (a b da db : Z) (v : T) :
  multiply_inner jj lhs rhs a b da db v
  = v + sum_n jj (fun j : nat => lhs (a + j * da)%Z * rhs (b + j * db)%Z).
Proof.
  revert a b v. induction jj as [|jj IH]; intros a b v; cbn [multiply_inner].
  - unfold sum_n. cbn. ring.
  - rewrite IH, sum_n_S.
    rewrite (sum_n_ext jj _ (fun j : nat => lhs (a + S j * da)%Z * rhs (b + S j * db)%Z)).
    + replace (a + O * da)%Z with a by lia. replace (b + O * db)%Z with b by lia. ring.
    + intros j. f_equal; f_equal; lia.
Qed.

Lemma square_inner_sum (jj : nat) (in_ : Z -> T) (a da : Z) (v : T) :
  square_inner jj in_ a da v
  = (v + sum_n jj (fun j : nat => in_ (a + j * da)%Z * in_ (a + j * da)%Z),
     (a + jj * da)%Z).
Proof.
  revert a v. induction jj as [|jj IH]; intros a v; cbn [square_inner].
  - unfold sum_n. cbn [seq fold_right]. f_equal; [ring | lia].
  - rewrite IH, sum_n_S.
    rewrite (sum_n_ext jj _ (fun j : nat => in_ (a + S j * da)%Z * in_ (a + S j * da)%Z)).
    + replace (a + O * da)%Z with a by lia. f_equal; [ring | lia].
    + intros j. f_equal; f_equal; lia.
Qed.

(** The inner loop at the start of row [r] and column [c] is the entry
    [(r, c)] of the matrix product. *)
Lemma multiply_inner_entry (nRows nInner : nat) (lhs rhs : Z -> T)
    (L0 R0 lts rts : Z) (r c : nat) (p q : Z) :
  p = (L0 + r * lts)%Z -> q = (R0 + c * nInner * rts)%Z ->
  multiply_inner nInner lhs rhs p q (nRows * lts)%Z rts s0
  = matrix_product nInner (column_major lhs L0 lts nRows)
      (column_major rhs R0 rts nInner) r c.
Proof.
  intros -> ->. rewrite multiply_inner_sum. unfold matrix_product, column_major.
  rewrite (sum_n_ext nInner _
             (fun j : nat => lhs (L0 + (r + j * nRows) * lts)%Z
                             * rhs (R0 + (j + c * nInner) * rts)%Z)).
  - ring.
  - intros j. f_equal; f_equal; lia.
Qed.

Lemma multiply_rows_spec (row nRows nInner : nat) (lhs rhs : Z -> T)
    (lhsT rhsT outT lts rts ots : Z) :
  multiply_rows row nRows nInner lhs rhs lhsT rhsT outT lts rts ots
  = (map (fun i : nat =>
            ((outT + i * ots)%Z,
             multiply_inner nInner lhs rhs (lhsT + i * lts)%Z rhsT (nRows * lts)%Z rts s0))
       (seq 0 row),
     (outT + row * ots)%Z).
Proof.
  revert lhsT outT. induction row as [|row IH]; intros lhsT outT; cbn [multiply_rows].
  - cbn [seq map]. f_equal. lia.
  - rewrite IH. cbn [seq map]. f_equal; [|lia]. f_equal.
    + f_equal; [lia|]. f_equal. lia.
    + rewrite map_seq_shift. apply map_ext. intros i. f_equal; [lia|]. f_equal. lia.
Qed.

Lemma multiply_columns_spec (col nRows nInner : nat) (lhs rhs : Z -> T)
    (lhs_ rhsT outT lts rts ots : Z) :
  multiply_columns col nRows nInner lhs rhs lhs_ rhsT outT lts rts ots
  = flat_map (fun c : nat =>
      map (fun r : nat =>
             ((outT + (r + c * nRows) * ots)%Z,
              multiply_inner nInner lhs rhs (lhs_ + r * lts)%Z
                (rhsT + c * nInner * rts)%Z (nRows * lts)%Z rts s0))
        (seq 0 nRows))
      (seq 0 col).
Proof.
  revert rhsT outT. induction col as [|col IH]; intros rhsT outT; cbn [multiply_columns].
  - reflexivity.
  - rewrite multiply_rows_spec, IH. cbn [seq flat_map]. f_equal.
    + apply map_ext. intros r. f_equal; [lia|]. f_equal. lia.
    + rewrite flat_map_seq_shift. apply flat_map_ext. intros c.
      apply map_ext. intros r. f_equal; [lia|]. f_equal. lia.
Qed.

Lemma multiply_pixels_spec (ii nRows nColumns nInner : nat) (lhs rhs : Z -> T)
    (lhs_ rhs_ out_ : Z) (lhsB rhsB outB : ScanBufferStrides) :
  multiply_pixels ii nRows nColumns nInner lhs rhs lhs_ rhs_ out_ lhsB rhsB outB
  = flat_map (fun p : nat =>
      flat_map (fun col : nat =>
        map (fun row : nat =>
               ((out_ + p * b_stride outB + (row + col * nRows) * b_tensorStride outB)%Z,
                matrix_product nInner
                  (column_major lhs (lhs_ + p * b_stride lhsB) (b_tensorStride lhsB) nRows)
                  (column_major rhs (rhs_ + p * b_stride rhsB) (b_tensorStride rhsB) nInner)
                  row col))
          (seq 0 nRows))
        (seq 0 nColumns))
      (seq 0 ii).
Proof.
  revert lhs_ rhs_ out_. induction ii as [|ii IH]; intros lhs_ rhs_ out_;
    cbn [multiply_pixels].
  - reflexivity.
  - rewrite multiply_columns_spec, IH. cbn [seq flat_map]. f_equal.
    + apply flat_map_ext. intros c. apply map_ext. intros r. f_equal; [lia|].
      apply multiply_inner_entry; lia.
    + rewrite flat_map_seq_shift. apply flat_map_ext. intros p.
      apply flat_map_ext. intros c. apply map_ext. intros r. f_equal; [lia|].
      f_equal; f_equal; lia.
Qed.

(** X14. [MultiplyLineFilter] computes the matrix product: for pixel [ii] of
    the line, with the left operand stored column by column as an
    [nRows x nInner] matrix and the right operand as an [nInner x nColumns]
    matrix, the entry at row [row] and column [col] of the product is stored
    at position [row + col * nRows] of the output tensor, column by column,
    each entry once. *)
Theorem MultiplyLineFilter_is_matrix_product (nRows nColumns nInner : nat)
    (lhs rhs : Z -> T) (lhsB rhsB outB : ScanBufferStrides) (bufferLength : nat) :
  MultiplyLineFilter nRows nColumns nInner lhs rhs lhsB rhsB outB bufferLength
  = flat_map (fun ii : nat =>
      flat_map (fun col : nat =>
        map (fun row : nat =>
               ((ii * b_stride outB + (row + col * nRows) * b_tensorStride outB)%Z,
                matrix_product nInner
                  (column_major lhs (ii * b_stride lhsB) (b_tensorStride lhsB) nRows)
                  (column_major rhs (ii * b_stride rhsB) (b_tensorStride rhsB) nInner)
                  row col))
          (seq 0 nRows))
        (seq 0 nColumns))
      (seq 0 bufferLength).
Proof.
  unfold MultiplyLineFilter. rewrite multiply_pixels_spec.
  apply flat_map_ext. intros p. apply flat_map_ext. intros c. apply map_ext. intros r.
  f_equal.
Qed.

Lemma symmetric_diagonal_spec (col nInner : nat) (in_ : Z -> T) (inT outT its ots : Z) :
  symmetric_diagonal col nInner in_ inT outT its ots
  = (map (fun c : nat =>
            ((outT + c * ots)%Z,
             matrix_product nInner (transpose (column_major in_ inT its nInner))
               (column_major in_ inT its nInner) c c))
       (seq 0 col),
     (outT + col * ots)%Z).
Proof.
  revert inT outT. induction col as [|col IH]; intros inT outT; cbn [symmetric_diagonal].
  - cbn [seq map]. f_equal. lia.
  - rewrite square_inner_sum, IH. cbn [seq map]. f_equal; [|lia]. f_equal.
    + f_equal; [lia|]. unfold matrix_product, transpose, column_major.
      rewrite (sum_n_ext nInner _
                 (fun j : nat => in_ (inT + (j + O * nInner) * its)%Z
                                 * in_ (inT + (j + O * nInner) * its)%Z)).
      * ring.
      * intros j. f_equal; f_equal; lia.
    + rewrite map_seq_shift. apply map_ext. intros c. f_equal; [lia|].
      unfold matrix_product, transpose, column_major.
      apply sum_n_ext. intros j. f_equal; f_equal; lia.
Qed.

Lemma symmetric_rows_spec (row nInner : nat) (in_ : Z -> T)
    (lhsT rhsT outT colSkip its ots : Z) :
  symmetric_rows row nInner in_ lhsT rhsT outT colSkip its ots
  = (map (fun r : nat =>
            ((outT + r * ots)%Z,
             multiply_inner nInner in_ in_ (lhsT + r * colSkip)%Z rhsT its its s0))
       (seq 0 row),
     (outT + row * ots)%Z).
Proof.
  revert lhsT outT. induction row as [|row IH]; intros lhsT outT; cbn [symmetric_rows].
  - cbn [seq map]. f_equal. lia.
  - rewrite IH. cbn [seq map]. f_equal; [|lia]. f_equal.
    + f_equal; [lia|]. f_equal. lia.
    + rewrite map_seq_shift. apply map_ext. intros r. f_equal; [lia|]. f_equal. lia.
Qed.

Lemma symmetric_columns_spec (count col nInner : nat) (in_ : Z -> T)
    (in0 rhsT outT colSkip its ots : Z) :
  symmetric_columns count col nInner in_ in0 rhsT outT colSkip its ots
  = flat_map (fun c : nat =>
      map (fun r : nat =>
             ((outT + (triangle c - triangle col + r) * ots)%Z,
              multiply_inner nInner in_ in_ (in0 + r * colSkip)%Z
                (rhsT + (c - col) * colSkip)%Z its its s0))
        (seq 0 c))
      (seq col count).
Proof.
  revert col rhsT outT. induction count as [|count IH]; intros col rhsT outT;
    cbn [symmetric_columns].
  - reflexivity.
  - rewrite symmetric_rows_spec, IH. cbn [seq flat_map]. f_equal.
    + apply map_ext. intros r. f_equal; [lia|]. f_equal. lia.
    + apply flat_map_ext. intros c. apply map_ext. intros r.
      cbn [triangle]. f_equal; [lia|]. f_equal. lia.
Qed.

Lemma gram_entry (nInner : nat) (in_ : Z -> T) (in0 its : Z) (r c : nat) (p q : Z) :
  p = (in0 + r * (nInner * its))%Z -> q = (in0 + c * (nInner * its))%Z ->
  multiply_inner nInner in_ in_ p q its its s0
  = matrix_product nInner (transpose (column_major in_ in0 its nInner))
      (column_major in_ in0 its nInner) r c.
Proof.
  intros -> ->. rewrite multiply_inner_sum. unfold matrix_product, transpose, column_major.
  rewrite (sum_n_ext nInner _
             (fun j : nat => in_ (in0 + (j + r * nInner) * its)%Z
                             * in_ (in0 + (j + c * nInner) * its)%Z)).
  - ring.
  - intros j. f_equal; f_equal; lia.
Qed.

Lemma symmetric_pixels_spec (ii nOuter nInner : nat) (in_ : Z -> T) (in0 out0 : Z)
    (inB outB : ScanBufferStrides) :
  symmetric_pixels ii nOuter nInner in_ in0 out0 inB outB
  = flat_map (fun p : nat =>
      let A := column_major in_ (in0 + p * b_stride inB) (b_tensorStride inB) nInner in
      let G := matrix_product nInner (transpose A) A in
      let at_ (k : nat) := (out0 + p * b_stride outB + k * b_tensorStride outB)%Z in
      map (fun c : nat => (at_ c, G c c)) (seq 0 nOuter)
      ++ flat_map (fun col : nat =>
           map (fun row : nat => (at_ (nOuter + triangle col + row)%nat, G row col))
             (seq 0 col))
           (seq 1 (nOuter - 1)))
      (seq 0 ii).
Proof.
  revert in0 out0. induction ii as [|ii IH]; intros in0 out0; cbn [symmetric_pixels].
  - reflexivity.
  - rewrite symmetric_diagonal_spec, symmetric_columns_spec, IH.
    cbn [seq flat_map]. cbv zeta. f_equal.
    + f_equal.
      * apply map_ext. intros c. f_equal; [lia|].
        unfold matrix_product, transpose, column_major.
        apply sum_n_ext. intros j. f_equal; f_equal; lia.
      * apply flat_map_ext. intros c. apply map_ext. intros r.
        cbn [triangle]. f_equal; [lia|].
        rewrite (gram_entry nInner in_ in0 (b_tensorStride inB) r c) by lia.
        unfold matrix_product, transpose, column_major.
        apply sum_n_ext. intros j. f_equal; f_equal; lia.
    + rewrite flat_map_seq_shift. apply flat_map_ext. intros p. f_equal.
      * apply map_ext. intros c. f_equal; [lia|].
        unfold matrix_product, transpose, column_major.
        apply sum_n_ext. intros j. f_equal; f_equal; lia.
      * apply flat_map_ext. intros c. apply map_ext. intros r. f_equal; [lia|].
        unfold matrix_product, transpose, column_major.
        apply sum_n_ext. intros j. f_equal; f_equal; lia.
Qed.

(** X15. [MultiplySymmetricLineFilter] computes the product of a matrix with
    its own transpose: for pixel [ii], with the operand [A] stored column by
    column as an [nInner x nOuter] matrix, the output holds the entries of
    [transpose A * A] in the order of a symmetric tensor, the [nOuter]
    diagonal entries first and then the entries above the diagonal column by
    column, entry [(row, col)] at position
    [nOuter + col * (col - 1) / 2 + row]. *)
Theorem MultiplySymmetricLineFilter_is_gram_matrix (nOuter nInner : nat)
    (in_ : Z -> T) (inB outB : ScanBufferStrides) (bufferLength : nat) :
  MultiplySymmetricLineFilter nOuter nInner in_ inB outB bufferLength
  = flat_map (fun ii : nat =>
      let A := column_major in_ (ii * b_stride inB) (b_tensorStride inB) nInner in
      let G := matrix_product nInner (transpose A) A in
      let at_ (k : nat) := (ii * b_stride outB + k * b_tensorStride outB)%Z in
      map (fun c : nat => (at_ c, G c c)) (seq 0 nOuter)
      ++ flat_map (fun col : nat =>
           map (fun row : nat => (at_ (nOuter + triangle col + row)%nat, G row col))
             (seq 0 col))
           (seq 1 (nOuter - 1)))
      (seq 0 bufferLength)
  /\ (forall n : nat, (2 * triangle n = n * (n - 1))%nat)
  /\ (forall (A : nat -> nat -> T) (r c : nat),
        matrix_product nInner (transpose A) A r c
        = matrix_product nInner (transpose A) A c r).
Proof.
  split; [|split].
  - unfold MultiplySymmetricLineFilter. rewrite symmetric_pixels_spec.
    apply flat_map_ext. intros p. cbv zeta. f_equal.
  - induction n as [|n IH]; [reflexivity|]. cbn [triangle].
    destruct n as [|n]; [reflexivity|]. cbn [triangle] in *. nia.
  - intros A r c. unfold matrix_product, transpose. apply sum_n_ext. intros j. ring.
Qed.


Lemma diagonal_full_rows_spec (m : nat) (lhs rhs : Z -> T) (lhsR rhsT outR lrs ors : Z) :
  diagonal_full_rows m lhs rhs lhsR rhsT outR lrs ors
  = map (fun i : nat => ((outR + i * ors)%Z, lhs (lhsR + i * lrs)%Z * rhs rhsT))
      (seq 0 m).
Proof.
  revert lhsR outR. induction m as [|m IH]; intros lhsR outR; cbn [diagonal_full_rows].
  - reflexivity.
  - rewrite IH. cbn [seq map]. f_equal.
    + f_equal; [lia|]. f_equal. f_equal. lia.
    + rewrite map_seq_shift. apply map_ext. intros i. f_equal; [lia|].
      f_equal. f_equal. lia.
Qed.

Lemma diagonal_full_columns_spec (n M : nat) (lhs rhs : Z -> T)
    (lhsC rhsT outC lrs lcs rts ors ocs : Z) :
  diagonal_full_columns n M lhs rhs lhsC rhsT outC lrs lcs rts ors ocs
  = flat_map (fun c : nat =>
      map (fun r : nat =>
             ((outC + r * ors + c * ocs)%Z,
              lhs (lhsC + r * lrs + c * lcs)%Z * rhs (rhsT + c * rts)%Z))
        (seq 0 M))
      (seq 0 n).
Proof.
  revert lhsC rhsT outC. induction n as [|n IH]; intros lhsC rhsT outC;
    cbn [diagonal_full_columns].
  - reflexivity.
  - rewrite diagonal_full_rows_spec, IH. cbn [seq flat_map]. f_equal.
    + apply map_ext. intros r. f_equal; [lia|]. f_equal; f_equal; lia.
    + rewrite flat_map_seq_shift. apply flat_map_ext. intros c.
      apply map_ext. intros r. f_equal; [lia|]. f_equal; f_equal; lia.
Qed.

Lemma diagonal_full_pixels_spec (ii N M : nat) (lhs rhs : Z -> T) (lhs_ rhs_ out_ : Z)
    (lrs lcs rts ors ocs : Z) (lhsB rhsB outB : ScanBufferStrides) :
  diagonal_full_pixels ii N M lhs rhs lhs_ rhs_ out_ lrs lcs rts ors ocs lhsB rhsB outB
  = flat_map (fun p : nat =>
      flat_map (fun c : nat =>
        map (fun r : nat =>
               ((out_ + p * b_stride outB + r * ors + c * ocs)%Z,
                lhs (lhs_ + p * b_stride lhsB + r * lrs + c * lcs)%Z
                * rhs (rhs_ + p * b_stride rhsB + c * rts)%Z))
          (seq 0 M))
        (seq 0 N))
      (seq 0 ii).
Proof.
  revert lhs_ rhs_ out_. induction ii as [|ii IH]; intros lhs_ rhs_ out_;
    cbn [diagonal_full_pixels].
  - reflexivity.
  - rewrite diagonal_full_columns_spec, IH. cbn [seq flat_map]. f_equal.
    + apply flat_map_ext. intros c. apply map_ext. intros r. f_equal; [lia|].
      f_equal; f_equal; lia.
    + rewrite flat_map_seq_shift. apply flat_map_ext. intros p.
      apply flat_map_ext. intros c. apply map_ext. intros r. f_equal; [lia|].
      f_equal; f_equal; lia.
Qed.

Lemma diagonal_head_spec (m : nat) (lhs rhs : Z -> T) (lhsT rhsT outT lts rts ots : Z) :
  diagonal_head m lhs rhs lhsT rhsT outT lts rts ots
  = (map (fun i : nat =>
            ((outT + i * ots)%Z, lhs (lhsT + i * lts)%Z * rhs (rhsT + i * rts)%Z))
       (seq 0 m),
     ((lhsT + m * lts)%Z, (outT + m * ots)%Z)).
Proof.
  revert lhsT rhsT outT. induction m as [|m IH]; intros lhsT rhsT outT;
    cbn [diagonal_head].
  - cbn [seq map]. f_equal. f_equal; lia.
  - rewrite IH. cbn [seq map]. f_equal; [|f_equal; lia]. f_equal.
    + f_equal; [lia|]. f_equal; f_equal; lia.
    + rewrite map_seq_shift. apply map_ext. intros i. f_equal; [lia|].
      f_equal; f_equal; lia.
Qed.

Lemma diagonal_upper_rows_spec (m : nat) (lhs rhs : Z -> T) (lhsT rhsT outT lts ots : Z) :
  diagonal_upper_rows m lhs rhs lhsT rhsT outT lts ots
  = (map (fun i : nat => ((outT + i * ots)%Z, lhs (lhsT + i * lts)%Z * rhs rhsT))
       (seq 0 m),
     ((lhsT + m * lts)%Z, (outT + m * ots)%Z)).
Proof.
  revert lhsT outT. induction m as [|m IH]; intros lhsT outT; cbn [diagonal_upper_rows].
  - cbn [seq map]. f_equal. f_equal; lia.
  - rewrite IH. cbn [seq map]. f_equal; [|f_equal; lia]. f_equal.
    + f_equal; [lia|]. f_equal; f_equal; lia.
    + rewrite map_seq_shift. apply map_ext. intros i. f_equal; [lia|].
      f_equal; f_equal; lia.
Qed.

Lemma diagonal_upper_spec (count n : nat) (lhs rhs : Z -> T)
    (lhsT rhsT outT lts rts ots : Z) :
  diagonal_upper count n lhs rhs lhsT rhsT outT lts rts ots
  = flat_map (fun c : nat =>
      map (fun r : nat =>
             ((outT + (triangle c - triangle n + r) * ots)%Z,
              lhs (lhsT + (triangle c - triangle n + r) * lts)%Z
              * rhs (rhsT + (c - n) * rts)%Z))
        (seq 0 c))
      (seq n count).
Proof.
  revert n lhsT rhsT outT. induction count as [|count IH]; intros n lhsT rhsT outT;
    cbn [diagonal_upper].
  - reflexivity.
  - rewrite diagonal_upper_rows_spec, IH. cbn [seq flat_map]. f_equal.
    + apply map_ext. intros r. f_equal; [lia|]. f_equal; f_equal; lia.
    + apply flat_map_ext. intros c. apply map_ext. intros r.
      cbn [triangle]. f_equal; [lia|]. f_equal; f_equal; lia.
Qed.

Lemma diagonal_symmetric_pixels_spec (ii N : nat) (lhs rhs : Z -> T) (lhs_ rhs_ out_ : Z)
    (lhsB rhsB outB : ScanBufferStrides) :
  diagonal_symmetric_pixels ii N lhs rhs lhs_ rhs_ out_ lhsB rhsB outB
  = flat_map (fun p : nat =>
      let element (k : nat) :=
        lhs (lhs_ + p * b_stride lhsB + k * b_tensorStride lhsB)%Z in
      let diagonal (k : nat) :=
        rhs (rhs_ + p * b_stride rhsB + k * b_tensorStride rhsB)%Z in
      let at_ (k : nat) := (out_ + p * b_stride outB + k * b_tensorStride outB)%Z in
      map (fun m : nat => (at_ m, element m * diagonal m)) (seq 0 N)
      ++ flat_map (fun n : nat =>
           map (fun m : nat =>
                  (at_ (N + triangle n + m)%nat,
                   element (N + triangle n + m)%nat * diagonal (n - 1)%nat))
             (seq 0 n))
           (seq 1 (N - 1)))
      (seq 0 ii).
Proof.
  revert lhs_ rhs_ out_. induction ii as [|ii IH]; intros lhs_ rhs_ out_;
    cbn [diagonal_symmetric_pixels].
  - reflexivity.
  - rewrite diagonal_head_spec, diagonal_upper_spec, IH.
    cbn [seq flat_map]. cbv zeta. f_equal.
    + f_equal.
      * apply map_ext. intros m. f_equal; [lia|]. f_equal; f_equal; lia.
      * apply flat_map_ext_seq. intros c Hc.
        apply map_ext. intros r. cbn [triangle].
        rewrite (Nat2Z.inj_sub c 1) by lia. f_equal; [lia|].
        f_equal; f_equal; lia.
    + rewrite flat_map_seq_shift. apply flat_map_ext. intros p. f_equal.
      * apply map_ext. intros m. f_equal; [lia|]. f_equal; f_equal; lia.
      * apply flat_map_ext. intros c. apply map_ext. intros r. f_equal; [lia|].
        f_equal; f_equal; lia.
Qed.

(** X16. [MultiplyDiagonalLineFilter], full case: every column of the left
    operand is multiplied by the element of the diagonal operand of that
    column, entry [(m, n)] of the result being [lhs (m, n) * rhs (n)]; the
    left operand is read column by column with normal order and row by row
    without, and the result is stored column by column, or row by row when
    the output is to be transposed.  Symmetric case, as the code has it: the
    [N] diagonal elements are multiplied by their own diagonal element, and
    the elements above the diagonal in column [n] by diagonal element
    [n - 1]. *)
Theorem MultiplyDiagonalLineFilter_scales_columns (N M : nat)
    (hasNormalOrder transposeOutput : bool) (lhs rhs : Z -> T)
    (lhsB rhsB outB : ScanBufferStrides) (bufferLength : nat) :
  MultiplyDiagonalLineFilter N M false hasNormalOrder transposeOutput lhs rhs
    lhsB rhsB outB bufferLength
  = flat_map (fun ii : nat =>
      let L := if hasNormalOrder
               then column_major lhs (ii * b_stride lhsB) (b_tensorStride lhsB) M
               else row_major lhs (ii * b_stride lhsB) (b_tensorStride lhsB) N in
      flat_map (fun n : nat =>
        map (fun m : nat =>
               ((ii * b_stride outB
                 + (if transposeOutput then m * N + n else m + n * M)
                   * b_tensorStride outB)%Z,
                L m n * rhs (ii * b_stride rhsB + n * b_tensorStride rhsB)%Z))
          (seq 0 M))
        (seq 0 N))
      (seq 0 bufferLength)
  /\ MultiplyDiagonalLineFilter N M true hasNormalOrder transposeOutput lhs rhs
       lhsB rhsB outB bufferLength
     = flat_map (fun ii : nat =>
         let element (k : nat) := lhs (ii * b_stride lhsB + k * b_tensorStride lhsB)%Z in
         let diagonal (k : nat) := rhs (ii * b_stride rhsB + k * b_tensorStride rhsB)%Z in
         let at_ (k : nat) := (ii * b_stride outB + k * b_tensorStride outB)%Z in
         map (fun m : nat => (at_ m, element m * diagonal m)) (seq 0 N)
         ++ flat_map (fun n : nat =>
              map (fun m : nat =>
                     (at_ (N + triangle n + m)%nat,
                      element (N + triangle n + m)%nat * diagonal (n - 1)%nat))
                (seq 0 n))
              (seq 1 (N - 1)))
         (seq 0 bufferLength).
Proof.
  split.
  - unfold MultiplyDiagonalLineFilter. cbv zeta. rewrite diagonal_full_pixels_spec.
    apply flat_map_ext. intros p. apply flat_map_ext. intros c. apply map_ext. intros r.
    unfold column_major, row_major.
    destruct hasNormalOrder, transposeOutput; (f_equal; [lia|]); f_equal; f_equal; lia.
  - unfold MultiplyDiagonalLineFilter. rewrite diagonal_symmetric_pixels_spec.
    apply flat_map_ext. intros p. cbv zeta. f_equal.
Qed.

End MultiplyFacts.

(** ** The bindings of the viewer *)

Section ViewerFacts.

Lemma toIndex_from_Ok (str : string) (options : list string) (idx : Z) (count : nat)
    (i : Z) :
  toIndex_from str options idx count = Ok i ->
  idx <= i < idx + Z.of_nat count
  /\ nth (Z.to_nat i) options EmptyString = str.
Proof.
  revert idx. induction count as [|count IH]; intros idx H; cbn [toIndex_from] in H.
  - discriminate.
  - destruct (String.eqb_spec (nth (Z.to_nat idx) options EmptyString) str) as [E|E].
    + inversion H; subst i. split; [lia | exact E].
    + destruct (IH _ H) as [Hr Hn]. split; [lia | exact Hn].
Qed.

Lemma toIndex_from_Throw (str : string) (options : list string) (idx : Z) (count : nat) :
  0 <= idx -> ~ In str options ->
  Z.of_nat (List.length options) = idx + Z.of_nat count ->
  toIndex_from str options idx count = Throw E.INVALID_FLAG.
Proof.
  revert idx. induction count as [|count IH]; intros idx Hi Hn Hl; cbn [toIndex_from].
  - reflexivity.
  - destruct (String.eqb_spec (nth (Z.to_nat idx) options EmptyString) str) as [E|E].
    + exfalso. apply Hn. rewrite <- E. apply nth_In. lia.
    + apply IH; [lia | exact Hn | lia].
Qed.

Lemma toIndex_from_first (options : list string) (idx : Z) (count : nat) (i : Z) :
  NoDup options -> 0 <= idx <= i -> i < idx + Z.of_nat count ->
  idx + Z.of_nat count <= Z.of_nat (List.length options) ->
  toIndex_from (nth (Z.to_nat i) options EmptyString) options idx count = Ok i.
Proof.
  intros Hnd. revert idx. induction count as [|count IH]; intros idx Hi Hc Hl;
    cbn [toIndex_from].
  - lia.
  - destruct (String.eqb_spec (nth (Z.to_nat idx) options EmptyString)
                (nth (Z.to_nat i) options EmptyString)) as [E|E].
    + f_equal. apply (proj1 (NoDup_nth options EmptyString) Hnd) in E; lia.
    + apply IH; [|lia|lia].
      assert (idx <> i) by (intros ->; apply E; reflexivity). lia.
Qed.

(** X17. [toIndex] and [toString] on an array of [n] names: an index that
    [toIndex] returns is inside the array and [toString] gives the name
    back; with names that are all different every index inside the array
    comes back from its name; a name that is not in the array is an invalid
    flag and an index at or beyond [n] is out of range. *)
Theorem toString_toIndex_round_trip (options : list string) (n : Z) :
  n = Z.of_nat (List.length options) ->
  (forall str idx, toIndex str options n = Ok idx ->
                   0 <= idx < n /\ toString idx options n = Ok str)
  /\ (NoDup options ->
      forall idx, 0 <= idx < n ->
        exists str, toString idx options n = Ok str /\ toIndex str options n = Ok idx)
  /\ (forall str, ~ In str options -> toIndex str options n = Throw E.INVALID_FLAG)
  /\ (forall idx, n <= idx -> toString idx options n = Throw EX.INDEX_OUT_OF_RANGE).
Proof.
  intros ->. unfold toIndex, toString, throw_if. rewrite Nat2Z.id.
  split; [|split; [|split]].
  - intros str idx H. apply toIndex_from_Ok in H. destruct H as [Hr Hn].
    split; [lia|]. destruct (Z.leb_spec (Z.of_nat (List.length options)) idx); [lia|].
    rewrite Hn. reflexivity.
  - intros Hnd idx Hi. eexists.
    destruct (Z.leb_spec (Z.of_nat (List.length options)) idx); [lia|].
    split; [reflexivity|]. apply toIndex_from_first; [exact Hnd | lia | lia | lia].
  - intros str Hn. apply toIndex_from_Throw; [lia | exact Hn | lia].
  - intros idx Hi. destruct (Z.leb_spec (Z.of_nat (List.length options)) idx);
      [reflexivity | lia].
Qed.

(** X18. The setter of "dims" on success: the stored array has four
    entries, each -1 or the index of a dimension of the image; the entries
    given are kept in place and the others are -1, except that with three
    entries given the fourth repeats the third; among the entries given no
    dimension is named twice. *)
Theorem set_dims_result (nDims : Z) (dims newdims : list Z) :
  set_dims nDims dims = Ok newdims -> 0 <= nDims ->
  List.length newdims = 4%nat
  /\ (List.length dims <= 4)%nat
  /\ Forall (fun d => -1 <= d < nDims) newdims
  /\ firstn (List.length dims) newdims = dims
  /\ skipn (List.length dims) newdims
     = (if (List.length dims =? 3)%nat then [nth 2 dims 0]
        else repeat (-1) (4 - List.length dims))
  /\ (forall i j, (i < j < List.length dims)%nat ->
                  nth i dims 0 = nth j dims 0 -> nth i dims 0 = -1).
Proof.
  intros H Hn. unfold set_dims, throw_if in H.
  destruct dims as [|a [|b [|c [|d [|e l]]]]]; cbn [List.length Nat.ltb Nat.leb] in H;
    [ | | | | | discriminate].
  all: cbn [existsb orb copy_dims seq nth List.length throw_if bind] in H.
  all: unfold throw_if in H; cbn [existsb orb andb negb bind nth] in H.
  all: repeat (match type of H with
               | context [Z.ltb ?x ?y] => destruct (Z.ltb x y) eqn:?
               | context [Z.leb ?x ?y] => destruct (Z.leb x y) eqn:?
               | context [Z.eqb ?x ?y] => destruct (Z.eqb x y) eqn:?
               end; cbn [orb andb negb bind] in H; try discriminate H).
  all: repeat match goal with
         | E : Z.ltb _ _ = false |- _ => apply Z.ltb_ge in E
         | E : Z.leb _ _ = false |- _ => apply Z.leb_gt in E
         | E : Z.eqb _ _ = true |- _ => apply Z.eqb_eq in E
         | E : Z.eqb _ _ = false |- _ => apply Z.eqb_neq in E
         end.
  all: inversion H; subst newdims; clear H.
  all: cbn [List.length Nat.eqb firstn skipn repeat Nat.sub Scan.set_nth nth].
  all: split; [reflexivity|]; split; [lia|];
    split; [repeat constructor; lia|]; split; [reflexivity|]; split; [reflexivity|].
  all: intros i j Hij;
    repeat match goal with
           | i : nat |- _ =>
               destruct i as [|i]; cbn [nth]; try lia; try (intros; lia)
           end.
Qed.



Lemma cyclic_self (labels : list ascii) : cyclic labels labels.
Proof.
  split.
  - exists 1%nat. lia.
  - intros i d Hi. rewrite Nat.mod_small by exact Hi. reflexivity.
Qed.

Lemma cyclic_double (labels l : list ascii) : cyclic labels l -> cyclic labels (l ++ l).
Proof.
  intros [[k Hk] Hn]. split.
  - exists (2 * k)%nat. rewrite length_app. lia.
  - intros i d Hi. rewrite length_app in Hi.
    destruct (Nat.ltb_spec i (List.length l)) as [Hlt|Hge].
    + rewrite app_nth1 by exact Hlt. apply Hn. exact Hlt.
    + rewrite app_nth2 by exact Hge. rewrite Hn by lia. f_equal.
      replace i with (i - List.length l + k * List.length labels)%nat at 2 by lia.
      rewrite Nat.Div0.mod_add. reflexivity.
Qed.

Lemma extend_labels_ends (labels : list ascii) (nDims fuel : nat) (l : list ascii) :
  cyclic labels l -> (nDims <= List.length l * 2 ^ fuel)%nat ->
  exists r, extend_labels fuel l nDims = Some r
            /\ cyclic labels r /\ (nDims <= List.length r)%nat
            /\ ((nDims <= List.length l)%nat -> r = l).
Proof.
  revert l. induction fuel as [|fuel IH]; intros l Hc Hb.
  - cbn [extend_labels]. cbn [Nat.pow] in Hb.
    destruct (Nat.ltb_spec (List.length l) nDims); [lia|].
    exists l. auto.
  - cbn [extend_labels].
    destruct (Nat.ltb_spec (List.length l) nDims) as [Hlt|Hge].
    + destruct (IH (l ++ l) (cyclic_double _ _ Hc)) as (r & Hr & Hcr & Hlr & _).
      { rewrite length_app. cbn [Nat.pow] in Hb. lia. }
      exists r. split; [exact Hr|]. split; [exact Hcr|]. split; [exact Hlr|]. lia.
    + exists l. auto.
Qed.

Lemma extend_labels_empty (fuel nDims : nat) :
  (0 < nDims)%nat -> extend_labels fuel [] nDims = None.
Proof.
  intros Hn. induction fuel as [|fuel IH]; cbn [extend_labels List.length app].
  - destruct (Nat.ltb_spec 0 nDims); [reflexivity | lia].
  - destruct (Nat.ltb_spec 0 nDims); [exact IH | lia].
Qed.

(** X19. What [Show] does to the options of a new window when the bindings
    do not reverse dimensions.  With labels that are not empty the loop that
    lengthens them ends ([nDims] rounds are more than enough), the
    dimensions shown are those of lines 162-169, and the first [nDims]
    labels come out in reverse order, label [i] being label
    [nDims - 1 - i] of the given labels repeated cyclically; labels that are
    long enough are not lengthened.  With empty labels and an image of at
    least one dimension the loop never ends.  When the bindings reverse
    dimensions nothing is changed. *)
Theorem Show_reverses_the_labels (nDims : nat) (dims : list Z) (labels : list ascii) :
  labels <> [] ->
  (exists l,
      Show_options false nDims nDims dims labels = Some (show_dims nDims, l)
      /\ (nDims <= List.length l)%nat
      /\ (forall i d, (i < nDims)%nat ->
                      nth i l d = nth ((nDims - 1 - i) mod List.length labels) labels d)
      /\ ((nDims <= List.length labels)%nat -> l = reverse_labels labels nDims))
  /\ (forall fuel, Show_options true fuel nDims dims labels = Some (dims, labels))
  /\ (forall fuel, (0 < nDims)%nat -> Show_options false fuel nDims dims [] = None).
Proof.
  intros Hne. split; [|split].
  - assert (Hpos : (1 <= List.length labels)%nat).
    { destruct labels; [congruence | cbn [List.length]; lia]. }
    destruct (extend_labels_ends labels nDims nDims labels (cyclic_self labels))
      as (r & Hr & [_ Hc] & Hl & Hsame).
    { pose proof (Nat.pow_gt_lin_r 2 nDims ltac:(lia)). nia. }
    exists (reverse_labels r nDims). unfold Show_options. cbn [negb]. rewrite Hr.
    split; [reflexivity|].
    assert (Hf : List.length (firstn nDims r) = nDims)
      by (rewrite length_firstn; lia).
    split; [|split].
    + unfold reverse_labels. rewrite length_app, length_rev, Hf, length_skipn. lia.
    + intros i d Hi. unfold reverse_labels.
      rewrite app_nth1 by (rewrite length_rev, Hf; exact Hi).
      rewrite rev_nth by (rewrite Hf; exact Hi). rewrite Hf.
      rewrite nth_firstn.
      destruct (Nat.ltb_spec (nDims - S i) nDims); [|lia].
      rewrite Hc by lia. f_equal. f_equal. lia.
    + intros Hlong. rewrite (Hsame Hlong). reflexivity.
  - intros fuel. reflexivity.
  - intros fuel Hn. unfold Show_options. cbn [negb].
    rewrite extend_labels_empty by exact Hn. reflexivity.
Qed.

End ViewerFacts.

(** ** Deconvolution *)

Section DeconvolutionFacts.
Context {T : Type} {ST : Sample T} {DL : DeconvolutionLibrary T}.

Lemma ictm_options_known (options : list string) (isOtf simple : bool) :
  forallb (fun o => (o =? "OTF")%string || (o =? "simple")%string) options = true ->
  ictm_options options isOtf simple
  = Ok (isOtf || existsb (fun o => (o =? "OTF")%string) options,
        simple || existsb (fun o => (o =? "simple")%string) options).
Proof.
  revert isOtf simple. induction options as [|o options IH]; intros isOtf simple H;
    cbn [ictm_options existsb forallb] in *.
  - rewrite !orb_false_r. reflexivity.
  - apply andb_prop in H. destruct H as [Ho H].
    destruct (String.eqb_spec o "OTF") as [->|E1].
    + rewrite IH by exact H. cbn [String.eqb Ascii.eqb Bool.eqb andb orb].
      rewrite !orb_true_r. reflexivity.
    + destruct (String.eqb_spec o "simple") as [->|E2]; [|discriminate Ho].
      rewrite IH by exact H. cbn [orb]. rewrite !orb_true_r. reflexivity.
Qed.

Lemma ictm_options_unknown (options : list string) (isOtf simple : bool) :
  forallb (fun o => (o =? "OTF")%string || (o =? "simple")%string) options = false ->
  ictm_options options isOtf simple = Throw E.INVALID_FLAG.
Proof.
  revert isOtf simple. induction options as [|o options IH]; intros isOtf simple H;
    cbn [ictm_options forallb] in *.
  - discriminate.
  - destruct (o =? "OTF")%string; [apply IH; exact H|].
    destruct (o =? "simple")%string; [apply IH; exact H | reflexivity].
Qed.

Lemma rl_options_known (options : list string) (isOtf : bool) :
  forallb (fun o => (o =? "OTF")%string) options = true ->
  rl_options options isOtf = Ok (isOtf || negb (List.length options =? 0)%nat).
Proof.
  revert isOtf. induction options as [|o options IH]; intros isOtf H;
    cbn [rl_options forallb List.length Nat.eqb negb] in *.
  - rewrite orb_false_r. reflexivity.
  - apply andb_prop in H. destruct H as [Ho H]. rewrite Ho, IH by exact H.
    cbn [orb]. rewrite orb_true_r. reflexivity.
Qed.

Lemma rl_options_unknown (options : list string) (isOtf : bool) :
  forallb (fun o => (o =? "OTF")%string) options = false ->
  rl_options options isOtf = Throw E.INVALID_FLAG.
Proof.
  revert isOtf. induction options as [|o options IH]; intros isOtf H;
    cbn [rl_options forallb] in *.
  - discriminate.
  - destruct (o =? "OTF")%string; [apply IH; exact H | reflexivity].
Qed.

(** X20. The options of the deconvolution functions.  Those of
    [IterativeConstrainedTikhonovMiller] are accepted exactly when each is
    "OTF" or "simple", and then [isOtf] and [simple] tell whether "OTF" and
    "simple" are among them, in whatever order; those of
    [ParseRichardsonLucyOptions] are accepted exactly when each is "OTF",
    and the result tells whether there is one.  Any other option is an
    invalid flag. *)
Theorem deconvolution_options (options : list string) :
  let ictm_known := forallb (fun o => (o =? "OTF")%string || (o =? "simple")%string)
                      options in
  let rl_known := forallb (fun o => (o =? "OTF")%string) options in
  ictm_options options false false
  = (if ictm_known
     then Ok (existsb (fun o => (o =? "OTF")%string) options,
              existsb (fun o => (o =? "simple")%string) options)
     else Throw E.INVALID_FLAG)
  /\ ParseRichardsonLucyOptions options
     = (if rl_known then Ok (negb (List.length options =? 0)%nat)
        else Throw E.INVALID_FLAG).
Proof.
  cbv zeta. split.
  - destruct (forallb _ options) eqn:E.
    + rewrite ictm_options_known by exact E. reflexivity.
    + apply ictm_options_unknown. exact E.
  - unfold ParseRichardsonLucyOptions. destruct (forallb _ options) eqn:E.
    + rewrite rl_options_known by exact E. reflexivity.
    + apply rl_options_unknown. exact E.
Qed.

(** X21. [RichardsonLucy] and [RichardsonLucyTotalVariation] never return
    an image: whatever the arguments and whatever the library functions do,
    the call ends in an error, and when the arguments pass every check and
    the library calls succeed the error is "not implemented". *)
Theorem RichardsonLucy_is_not_implemented (in_ psf : Image T) (maxIterations : Z)
    (regularization : float) (options : list string) :
  (exists msg, RichardsonLucy in_ psf maxIterations options = Throw msg)
  /\ (exists msg,
         RichardsonLucyTotalVariation in_ psf maxIterations regularization options
         = Throw msg)
  /\ (forged in_ = true -> forged psf = true ->
      IsScalar in_ = true -> IsScalar psf = true ->
      DataTypes.IsReal (dataType in_) = true ->
      forall isOtf H G,
        ParseRichardsonLucyOptions options = Ok isOtf ->
        GetOTF psf (sizes in_) isOtf = Ok H ->
        FourierTransform in_ [] = Ok G ->
        RichardsonLucy in_ psf maxIterations options = Throw EX.NOT_IMPLEMENTED
        /\ RichardsonLucyTotalVariation in_ psf maxIterations regularization options
           = Throw EX.NOT_IMPLEMENTED).
Proof.
  unfold RichardsonLucy, RichardsonLucyTotalVariation, deconvolution_checks, throw_if.
  split; [|split].
  - destruct (_ || _); [eexists; reflexivity|].
    destruct (_ || _); [eexists; reflexivity|].
    destruct (negb _); [eexists; reflexivity|].
    destruct (ParseRichardsonLucyOptions options); cbn [bind]; [|eexists; reflexivity].
    destruct (GetOTF _ _ _); cbn [bind]; [|eexists; reflexivity].
    destruct (FourierTransform _ _); cbn [bind]; eexists; reflexivity.
  - destruct (_ || _); [eexists; reflexivity|].
    destruct (_ || _); [eexists; reflexivity|].
    destruct (negb _); [eexists; reflexivity|].
    destruct (ParseRichardsonLucyOptions options); cbn [bind]; [|eexists; reflexivity].
    destruct (GetOTF _ _ _); cbn [bind]; [|eexists; reflexivity].
    destruct (FourierTransform _ _); cbn [bind]; eexists; reflexivity.
  - intros Hf Hp Hs Hps Hr isOtf H G Ho Hh Hg.
    rewrite Hf, Hp, Hs, Hps, Hr, Ho. cbn [negb orb bind]. rewrite Hh. cbn [bind].
    rewrite Hg. cbn [bind]. auto.
Qed.

End DeconvolutionFacts.

(** ** Which dimensions [SeparableConvolution] processes *)

Section ProcessedDimensions.
Context {T : Type} {ST : Sample T} {LIB : Collaborators T}.

Lemma nth_true_lt (l : list bool) (k : nat) :
  nth k l false = true -> (k < List.length l)%nat.
Proof.
  intros H. destruct (Nat.ltb_spec k (List.length l)); [assumption|].
  rewrite nth_overflow in H by assumption. discriminate.
Qed.

(** X22. A dimension is processed only if the caller selected it (or gave
    no process array), the filter that serves it is not meaningless and,
    with one filter per dimension, the image has more than one sample along
    it: the setup clears process flags and never sets one. *)
Theorem processed_dimensions_are_selected (in_ : Image T)
    (fa : list (OneDimensionalFilter T)) (process : list bool) (su : SeparableSetup)
    (ii : nat) :
  SeparableConvolution_setup in_ fa process = Ok su ->
  nth ii (su_process su) false = true ->
  (ii < List.length (sizes in_))%nat
  /\ (process = [] \/ nth ii process false = true)
  /\ IsMeaninglessFilter (nth (filter_index fa ii) (su_filterData su) dummy_filter)
     = false
  /\ (List.length fa <> 1%nat -> 1 < Size in_ ii).
Proof.
  intros H Hp.
  destruct (setup_Ok_full _ _ _ _ H)
    as (_ & _ & _ & _ & HF & _ & (pr & Hpr & Hpl & Hip & Hsp)).
  destruct (setup_process_nth _ _ _ _ ii H) as (Hl & _) ;
    [ destruct (setup_process_nth in_ fa process su O H) as (Hl0 & _);
      [ destruct (setup_Ok _ _ _ _ H) as (_ & Hd & _); lia |];
      rewrite <- Hl0; apply nth_true_lt; exact Hp |].
  assert (Hii : (ii < List.length (sizes in_))%nat)
    by (rewrite <- Hl; apply nth_true_lt; exact Hp).
  split; [exact Hii|].
  assert (Hsel : process = [] \/ forall k, nth k pr false = nth k process false).
  { unfold initial_process, throw_if in Hip.
    destruct (Nat.eqb_spec (List.length process) 0) as [E|E].
    - left. destruct process; [reflexivity | discriminate].
    - right. destruct (negb _); [discriminate|]. inversion Hip. reflexivity. }
  rewrite Hsp in Hp. unfold update_process, filter_index in *.
  rewrite <- (Forall2_length HF) in Hp.
  destruct (Nat.eqb_spec (List.length fa) 1) as [E|E].
  - replace (hd dummy_filter (su_filterData su))
      with (nth 0 (su_filterData su) dummy_filter) in Hp
      by (destruct (su_filterData su); reflexivity).
    destruct (IsMeaninglessFilter (nth 0 (su_filterData su) dummy_filter)).
    + rewrite nth_map_const in Hp by (rewrite Hpl; exact Hii). discriminate.
    + split; [|split; [reflexivity | intros C; contradiction]].
      destruct Hsel as [Hs|Hs]; [left; exact Hs | right; rewrite <- Hs; exact Hp].
  - rewrite nth_map_seq in Hp by exact Hii.
    destruct (Z.leb_spec (Size in_ ii) 1); cbn [orb] in Hp; [discriminate|].
    destruct (IsMeaninglessFilter (nth ii (su_filterData su) dummy_filter));
      [discriminate|].
    split; [|split; [reflexivity | intros _; assumption]].
    destruct Hsel as [Hs|Hs]; [left; exact Hs | right; rewrite <- Hs; exact Hp].
Qed.

End ProcessedDimensions.

Section MeaninglessFilters.
Context {T : Type} {ST : Sample T}.



End MeaninglessFilters.

(** ** The area of a polygon *)

Section PolygonFacts.
Context {T : Type} {ST : Sample T} {Vertex : Type}.
Context (CrossProduct : Vertex -> Vertex -> T) (half : T -> T).
Context (CrossProduct_antisymmetric :
           forall a b, CrossProduct a b = sopp (CrossProduct b a)).
Context (half_opp : forall u, half (sopp u) = sopp (half u)).
Local Open Scope sample_scope.

Add Ring sample_ring_polygon : (@sample_ring T ST).

Lemma area_loop_cons (a b : Vertex) (vs : list Vertex) (sum : T) :
  area_loop CrossProduct (a :: b :: vs) sum
  = area_loop CrossProduct (b :: vs) (sum + CrossProduct a b).
Proof. reflexivity. Qed.

Lemma area_loop_sum (vertices : list Vertex) (sum : T) :
  area_loop CrossProduct vertices sum = sum + area_loop CrossProduct vertices s0.
Proof.
  revert sum. induction vertices as [|a vs IH]; intros sum.
  - cbn. ring.
  - destruct vs as [|b vs]; [cbn; ring|].
    rewrite !area_loop_cons, IH, (IH (s0 + CrossProduct a b)). ring.
Qed.

Lemma last_default (l : list Vertex) (d d' : Vertex) :
  l <> [] -> last l d = last l d'.
Proof.
  induction l as [|a l IH]; intros H; [congruence|].
  destruct l; [reflexivity|]. cbn [last] in *. apply IH. discriminate.
Qed.

Lemma area_loop_snoc (vs : list Vertex) (a x : Vertex) :
  area_loop CrossProduct ((a :: vs) ++ [x]) s0
  = area_loop CrossProduct (a :: vs) s0 + CrossProduct (last (a :: vs) a) x.
Proof.
  revert a. induction vs as [|b vs IH]; intros a.
  - cbn. ring.
  - change ((a :: b :: vs) ++ [x]) with (a :: b :: (vs ++ [x])).
    rewrite !area_loop_cons.
    rewrite area_loop_sum, (area_loop_sum (b :: vs)).
    change (b :: vs ++ [x]) with ((b :: vs) ++ [x]). rewrite IH.
    replace (last (a :: b :: vs) a) with (last (b :: vs) b).
    + ring.
    + change (last (a :: b :: vs) a) with (last (b :: vs) a).
      apply last_default. discriminate.
Qed.

Lemma area_loop_rev (vs : list Vertex) :
  area_loop CrossProduct (rev vs) s0 = - area_loop CrossProduct vs s0.
Proof.
  induction vs as [|a vs IH].
  - cbn. ring.
  - destruct vs as [|c vs]; [cbn; ring|].
    rewrite area_loop_cons, (area_loop_sum (c :: vs)).
    change (rev (a :: c :: vs)) with (rev (c :: vs) ++ [a]).
    destruct (rev (c :: vs)) as [|b r] eqn:Er.
    { apply (f_equal (@List.length Vertex)) in Er. rewrite length_rev in Er.
      discriminate. }
    rewrite area_loop_snoc, IH.
    assert (Hl : last (b :: r) b = c).
    { rewrite <- Er. cbn [rev]. apply last_last. }
    rewrite Hl, (CrossProduct_antisymmetric c a). ring.
Qed.

(** X24. [Polygon::Area] with the vertices in the reverse order is the
    opposite of the area (for a cross product that changes sign when its
    arguments are exchanged, in exact arithmetic); a polygon of fewer than
    three vertices has area 0. *)
Theorem Area_changes_sign_with_orientation (vertices : list Vertex) :
  Area CrossProduct half (rev vertices) = - Area CrossProduct half vertices
  /\ ((List.length vertices < 3)%nat -> Area CrossProduct half vertices = s0).
Proof.
  split.
  - unfold Area. rewrite length_rev.
    destruct (Nat.ltb_spec (List.length vertices) 3) as [Hs|Hl]; [ring|].
    destruct vertices as [|v0 vs]; [cbn in Hl; lia|].
    destruct (rev (v0 :: vs)) as [|w0 ws] eqn:Er.
    { apply (f_equal (@List.length Vertex)) in Er. rewrite length_rev in Er.
      discriminate. }
    rewrite <- Er, !area_loop_sum with (sum := CrossProduct _ _), area_loop_rev.
    assert (Hw : w0 = last (v0 :: vs) v0).
    { apply (f_equal (@rev Vertex)) in Er. rewrite rev_involutive in Er.
      rewrite Er. cbn [rev]. rewrite last_last. reflexivity. }
    assert (Hv : last (rev (v0 :: vs)) w0 = v0).
    { cbn [rev]. apply last_last. }
    rewrite Hv, <- Hw, <- half_opp. f_equal.
    rewrite (CrossProduct_antisymmetric v0). ring.
  - intros H. unfold Area.
    destruct (Nat.ltb_spec (List.length vertices) 3); [reflexivity | lia].
Qed.

End PolygonFacts.

(** * The further properties on concrete inputs *)

(** X1 on an example. The taps 1 2 3 under "general": the output is the sum over the taps. *)
Lemma general_filter_is_convolution_example :
  Z.of_nat (List.length [1; 2; 3]) <= vector_max_size
  /\ -1 < Z.of_nat (List.length [1; 2; 3])
  /\ exists fd,
       mkInternOneDimensionalFilter (real_filter [1; 2; 3] "general" (-1)) true false
       = Ok fd
       /\ Filter fd (fun k => k) 2
          = map (fun i => rdot [1; 2; 3] (fun k => k) (i + resolved_origin (-1) 3))
              (zseq 2).
Proof.
  assert (H1 : [1; 2; 3] <> @nil Z) by discriminate.
  assert (H2 : Z.of_nat (List.length [1; 2; 3]) <= vector_max_size)
    by (rewrite vector_max_size_eq; cbn; lia).
  assert (H3 : -1 < Z.of_nat (List.length [1; 2; 3])) by (cbn; lia).
  split; [exact H2|]. split; [exact H3|].
  exact (general_filter_is_convolution (T := Z) [1; 2; 3] (-1) true false
           (fun k => k) 2 H1 H2 H3).
Defined.

(** X4 on an example. A line and a second one that differs from it only further than the
    border from the line: the same output. *)
Lemma line_filter_reads_only_line_and_border_example :
  exists fd,
    mkInternOneDimensionalFilter (taps [1; 2; 3] "general" (-1)) true false = Ok fd
    /\ border_of fd = 1
    /\ (forall k, -1 <= k < 2 + 1 -> k = (if k <? -1 then 0 else k))
    /\ Filter fd (fun k => k) 2 = Filter fd (fun k => if k <? -1 then 0 else k) 2.
Proof.
  eexists. split; [reflexivity|]. split; [reflexivity|].
  assert (H : forall k, -1 <= k < 2 + 1 -> k = (if k <? -1 then 0 else k)).
  { intros k Hk. destruct (Z.ltb_spec k (-1)); [lia | reflexivity]. }
  assert (Hmax : Z.of_nat (List.length (filter (taps [1; 2; 3] "general" (-1))))
                 <= vector_max_size)
    by (rewrite vector_max_size_eq; cbn; lia).
  split; [exact H|].
  apply (line_filter_reads_only_line_and_border (T := Z)
           (taps [1; 2; 3] "general" (-1)) true false _
           (fun k => k) (fun k => if k <? -1 then 0 else k) 2 eq_refl Hmax).
  - discriminate.
  - reflexivity.
  - exact H.
Defined.

(** X5 on an example. The complex taps 1+i, 2 under "conj" and the taps 1+i, 2, 1-i under
    "general", over the complex samples with integer parts. *)
Lemma conj_tag_matches_general_example :
  as_complex (reals [1; 1; 2; 0; 1; -1]) = full_conj (as_complex (reals [1; 1; 2; 0]))
  /\ same_result same_filter
       (mkInternOneDimensionalFilter
          (complex_filter (reals [1; 1; 2; 0; 1; -1]) "general" (-1)) true true)
       (mkInternOneDimensionalFilter
          (complex_filter (reals [1; 1; 2; 0]) "conj" (-1)) true true).
Proof.
  assert (H : as_complex (reals [1; 1; 2; 0; 1; -1])
              = full_conj (as_complex (reals [1; 1; 2; 0]))) by reflexivity.
  assert (Hmax : Z.of_nat (List.length (reals [1; 1; 2; 0])) <= vector_max_size)
    by (rewrite vector_max_size_eq; cbn; lia).
  split; [exact H|].
  exact (proj1 (conj_tag_matches_general (T := (Z * Z)%type)
                  (reals [1; 1; 2; 0]) (reals [1; 1; 2; 0; 1; -1]) (-1) true
                  eq_refl eq_refl Hmax H)).
Defined.

(** X6 on an example. Three taps with a tag that the library does not know. *)
Lemma symmetry_tag_is_checked_only_with_taps_example :
  stored_size (taps [1; 2; 3] "mirrored" (-1)) false = Ok 3
  /\ known_symmetry "mirrored" = false
  /\ mkInternOneDimensionalFilter (taps [1; 2; 3] "mirrored" (-1)) true false
     = Throw "Symmetry string not recognized: mirrored"
  /\ stored_size (taps [] "mirrored" (-1)) false = Ok 0
  /\ mkInternOneDimensionalFilter (taps [] "mirrored" (-1)) true false
     = Ok {| i_filter := []; i_size := 0; i_dataSize := 0; i_origin := 0;
             i_isDouble := true; i_isComplex := false; i_symmetry := GENERAL |}.
Proof.
  assert (H : stored_size (taps [1; 2; 3] "mirrored" (-1)) false = Ok 3) by reflexivity.
  assert (H0 : stored_size (taps [] "mirrored" (-1)) false = Ok 0) by reflexivity.
  assert (Hn : 3 <> 0) by discriminate.
  split; [exact H|]. split; [reflexivity|].
  split;
    [exact (proj1 (symmetry_tag_is_checked_only_with_taps (T := Z) _ true false 3 H)
              Hn eq_refl)|].
  split; [exact H0|].
  exact (proj2 (proj2 (symmetry_tag_is_checked_only_with_taps (T := Z) _ true false 0 H0))
           eq_refl).
Defined.


(** X8 on an example. The doctest "testing ConvolveFT" with a periodic boundary. *)
Lemma ConvolveFT_output_has_input_sizes_example :
  ConvolveFT img_16x8 filt_4x4 S.SPATIAL S.SPATIAL S.SPATIAL ["periodic"%string]
  = Ok periodic_run
  /\ Forall (fun s => 1 <= s) (sizes filt_4x4)
  /\ ft_outSizes periodic_run = sizes img_16x8.
Proof.
  assert (H : ConvolveFT img_16x8 filt_4x4 S.SPATIAL S.SPATIAL S.SPATIAL
                ["periodic"%string] = Ok periodic_run) by reflexivity.
  assert (HF : Forall (fun s => 1 <= s) (sizes filt_4x4))
    by (repeat (constructor; [lia|]); constructor).
  split; [exact H|]. split; [exact HF|].
  exact (ConvolveFT_output_has_input_sizes (T := Z) _ _ _ _ _ _ _ H HF).
Defined.

(** X9 on an example. An input given in the frequency domain, a spatial filter and an output
    wanted in the frequency domain: one forward transform, no inverse one. *)
Lemma ConvolveFT_transforms_what_is_spatial_example :
  exists r,
    ConvolveFT img_16x8 filt_4x4 S.FREQUENCY S.SPATIAL S.FREQUENCY [] = Ok r
    /\ count_calls is_forward (ft_calls r) = 1%nat
    /\ count_calls is_product (ft_calls r) = 1%nat
    /\ count_calls is_inverse (ft_calls r) = 0%nat
    /\ ft_real r = false.
Proof.
  eexists. split; [reflexivity|].
  destruct (ConvolveFT_transforms_what_is_spatial (T := Z) img_16x8 filt_4x4
              S.FREQUENCY S.SPATIAL S.FREQUENCY [] _ eq_refl)
    as (H1 & H2 & H3 & H4 & _).
  split; [exact H1|]. split; [exact H2|]. split; [exact H3|]. exact H4.
Defined.

(** X10 on an example. The 2 x 2 kernel with the method "fourier". *)
Lemma fourier_is_used_whenever_it_is_tried_example :
  forged image32 = true /\ forged kernel_2x2 = true
  /\ methods_to_try image32 (expand_filter image32 kernel_2x2) S.FOURIER
     = Ok (false, true, false)
  /\ Convolution image32 kernel_2x2 S.FOURIER []
     = Ok (Call_ConvolveFT image32 (expand_filter image32 kernel_2x2)
             S.SPATIAL S.SPATIAL S.SPATIAL [EmptyString]).
Proof.
  assert (H : methods_to_try image32 (expand_filter image32 kernel_2x2) S.FOURIER
              = Ok (false, true, false)) by reflexivity.
  assert (Hl : (List.length (sizes kernel_2x2) <= List.length (sizes image32))%nat)
    by (cbn; lia).
  split; [reflexivity|]. split; [reflexivity|]. split; [exact H|].
  exact (proj2 (fourier_is_used_whenever_it_is_tried (T := Z) image32 kernel_2x2
                  S.FOURIER [] false false eq_refl eq_refl Hl H (or_introl eq_refl))).
Defined.

(** X11 on an example. The 2 x 2 kernel with the method "best". *)
Lemma best_always_selects_an_implementation_example :
  forged image32 = true /\ forged kernel_2x2 = true
  /\ ((SeparateFilter (expand_filter image32 kernel_2x2) <> []
       /\ Convolution image32 kernel_2x2 S.BEST []
          = Ok (Call_SeparableConvolution image32
                  (SeparateFilter (expand_filter image32 kernel_2x2)) []))
      \/ Convolution image32 kernel_2x2 S.BEST []
         = Ok (Call_ConvolveFT image32 (expand_filter image32 kernel_2x2)
                 S.SPATIAL S.SPATIAL S.SPATIAL [EmptyString])
      \/ Convolution image32 kernel_2x2 S.BEST []
         = Ok (Call_GeneralConvolution image32 (expand_filter image32 kernel_2x2) [])).
Proof.
  assert (Hl : (List.length (sizes kernel_2x2) <= List.length (sizes image32))%nat)
    by (cbn; lia).
  split; [reflexivity|]. split; [reflexivity|].
  exact (best_always_selects_an_implementation (T := Z) image32 kernel_2x2 []
           eq_refl eq_refl Hl).
Defined.

(** X17 on an example. The mappings of the viewer: "lin" is the fourth name. *)
Lemma toString_toIndex_round_trip_example :
  6 = Z.of_nat (List.length mappings)
  /\ toIndex "lin" mappings 6 = Ok 3
  /\ toString 3 mappings 6 = Ok "lin"%string
  /\ toString 6 mappings 6 = Throw EX.INDEX_OUT_OF_RANGE.
Proof.
  assert (Hn : 6 = Z.of_nat (List.length mappings)) by reflexivity.
  assert (Hi : toIndex "lin" mappings 6 = Ok 3) by reflexivity.
  assert (Hle : 6 <= 6) by lia.
  split; [exact Hn|]. split; [exact Hi|].
  destruct (toString_toIndex_round_trip mappings 6 Hn) as (H1 & _ & _ & H4).
  split; [exact (proj2 (H1 _ _ Hi)) | exact (H4 6 Hle)].
Defined.

(** X18 on an example. Three dimensions given for an image of three dimensions. *)
Lemma set_dims_result_example :
  set_dims 3 [2; 0; 1] = Ok [2; 0; 1; 1]
  /\ List.length [2; 0; 1; 1] = 4%nat
  /\ Forall (fun d => -1 <= d < 3) [2; 0; 1; 1].
Proof.
  assert (H : set_dims 3 [2; 0; 1] = Ok [2; 0; 1; 1]) by reflexivity.
  assert (Hn : 0 <= 3) by lia.
  split; [exact H|].
  destruct (set_dims_result 3 [2; 0; 1] _ H Hn) as (H1 & _ & H3 & _).
  split; [exact H1 | exact H3].
Defined.

(** X19 on an example. The labels x y z on an image of two dimensions. *)
Lemma Show_reverses_the_labels_example :
  exists l,
    Show_options false 2 2 [] ["x"; "y"; "z"]%char = Some (show_dims 2, l)
    /\ l = reverse_labels ["x"; "y"; "z"]%char 2.
Proof.
  assert (Hne : ["x"; "y"; "z"]%char <> []) by discriminate.
  assert (Hle : (2 <= List.length ["x"; "y"; "z"]%char)%nat) by (cbn; lia).
  destruct (proj1 (Show_reverses_the_labels 2 [] ["x"; "y"; "z"]%char Hne))
    as (l & H1 & _ & _ & H4).
  exists l. split; [exact H1 | exact (H4 Hle)].
Defined.

(** X22 on an example. The first dimension of the 3 x 2 image with one filter per dimension. *)
Lemma processed_dimensions_are_selected_example :
  SeparableConvolution_setup image32 filters32 [] = Ok setup32
  /\ nth 0 (su_process setup32) false = true
  /\ (0 < List.length (sizes image32))%nat
  /\ IsMeaninglessFilter
       (nth (filter_index filters32 0) (su_filterData setup32) dummy_filter) = false
  /\ 1 < Size image32 0.
Proof.
  assert (H : SeparableConvolution_setup image32 filters32 [] = Ok setup32)
    by reflexivity.
  assert (Hp : nth 0 (su_process setup32) false = true) by reflexivity.
  assert (Hl : List.length filters32 <> 1%nat) by discriminate.
  split; [exact H|]. split; [exact Hp|].
  destruct (processed_dimensions_are_selected (T := Z) image32 filters32 [] setup32 0
              H Hp) as (H1 & _ & H3 & H4).
  split; [exact H1|]. split; [exact H3 | exact (H4 Hl)].
Defined.


(** X24 on an example. The square with corners (0,0) and (2,2), with integer coordinates and the
    cross product of two vectors of the plane. *)
Lemma Area_changes_sign_with_orientation_example :
  (forall a b : Z * Z,
      fst a * snd b - snd a * fst b = - (fst b * snd a - snd b * fst a))
  /\ (forall u : Z, Z.quot (- u) 2 = - Z.quot u 2)
  /\ Area (fun a b : Z * Z => fst a * snd b - snd a * fst b) (fun u => Z.quot u 2)
       (rev [(0, 0); (2, 0); (2, 2); (0, 2)])
     = - Area (fun a b : Z * Z => fst a * snd b - snd a * fst b) (fun u => Z.quot u 2)
           [(0, 0); (2, 0); (2, 2); (0, 2)].
Proof.
  assert (Hc : forall a b : Z * Z,
             fst a * snd b - snd a * fst b = - (fst b * snd a - snd b * fst a))
    by (intros a b; ring).
  assert (Hh : forall u : Z, Z.quot (- u) 2 = - Z.quot u 2)
    by (intros u; apply Z.quot_opp_l; discriminate).
  split; [exact Hc|]. split; [exact Hh|].
  exact (proj1 (Area_changes_sign_with_orientation (T := Z)
                  (fun a b : Z * Z => fst a * snd b - snd a * fst b)
                  (fun u => Z.quot u 2) Hc Hh [(0, 0); (2, 0); (2, 2); (0, 2)])).
Defined.
